(** * xen.fun: the LIT framework and the Xenial fusion engine

    A shallow embedding of [lit-framework.js] and [xenial-fusion.js].

    - JavaScript numbers are IEEE 754 binary64 values: Rocq's primitive
      [float], with its NaN and infinities.  The transcendental functions of
      [Math] are fixed on the arguments where ECMAScript fixes them and are
      otherwise left to the host.
    - JavaScript strings are sequences of UTF-16 code units.
    - [Date.now()] and [Math.random()] read the next value of an external
      stream kept in the [World].
    - LIT objects are mutable and shared between the composer registry, the
      fusion engine and their callers: they live in a heap and are named by
      their address.
    - A JavaScript exception leaves the mutations made before it in place:
      a computation returns its outcome together with the state it reached.
    - Contents and metadata are plain data: [undefined], [null], booleans,
      numbers, strings, arrays, and objects whose prototype is
      [Object.prototype].  No value is a function.
    - Each LIT holds a [relations] array of its own.  The constructor keeps
      the array that its configuration carries, so two LITs share one array
      when a caller passes the same array twice, or passes the output of
      [toJSON()], which is the array of the LIT itself.  Such runs are not
      modelled: a configuration carries its relations as a value.  The
      properties that speak of the relations of more than one LIT say so. *)

From Stdlib Require Import String Ascii.
From Stdlib Require Import List Bool Arith ZArith NArith Lia.
From Stdlib Require Uint63.
From Stdlib Require Import Floats.
Import ListNotations.

Set Warnings "-register-all".
Set Warnings "-inexact-float".

(* ------------------------------------------------------------------------- *)
(** ** Strings *)

(** One UTF-16 code unit. *)
Definition char16 := N.

Definition jsstring := list char16.

(** An ASCII literal of the source as a JavaScript string. *)
Definition js (s : string) : jsstring :=
  map N_of_ascii (list_ascii_of_string s).

Fixpoint jsstring_eqb (a b : jsstring) : bool :=
  match a, b with
  | [], [] => true
  | x :: a', y :: b' => N.eqb x y && jsstring_eqb a' b'
  | _, _ => false
  end.

(** The [\s] class of a JavaScript regular expression: WhiteSpace and
    LineTerminator code points. *)
Definition is_whitespace (c : char16) : bool :=
  ((9 <=? c) && (c <=? 13) || (c =? 32) || (c =? 160) || (c =? 5760)
   || (8192 <=? c) && (c <=? 8202) || (c =? 8232) || (c =? 8233)
   || (c =? 8239) || (c =? 8287) || (c =? 12288) || (c =? 65279))%N.

(** [s.split(/\s+/)]: every maximal run of white space is one separator; a
    run at either end of the string leaves an empty piece there, and the
    empty string splits into one empty piece. [cur] is the piece being read,
    reversed; [in_sep] tells that the previous unit was white space. *)
Fixpoint split_ws_from (cur : jsstring) (in_sep : bool) (s : jsstring)
  : list jsstring :=
  match s with
  | [] => [rev cur]
  | c :: rest =>
      if is_whitespace c then
        if in_sep then split_ws_from cur true rest
        else rev cur :: split_ws_from [] true rest
      else split_ws_from (c :: cur) false rest
  end.

Definition split_ws (s : jsstring) : list jsstring := split_ws_from [] false s.

(** [arr.join(sep)] on an array of strings. *)
Fixpoint join (sep : jsstring) (parts : list jsstring) : jsstring :=
  match parts with
  | [] => []
  | [p] => p
  | p :: rest => p ++ sep ++ join sep rest
  end.

(** [s.substring(from, to)] for [from <= to]. *)
Definition substring (from to : nat) (s : jsstring) : jsstring :=
  firstn (to - from) (skipn from s).

Definition is_high_surrogate (c : char16) : bool := ((55296 <=? c) && (c <=? 56319))%N.
Definition is_low_surrogate (c : char16) : bool := ((56320 <=? c) && (c <=? 57343))%N.

(** The string iterator ([for (const char of s)]): one element per code
    point, a surrogate pair staying together. *)
Fixpoint code_points (s : jsstring) : list jsstring :=
  match s with
  | [] => []
  | c :: rest =>
      match rest with
      | d :: rest' =>
          if is_high_surrogate c && is_low_surrogate d
          then [c; d] :: code_points rest'
          else [c] :: code_points rest
      | [] => [[c]]
      end
  end.

(** [new Set(items)]: the distinct elements, in order of first insertion. *)
Definition Set_add (seen : list jsstring) (x : jsstring) : list jsstring :=
  if existsb (jsstring_eqb x) seen then seen else seen ++ [x].

Definition Set_of (items : list jsstring) : list jsstring :=
  fold_left Set_add items [].

(* ------------------------------------------------------------------------- *)
(** ** Numbers *)

(** A length or a count as a number; JavaScript lengths are below [2^53]. *)
Definition float_of_nat (n : nat) : float := of_uint63 (Uint63.of_Z (Z.of_nat n)).

(** ToBoolean on a number: [0], [-0] and [NaN] are falsy. *)
Definition truthy_number (x : float) : bool := negb (is_zero x || is_nan x).

(** [a || b] on numbers. *)
Definition or_number (a b : float) : float := if truthy_number a then a else b.

Definition is_negative_zero (x : float) : bool := is_zero x && get_sign x.

(** [Math.min(a, b)]: NaN if either is, and [-0] below [+0]. *)
Definition Math_min (a b : float) : float :=
  if is_nan a || is_nan b then nan
  else if (a <? b)%float then a
  else if (b <? a)%float then b
  else if is_negative_zero a then a else b.

(** [Math.max(a, b)]. *)
Definition Math_max (a b : float) : float :=
  if is_nan a || is_nan b then nan
  else if (b <? a)%float then a
  else if (a <? b)%float then b
  else if is_negative_zero a then b else a.

Definition Math_abs (x : float) : float := abs x.

(** [Math.pow(x, 2)]. *)
Definition square (x : float) : float := (x * x)%float.

(** [arr.reduce((sum, v) => sum + v, 0)]. *)
Definition sum_floats (l : list float) : float :=
  fold_left (fun sum v => (sum + v)%float) l 0%float.

(* ------------------------------------------------------------------------- *)
(** ** JSON-like values *)

Inductive JSValue : Type :=
| JUndefined
| JNull
| JBool (b : bool)
| JNumber (x : float)
| JString (s : jsstring)
| JArray (items : list JSValue)
| JObject (props : list (jsstring * JSValue)).

(** ToBoolean. *)
Definition truthy (v : JSValue) : bool :=
  match v with
  | JUndefined | JNull => false
  | JBool b => b
  | JNumber x => truthy_number x
  | JString s => negb (Nat.eqb (length s) 0)
  | JArray _ | JObject _ => true
  end.

(** [a || b]. *)
Definition or_value (a b : JSValue) : JSValue := if truthy a then a else b.

Definition is_nullish (v : JSValue) : bool :=
  match v with JUndefined | JNull => true | _ => false end.

Fixpoint lookup {A : Type} (k : jsstring) (m : list (jsstring * A)) : option A :=
  match m with
  | [] => None
  | (k', v) :: rest => if jsstring_eqb k k' then Some v else lookup k rest
  end.

(** [v.k] for the property names the program reads ([metadata], [id],
    [relations], [value], [persistent], [knowledge], [description], [topic],
    [name], [steps], [medium]): none of them is a property of a string, a
    number, a boolean or an array.  Reading a property of [null] or
    [undefined] is a TypeError: [None]. *)
Definition get_prop (v : JSValue) (k : jsstring) : option JSValue :=
  match v with
  | JUndefined | JNull => None
  | JObject props =>
      Some (match lookup k props with Some x => x | None => JUndefined end)
  | _ => Some JUndefined
  end.

(* ------------------------------------------------------------------------- *)
(** ** The host *)

(** What the program takes from the JavaScript engine and leaves
    implementation-defined: the approximations of [Math.log], [Math.exp] and
    [Math.log2] on ordinary arguments, the printing of numbers and dates,
    and [JSON.stringify]. *)
Record Host : Type := {
  log_approx : float -> float;
  exp_approx : float -> float;
  log2_approx : float -> float;
  Number_toString : N -> float -> jsstring;   (* radix, number *)
  Date_toISOString : float -> jsstring;
  JSON_stringify : JSValue -> jsstring
}.

Section Math.
Variable h : Host.

(** [Math.log(x)]. *)
Definition Math_log (x : float) : float :=
  if is_nan x then nan
  else if (x <? 0)%float then nan
  else if is_zero x then neg_infinity
  else if (x =? 1)%float then 0%float
  else if (x =? infinity)%float then infinity
  else log_approx h x.

(** [Math.log2(x)]. *)
Definition Math_log2 (x : float) : float :=
  if is_nan x then nan
  else if (x <? 0)%float then nan
  else if is_zero x then neg_infinity
  else if (x =? 1)%float then 0%float
  else if (x =? infinity)%float then infinity
  else log2_approx h x.

(** [Math.exp(x)]. *)
Definition Math_exp (x : float) : float :=
  if is_nan x then nan
  else if is_zero x then 1%float
  else if (x =? infinity)%float then infinity
  else if (x =? neg_infinity)%float then 0%float
  else exp_approx h x.

(** ToString, as [Array.prototype.join] and template literals apply it.
    An object is printed by the [toString] that it finds: that of
    [Object.prototype], which gives ['[object Object]'], unless the object
    has a property [toString] of its own.  No value of this model is a
    function, so such a property cannot be called, and neither can a
    [valueOf] give a primitive: the conversion is a TypeError, [None].  An
    array is printed by [join(',')], which prints its elements. *)
Fixpoint ToString (v : JSValue) : option jsstring :=
  match v with
  | JUndefined => Some (js "undefined")
  | JNull => Some (js "null")
  | JBool true => Some (js "true")
  | JBool false => Some (js "false")
  | JNumber x => Some (Number_toString h 10 x)
  | JString s => Some s
  | JArray items =>
      match (fix elements (l : list JSValue) : option (list jsstring) :=
               match l with
               | [] => Some []
               | item :: rest =>
                   match (if is_nullish item then Some [] else ToString item) with
                   | None => None
                   | Some text =>
                       match elements rest with
                       | None => None
                       | Some texts => Some (text :: texts)
                       end
                   end
               end) items with
      | None => None
      | Some texts => Some (join (js ",") texts)
      end
  | JObject props =>
      match lookup (js "toString") props with
      | Some _ => None
      | None => Some (js "[object Object]")
      end
  end.

(** The elements of an array as [join] prints them: [null] and [undefined]
    as the empty string; the first element that cannot be printed ends the
    loop. *)
Fixpoint element_texts (items : list JSValue) : option (list jsstring) :=
  match items with
  | [] => Some []
  | item :: rest =>
      match (if is_nullish item then Some [] else ToString item) with
      | None => None
      | Some text =>
          match element_texts rest with
          | None => None
          | Some texts => Some (text :: texts)
          end
      end
  end.

(** [arr.join(sep)]. *)
Definition Array_join (sep : jsstring) (items : list JSValue) : option jsstring :=
  match element_texts items with
  | None => None
  | Some texts => Some (join sep texts)
  end.

End Math.

(* ------------------------------------------------------------------------- *)
(** ** The world: clock and random source *)

Record World : Type := {
  clock : nat -> float;     (* the successive readings of [Date.now()] *)
  ticks : nat;              (* how many were taken *)
  random : nat -> float;    (* the successive results of [Math.random()] *)
  draws : nat
}.

(** A computation that reads the world. *)
Definition W (A : Type) : Type := World -> A * World.

Definition retW {A} (a : A) : W A := fun w => (a, w).

Definition bindW {A B} (c : W A) (k : A -> W B) : W B :=
  fun w => let (a, w') := c w in k a w'.

Declare Scope world_scope.
Delimit Scope world_scope with world.
Notation "x <- c ;; k" := (bindW c (fun x => k))
  (at level 61, c at next level, right associativity) : world_scope.

Definition Date_now : W float :=
  fun w => (clock w (ticks w),
            {| clock := clock w; ticks := S (ticks w);
               random := random w; draws := draws w |}).

Definition Math_random : W float :=
  fun w => (random w (draws w),
            {| clock := clock w; ticks := ticks w;
               random := random w; draws := S (draws w) |}).

(* ------------------------------------------------------------------------- *)
(** ** Errors *)

Inductive Error : Type :=
| CapabilityNotFound (name : jsstring)
| FusionRequiresAtLeast2
| FusionPatternNotFound (patternName : option jsstring)
| InsufficientCoherence
| TypeError
| HandlerError (thrown : JSValue).

(** The double quote, U+0022. *)
Definition quote : char16 := 34%N.

(** The message of the [Error] object that the source constructs; the
    other two errors are not constructed by the program. *)
Definition message (e : Error) : option jsstring :=
  match e with
  | CapabilityNotFound name =>
      Some (js "Capability " ++ [quote] ++ name ++ [quote] ++ js " not found")
  | FusionRequiresAtLeast2 => Some (js "Fusion requires at least 2 LITs")
  | FusionPatternNotFound p =>
      Some (js "Fusion pattern " ++ [quote]
            ++ match p with Some n => n | None => js "null" end
            ++ [quote] ++ js " not found")
  | InsufficientCoherence =>
      Some (js "LITs do not meet fusion criteria (insufficient coherence)")
  | TypeError | HandlerError _ => None
  end.

Inductive Outcome (A : Type) : Type :=
| Return (a : A)
| Throw (e : Error).
Arguments Return {A} a.
Arguments Throw {A} e.

Local Open Scope float_scope.

(* ------------------------------------------------------------------------- *)
(** ** class TemporalSignature *)

Module TemporalSignature.

Record Interaction : Type := {
  timestamp : float;
  type : jsstring;
  impact : float
}.

Record t : Type := {
  createdAt : float;
  lastModified : float;
  interactions : list Interaction;
  persistence : float
}.

(** [constructor()] *)
Definition new : W t :=
  (created <- Date_now ;;
   modified <- Date_now ;;
   retW {| createdAt := created; lastModified := modified;
           interactions := []; persistence := 0 |})%world.

Section WithHost.
Variable h : Host.

(** [updatePersistence()] *)
Definition updatePersistence (ts : t) : W t :=
  (now <- Date_now ;;
   let age := now - createdAt ts in
   let interactionDensity :=
     float_of_nat (length (interactions ts)) / (age / 1000) in
   retW {| createdAt := createdAt ts; lastModified := lastModified ts;
           interactions := interactions ts;
           persistence := Math_log h (1 + age) * (1 + interactionDensity) |})%world.

(** [record(interaction)] with [interaction = { type, impact }]. *)
Definition record (ts : t) (ty : jsstring) (imp : float) : W t :=
  (stamp <- Date_now ;;
   let pushed :=
     interactions ts ++ [{| timestamp := stamp; type := ty; impact := imp |}] in
   modified <- Date_now ;;
   updatePersistence {| createdAt := createdAt ts; lastModified := modified;
                        interactions := pushed;
                        persistence := persistence ts |})%world.

(** [get halfLife()] *)
Definition halfLife (ts : t) : float :=
  let baseDecay := 86400000 in
  let interactionBonus :=
    fold_left (fun sum i => sum + or_number (impact i) 0) (interactions ts) 0 in
  baseDecay * (1 + interactionBonus).

(** [get temporalValue()] *)
Definition temporalValue (ts : t) : W float :=
  (now <- Date_now ;;
   let age := now - createdAt ts in
   let decay := Math_exp h ((- age) / halfLife ts) in
   retW (persistence ts * decay))%world.

End WithHost.
End TemporalSignature.

(* ------------------------------------------------------------------------- *)
(** ** class AgentSystem *)

Module AgentSystem.

(** A handler is a function of the caller's: given the context, it returns
    a value or throws one, and it may read the clock and the random source.
    What it does to other objects that it can reach is not part of the agent
    system and is not modelled. *)
Inductive HandlerOutcome : Type :=
| HReturn (result : JSValue)
| HThrow (thrown : JSValue).

Definition Handler : Type := JSValue -> W HandlerOutcome.

(** A capability object.  [uses] is [None] when the object has no such
    property: [defineCapability] writes [uses: 0], the constructor stores
    the caller's objects as they are. *)
Record Capability : Type := {
  name : jsstring;
  handler : Handler;
  uses : option float
}.

Record t : Type := {
  capabilities : list Capability;
  autonomy : float;
  intentionality : float;
  effectivity : float
}.

(** [constructor(capabilities = [])] *)
Definition new (caps : list Capability) : t :=
  {| capabilities := caps; autonomy := 0; intentionality := 0; effectivity := 0 |}.

(** ToNumber of [c.uses]: [undefined] converts to NaN. *)
Definition uses_number (c : Capability) : float :=
  match uses c with Some n => n | None => nan end.

Section WithHost.
Variable h : Host.

(** [calculateAgency()] *)
Definition calculateAgency (a : t) : t :=
  let caps := capabilities a in
  let totalUses := fold_left (fun sum c => sum + uses_number c) caps 0 in
  let activeCapabilities := length (filter (fun c => 0 <? uses_number c) caps) in
  {| capabilities := caps;
     autonomy := Math_min 1 (float_of_nat (length caps) / 10);
     intentionality := Math_min 1 (Math_log h (1 + totalUses) / 5);
     effectivity :=
       float_of_nat activeCapabilities / Math_max 1 (float_of_nat (length caps)) |}.

(** [defineCapability(name, handler)] *)
Definition defineCapability (a : t) (nm : jsstring) (hd : Handler) : t :=
  calculateAgency
    {| capabilities := capabilities a ++ [{| name := nm; handler := hd; uses := Some 0 |}];
       autonomy := autonomy a; intentionality := intentionality a;
       effectivity := effectivity a |}.

(** [this.capabilities.find(c => c.name === name)] *)
Definition find_capability (nm : jsstring) (caps : list Capability) : option Capability :=
  find (fun c => jsstring_eqb (name c) nm) caps.

(** [capability.uses++] on the object that [find] returned: the first one
    of that name. *)
Fixpoint increment_uses (nm : jsstring) (caps : list Capability) : list Capability :=
  match caps with
  | [] => []
  | c :: rest =>
      if jsstring_eqb (name c) nm
      then {| name := name c; handler := handler c;
              uses := Some (uses_number c + 1) |} :: rest
      else c :: increment_uses nm rest
  end.

(** [executeCapability(name, context)]: the agent system after the call and
    what the call produced. *)
Definition executeCapability (a : t) (nm : jsstring) (context : JSValue)
  : W (t * Outcome JSValue) :=
  match find_capability nm (capabilities a) with
  | None => retW (a, Throw (CapabilityNotFound nm))
  | Some capability =>
      let counted :=
        {| capabilities := increment_uses nm (capabilities a);
           autonomy := autonomy a; intentionality := intentionality a;
           effectivity := effectivity a |} in
      (out <- handler capability context ;;
       match out with
       | HThrow v => retW (counted, Throw (HandlerError v))
       | HReturn result => retW (calculateAgency counted, Return result)
       end)%world
  end.

End WithHost.

(** [get agencyScore()] *)
Definition agencyScore (a : t) : float :=
  (autonomy a + intentionality a + effectivity a) / 3.

End AgentSystem.

(* ------------------------------------------------------------------------- *)
(** ** class CoherenceField *)

Module CoherenceField.

Record t : Type := {
  content : JSValue;
  consistency : float;
  resonance : float;
  entropy : float
}.

(** [measureConsistency()] *)
Definition measureConsistency (c : JSValue) : float :=
  match c with
  | JString s =>
      let words := split_ws s in
      let uniqueWords := Set_of words in
      Math_min 1 (float_of_nat (length uniqueWords) / float_of_nat (length words))
  | JObject props =>
      let keys := map fst props in
      let definedValues :=
        filter (fun k => match lookup k props with
                         | Some v => negb (is_nullish v)
                         | None => false
                         end) keys in
      float_of_nat (length definedValues) / Math_max 1 (float_of_nat (length keys))
  | JArray items =>
      let definedValues := filter (fun v => negb (is_nullish v)) items in
      float_of_nat (length definedValues) / Math_max 1 (float_of_nat (length items))
  | _ => 0.5
  end.

(** [measureResonance()]; [None] is the TypeError of reading a property of
    [null] or [undefined]. *)
Definition measureResonance (c : JSValue) : option float :=
  match get_prop c (js "metadata"), get_prop c (js "id"),
        get_prop c (js "relations"), get_prop c (js "value"),
        get_prop c (js "persistent") with
  | Some metadata, Some id, Some relations, Some value, Some persistent =>
      let hasMetadata := if truthy metadata then 0.2 else 0 in
      let hasIdentity := if truthy id then 0.2 else 0 in
      let hasRelations := if truthy relations then 0.2 else 0 in
      let hasValue := match value with JUndefined => 0 | _ => 0.2 end in
      let isPersistent := if truthy persistent then 0.2 else 0 in
      Some (sum_floats [hasMetadata; hasIdentity; hasRelations; hasValue; isPersistent])
  | _, _, _, _, _ => None
  end.

(** [charFreq[char] = (charFreq[char] || 0) + 1]; the keys stay in insertion
    order. *)
Fixpoint count_char (ch : jsstring) (charFreq : list (jsstring * nat))
  : list (jsstring * nat) :=
  match charFreq with
  | [] => [(ch, 1%nat)]
  | (k, n) :: rest =>
      if jsstring_eqb ch k then (k, S n) :: rest else (k, n) :: count_char ch rest
  end.

(** The keys that are array indices: among one-character keys, the digits. *)
Definition is_index_key (k : jsstring) : bool :=
  match k with
  | [c] => ((48 <=? c) && (c <=? 57))%N
  | _ => false
  end.

Definition digit_keys : list jsstring :=
  map (fun d => [d]) [48; 49; 50; 51; 52; 53; 54; 55; 56; 57]%N.

(** [Object.values(charFreq)]: index keys first, ascending, then the other
    keys in insertion order. *)
Definition Object_values (charFreq : list (jsstring * nat)) : list nat :=
  flat_map (fun k => match lookup k charFreq with Some n => [n] | None => [] end)
           digit_keys
  ++ map snd (filter (fun kv => negb (is_index_key (fst kv))) charFreq).

Section WithHost.
Variable h : Host.

(** [measureEntropy()] *)
Definition measureEntropy (c : JSValue) : float :=
  let contentStr := JSON_stringify h c in
  let charFreq := fold_left (fun freq ch => count_char ch freq) (code_points contentStr) [] in
  let total := float_of_nat (length contentStr) in
  let entropy :=
    fold_left (fun entropy count =>
                 let probability := float_of_nat count / total in
                 entropy - probability * Math_log2 h probability)
              (Object_values charFreq) 0 in
  Math_min 1 (entropy / 8).

(** [constructor(content)], which runs [analyze()]. *)
Definition new (c : JSValue) : Outcome t :=
  let consistency := measureConsistency c in
  match measureResonance c with
  | None => Throw TypeError
  | Some resonance =>
      Return {| content := c; consistency := consistency; resonance := resonance;
                entropy := measureEntropy c |}
  end.

End WithHost.

(** [get coherenceScore()] *)
Definition coherenceScore (cf : t) : float :=
  let optimalEntropy := 1 - Math_abs (0.6 - entropy cf) in
  consistency cf * 0.4 + resonance cf * 0.4 + optimalEntropy * 0.2.

End CoherenceField.

(* ------------------------------------------------------------------------- *)
(** ** class LIT *)

Module LIT.

Inductive State : Type := nascent | stable | resonant | transcendent | decaying.

(** An element of [relations]; [relationType] is its [type] property.
    The relations that a fusion pattern passes in have no [establishedAt]. *)
Record Relation : Type := {
  targetId : jsstring;
  relationType : jsstring;
  establishedAt : option float
}.

(** The constructor's [config]; [None] and [JUndefined] stand for an absent
    property. *)
Record Config : Type := {
  config_id : option jsstring;
  config_type : option jsstring;
  config_version : option jsstring;
  config_content : JSValue;
  config_metadata : JSValue;
  config_capabilities : option (list AgentSystem.Capability);
  config_relations : option (list Relation)
}.

Record t : Type := {
  id : jsstring;
  type : jsstring;
  version : jsstring;
  content : JSValue;
  metadata : JSValue;
  coherenceField : CoherenceField.t;
  agentSystem : AgentSystem.t;
  temporalSignature : TemporalSignature.t;
  relations : list Relation;
  state : State
}.

(** The [data] argument of [interact]: an object whose [impact], when it
    has one, is a number. *)
Record InteractData : Type := { impact : option float }.

(** What [interact] returns. *)
Record InteractResult : Type := {
  litId : jsstring;
  interactionType : jsstring;
  result : InteractData;
  newValue : float
}.

(** [s || fallback] on an optional string: the empty string is falsy. *)
Definition or_string (s : option jsstring) (fallback : jsstring) : jsstring :=
  match s with
  | Some (c :: rest) => c :: rest
  | _ => fallback
  end.

Definition with_temporalSignature (l : t) (ts : TemporalSignature.t) : t :=
  {| id := id l; type := type l; version := version l; content := content l;
     metadata := metadata l; coherenceField := coherenceField l;
     agentSystem := agentSystem l; temporalSignature := ts;
     relations := relations l; state := state l |}.

Definition with_state (l : t) (s : State) : t :=
  {| id := id l; type := type l; version := version l; content := content l;
     metadata := metadata l; coherenceField := coherenceField l;
     agentSystem := agentSystem l; temporalSignature := temporalSignature l;
     relations := relations l; state := s |}.

Definition with_content (l : t) (c : JSValue) : t :=
  {| id := id l; type := type l; version := version l; content := c;
     metadata := metadata l; coherenceField := coherenceField l;
     agentSystem := agentSystem l; temporalSignature := temporalSignature l;
     relations := relations l; state := state l |}.

Definition with_coherenceField (l : t) (cf : CoherenceField.t) : t :=
  {| id := id l; type := type l; version := version l; content := content l;
     metadata := metadata l; coherenceField := cf;
     agentSystem := agentSystem l; temporalSignature := temporalSignature l;
     relations := relations l; state := state l |}.

Definition with_agentSystem (l : t) (a : AgentSystem.t) : t :=
  {| id := id l; type := type l; version := version l; content := content l;
     metadata := metadata l; coherenceField := coherenceField l;
     agentSystem := a; temporalSignature := temporalSignature l;
     relations := relations l; state := state l |}.

Definition with_relations (l : t) (rs : list Relation) : t :=
  {| id := id l; type := type l; version := version l; content := content l;
     metadata := metadata l; coherenceField := coherenceField l;
     agentSystem := agentSystem l; temporalSignature := temporalSignature l;
     relations := rs; state := state l |}.

(** The branches of [updateState()] on the value it computed. *)
Definition classify (value : float) : State :=
  if value <? 0.2 then decaying
  else if value <? 0.4 then nascent
  else if value <? 0.6 then stable
  else if value <? 0.8 then resonant
  else transcendent.

Section WithHost.
Variable h : Host.

(** [generateId()] *)
Definition generateId : W jsstring :=
  (now <- Date_now ;;
   let timestamp := Number_toString h 36 now in
   r <- Math_random ;;
   let random := substring 2 9 (Number_toString h 36 r) in
   retW (js "LIT-" ++ timestamp ++ js "-" ++ random))%world.

(** [calculateValue()] *)
Definition calculateValue (l : t) : W float :=
  (let coherence := CoherenceField.coherenceScore (coherenceField l) in
   let agency := AgentSystem.agencyScore (agentSystem l) in
   temporal <- TemporalSignature.temporalValue h (temporalSignature l) ;;
   let baseValue := coherence * 0.4 + agency * 0.35 + temporal * 0.25 in
   let networkBonus := Math_log h (1 + float_of_nat (length (relations l))) / 5 in
   retW (Math_min 1 (baseValue * (1 + networkBonus))))%world.

(** [updateState()] *)
Definition updateState (l : t) : W t :=
  (value <- calculateValue l ;;
   retW (with_state l (classify value)))%world.

(** [constructor(config = {})].  The only step that can throw is the
    construction of the coherence field.  [this.relations] is the array of
    the configuration itself, [config.relations || []]; it is taken here as
    an array that no other object holds. *)
Definition new (config : Config) : W (Outcome t) :=
  (id <- match config_id config with
         | Some (c :: rest) => retW (c :: rest)
         | _ => generateId
         end ;;
   let content := or_value (config_content config) (JObject []) in
   match CoherenceField.new h content with
   | Throw e => retW (Throw e)
   | Return coherenceField =>
       let agentSystem :=
         AgentSystem.new match config_capabilities config with
                         | Some caps => caps
                         | None => []
                         end in
       temporalSignature <- TemporalSignature.new ;;
       l <- updateState
              {| id := id;
                 type := or_string (config_type config) (js "generic");
                 version := or_string (config_version config) (js "1.0.0");
                 content := content;
                 metadata := or_value (config_metadata config) (JObject []);
                 coherenceField := coherenceField;
                 agentSystem := agentSystem;
                 temporalSignature := temporalSignature;
                 relations := match config_relations config with
                              | Some rs => rs
                              | None => []
                              end;
                 state := nascent |} ;;
       retW (Return l)
   end)%world.

(** [interact(type, data)] *)
Definition interact (l : t) (ty : jsstring) (data : InteractData)
  : W (t * InteractResult) :=
  (let imp := match impact data with
              | Some x => or_number x 0.1
              | None => 0.1
              end in
   ts <- TemporalSignature.record h (temporalSignature l) ty imp ;;
   l' <- updateState (with_temporalSignature l ts) ;;
   value <- calculateValue l' ;;
   retW (l', {| litId := id l'; interactionType := ty; result := data;
                newValue := value |}))%world.

(** [transform(transformFn)]: the LIT after the call, and whether the call
    returned. *)
Definition transform (l : t) (transformFn : JSValue -> JSValue)
  : W (t * Outcome unit) :=
  (let newContent := transformFn (content l) in
   let l1 := with_content l newContent in
   match CoherenceField.new h newContent with
   | Throw e => retW (l1, Throw e)
   | Return cf =>
       ts <- TemporalSignature.record h (temporalSignature l1) (js "transform") 0.5 ;;
       l' <- updateState (with_temporalSignature (with_coherenceField l1 cf) ts) ;;
       retW (l', Return tt)
   end)%world.

(** [relate(otherLit, relationType)]; only [otherLit.id] is read. *)
Definition relate (l : t) (otherId : jsstring) (relationType : jsstring) : W t :=
  (now <- Date_now ;;
   let l1 :=
     with_relations l (relations l ++ [{| targetId := otherId;
                                          relationType := relationType;
                                          establishedAt := Some now |}]) in
   ts <- TemporalSignature.record h (temporalSignature l1) (js "relate") 0.3 ;;
   retW (with_temporalSignature l1 ts))%world.

(** [lit.agentSystem.executeCapability(name, context)] on the LIT that owns
    the agent system. *)
Definition executeCapability (l : t) (nm : jsstring) (context : JSValue)
  : W (t * Outcome JSValue) :=
  (r <- AgentSystem.executeCapability h (agentSystem l) nm context ;;
   retW (with_agentSystem l (fst r), snd r))%world.

End WithHost.
End LIT.

(* ------------------------------------------------------------------------- *)
(** ** The object store *)

(** The address of a LIT object. *)
Definition addr := nat.

(** [map.set(k, v)] on a [Map]: an existing key keeps its place. *)
Fixpoint Map_set {A : Type} (k : jsstring) (v : A) (m : list (jsstring * A))
  : list (jsstring * A) :=
  match m with
  | [] => [(k, v)]
  | (k', v') :: rest =>
      if jsstring_eqb k k' then (k', v) :: rest else (k', v') :: Map_set k v rest
  end.

Fixpoint update_nth {A : Type} (n : nat) (f : A -> A) (l : list A) : list A :=
  match l, n with
  | [], _ => []
  | x :: rest, O => f x :: rest
  | x :: rest, S n' => x :: update_nth n' f rest
  end.

(** [arr.map(f)] where [f] may throw: the first failure ends the loop. *)
Fixpoint traverse {A B : Type} (f : A -> option B) (l : list A) : option (list B) :=
  match l with
  | [] => Some []
  | x :: rest =>
      match f x with
      | None => None
      | Some y =>
          match traverse f rest with
          | None => None
          | Some ys => Some (y :: ys)
          end
      end
  end.

(* ------------------------------------------------------------------------- *)
(** ** class FusionPattern *)

Module FusionPattern.

(** [fusionLogic] builds the configuration that it hands to
    [engine.litComposer.compose]; [execute] makes that call.  The logic
    fails ([None]) when it reads a property of a [null] or [undefined]
    content, or spreads a value that is not iterable: a TypeError. *)
Record t : Type := {
  name : jsstring;
  description : jsstring;
  fusionLogic : list LIT.t -> W (option LIT.Config);
  resonanceThreshold : float;
  usageCount : nat
}.

(** [constructor(name, description, fusionLogic)] *)
Definition new (nm descr : jsstring)
  (logic : list LIT.t -> W (option LIT.Config)) : t :=
  {| name := nm; description := descr; fusionLogic := logic;
     resonanceThreshold := 0.3; usageCount := 0 |}.

(** [canFuse(lits)] *)
Definition canFuse (p : t) (lits : list LIT.t) : bool :=
  if (length lits <? 2)%nat then false
  else
    let avgCoherence :=
      fold_left (fun sum lit =>
                   sum + CoherenceField.coherenceScore (LIT.coherenceField lit))
                lits 0
      / float_of_nat (length lits) in
    resonanceThreshold p <=? avgCoherence.

(** [this.usageCount++] in [execute]. *)
Definition used (p : t) : t :=
  {| name := name p; description := description p; fusionLogic := fusionLogic p;
     resonanceThreshold := resonanceThreshold p; usageCount := S (usageCount p) |}.

End FusionPattern.

(* ------------------------------------------------------------------------- *)
(** ** class EmergenceMetrics *)

Module EmergenceMetrics.

Record t : Type := {
  novelty : float;
  synergy : float;
  stability : float;
  resonance : float
}.

(** [constructor()] *)
Definition new : t := {| novelty := 0; synergy := 0; stability := 0; resonance := 0 |}.

(** [calculateVariance(values)] *)
Definition calculateVariance (values : list float) : float :=
  let mean := sum_floats values / float_of_nat (length values) in
  let squaredDiffs := map (fun val => square (val - mean)) values in
  sum_floats squaredDiffs / float_of_nat (length values).

(** [get emergenceScore()] *)
Definition emergenceScore (e : t) : float :=
  novelty e * 0.25 + synergy e * 0.35 + stability e * 0.25 + resonance e * 0.15.

Section WithHost.
Variable h : Host.

(** [lits.reduce((sum, lit) => sum + lit.calculateValue(), 0)] *)
Fixpoint sum_values (lits : list LIT.t) (sum : float) : W float :=
  match lits with
  | [] => retW sum
  | lit :: rest =>
      (v <- LIT.calculateValue h lit ;; sum_values rest (sum + v))%world
  end.

(** [JSON.stringify(content).length].  [JSON.stringify(undefined)] is
    [undefined], and reading its [length] is a TypeError: [None]. *)
Definition stringify_length (content : JSValue) : option float :=
  match content with
  | JUndefined => None
  | _ => Some (float_of_nat (length (JSON_stringify h content)))
  end.

(** [lits.reduce((sum, lit) => sum + JSON.stringify(lit.content).length, 0)] *)
Fixpoint sum_lengths (lits : list LIT.t) (sum : float) : option float :=
  match lits with
  | [] => Some sum
  | lit :: rest =>
      match stringify_length (LIT.content lit) with
      | None => None
      | Some n => sum_lengths rest (sum + n)
      end
  end.

(** [calculate(inputLITs, fusedLIT)]; [None] is the TypeError of the two
    first statements, which no reading of the clock precedes. *)
Definition calculate (inputLITs : list LIT.t) (fusedLIT : LIT.t) : W (option t) :=
  let count := float_of_nat (length inputLITs) in
  match sum_lengths inputLITs 0 with
  | None => retW None
  | Some lengths =>
      let inputComplexity := lengths / count in
      match stringify_length (LIT.content fusedLIT) with
      | None => retW None
      | Some outputComplexity =>
          (let novelty :=
             Math_min 1 (Math_abs (outputComplexity - inputComplexity) / inputComplexity) in
           total <- sum_values inputLITs 0 ;;
           let inputValue := total / count in
           outputValue <- LIT.calculateValue h fusedLIT ;;
           let synergy :=
             Math_max 0 ((outputValue - inputValue) / Math_max 0.1 inputValue) in
           let stability := CoherenceField.coherenceScore (LIT.coherenceField fusedLIT) in
           let coherenceVariance :=
             calculateVariance
               (map (fun lit => CoherenceField.coherenceScore (LIT.coherenceField lit))
                    inputLITs) in
           retW (Some {| novelty := novelty; synergy := synergy; stability := stability;
                         resonance := 1 - Math_min 1 coherenceVariance |}))%world
      end
  end.

End WithHost.
End EmergenceMetrics.

(* ------------------------------------------------------------------------- *)
(** ** The system: one composer and the fusion engine built on it *)

(** An element of [fusionHistory]. *)
Record FusionRecord : Type := {
  record_timestamp : float;
  record_pattern : jsstring;
  record_sourceIDs : list jsstring;
  record_resultID : jsstring;
  record_emergence : EmergenceMetrics.t;
  record_score : float
}.

Record Sys : Type := {
  world : World;
  heap : list LIT.t;                                   (* the LIT objects *)
  registry : list (jsstring * addr);                   (* LITComposer.registry *)
  fusionPatterns : list (jsstring * FusionPattern.t);  (* XenialFusionEngine.fusionPatterns *)
  fusionHistory : list FusionRecord                    (* XenialFusionEngine.fusionHistory *)
}.

Definition with_world (s : Sys) (w : World) : Sys :=
  {| world := w; heap := heap s; registry := registry s;
     fusionPatterns := fusionPatterns s; fusionHistory := fusionHistory s |}.

Definition with_heap (s : Sys) (hp : list LIT.t) : Sys :=
  {| world := world s; heap := hp; registry := registry s;
     fusionPatterns := fusionPatterns s; fusionHistory := fusionHistory s |}.

Definition with_registry (s : Sys) (r : list (jsstring * addr)) : Sys :=
  {| world := world s; heap := heap s; registry := r;
     fusionPatterns := fusionPatterns s; fusionHistory := fusionHistory s |}.

Definition with_fusionPatterns (s : Sys) (ps : list (jsstring * FusionPattern.t)) : Sys :=
  {| world := world s; heap := heap s; registry := registry s;
     fusionPatterns := ps; fusionHistory := fusionHistory s |}.

Definition with_fusionHistory (s : Sys) (hs : list FusionRecord) : Sys :=
  {| world := world s; heap := heap s; registry := registry s;
     fusionPatterns := fusionPatterns s; fusionHistory := hs |}.

(** The object at an address. *)
Definition deref (s : Sys) (a : addr) : option LIT.t := nth_error (heap s) a.

(** The objects at a list of addresses. *)
Definition derefs (s : Sys) (lits : list addr) : list LIT.t :=
  flat_map (fun a => match deref s a with Some l => [l] | None => [] end) lits.

(** A computation on the system; a thrown error leaves the state that was
    reached. *)
Definition M (A : Type) : Type := Sys -> Outcome A * Sys.

(** Run a method of the object at [a] and store the object back. *)
Definition on_lit {A : Type} (a : addr) (method : LIT.t -> W (LIT.t * A)) (s : Sys)
  : option A * Sys :=
  match deref s a with
  | None => (None, s)
  | Some l =>
      let (r, w) := method l (world s) in
      (Some (snd r), with_heap (with_world s w) (update_nth a (fun _ => fst r) (heap s)))
  end.

(* ------------------------------------------------------------------------- *)
(** ** class LITComposer *)

Module LITComposer.

(** [constructor()]: an empty registry; no engine is attached yet. *)
Definition new (w : World) : Sys :=
  {| world := w; heap := []; registry := []; fusionPatterns := []; fusionHistory := [] |}.

(** [find(id)] *)
Definition find (s : Sys) (id : jsstring) : option addr := lookup id (registry s).

(** [getAllLITs()] *)
Definition getAllLITs (s : Sys) : list addr := map snd (registry s).

(** [findByType(type)] *)
Definition findByType (s : Sys) (ty : jsstring) : list addr :=
  filter (fun a => match deref s a with
                   | Some lit => jsstring_eqb (LIT.type lit) ty
                   | None => false
                   end)
         (map snd (registry s)).

Section WithHost.
Variable h : Host.

(** [compose(config)]: the new object, its address, and the system with the
    object filed under its id. *)
Definition compose_lit (config : LIT.Config) (s : Sys) : Outcome (addr * LIT.t) * Sys :=
  let (out, w) := LIT.new h config (world s) in
  match out with
  | Throw e => (Throw e, with_world s w)
  | Return lit =>
      let a := length (heap s) in
      (Return (a, lit),
       {| world := w; heap := heap s ++ [lit];
          registry := Map_set (LIT.id lit) a (registry s);
          fusionPatterns := fusionPatterns s; fusionHistory := fusionHistory s |})
  end.

(** [compose(config)] *)
Definition compose (config : LIT.Config) : M addr :=
  fun s =>
    match compose_lit config s with
    | (Return r, s') => (Return (fst r), s')
    | (Throw e, s') => (Throw e, s')
    end.

(** [lits[i].relate(lits[i + 1], relationType)] *)
Definition relate_at (a b : addr) (relationType : jsstring) (s : Sys) : Sys :=
  match deref s b with
  | None => s
  | Some other =>
      snd (on_lit a (fun l => (l' <- LIT.relate h l (LIT.id other) relationType ;;
                               retW (l', tt))%world) s)
  end.

(** [network(lits, relationType = 'connected')] *)
Fixpoint network (lits : list addr) (relationType : jsstring) (s : Sys) : Sys :=
  match lits with
  | a :: (b :: _) as rest => network rest relationType (relate_at a b relationType s)
  | _ => s
  end.

(** [measureNetworkCoherence()] *)
Definition measureNetworkCoherence (s : Sys) : float * Sys :=
  let lits := getAllLITs s in
  if (length lits =? 0)%nat then (0, s)
  else
    let (totalValue, w) := EmergenceMetrics.sum_values h (derefs s lits) 0 (world s) in
    (totalValue / float_of_nat (length lits), with_world s w).

End WithHost.
End LITComposer.

(* ------------------------------------------------------------------------- *)
(** ** class XenialFusionEngine *)

Module XenialFusionEngine.

(** What [fuse] returns. *)
Record FuseResult : Type := {
  fusedLIT : addr;
  emergence : EmergenceMetrics.t;
  pattern : jsstring
}.

(** [c.k1 || c.k2 || fallback], where reading a property of [null] or
    [undefined] throws. *)
Definition first_truthy (c : JSValue) (k1 k2 : jsstring) (fallback : jsstring)
  : option JSValue :=
  match get_prop c k1 with
  | None => None
  | Some v1 =>
      if truthy v1 then Some v1
      else match get_prop c k2 with
           | None => None
           | Some v2 => Some (or_value v2 (JString fallback))
           end
  end.

(** The separators [' ⊕ '] (U+2295) and [' × '] (U+00D7), and the star
    U+2727 of the emergent output. *)
Definition oplus_separator : jsstring := [32; 8853; 32]%N.
Definition times_separator : jsstring := [32; 215; 32]%N.
Definition star : char16 := 10023%N.

Definition ids_of (lits : list LIT.t) : JSValue :=
  JArray (map (fun l => JString (LIT.id l)) lits).

Section WithHost.
Variable h : Host.

(** [new Date().toISOString()] *)
Definition now_ISO : W jsstring :=
  (now <- Date_now ;; retW (Date_toISOString h now))%world.

(** [`prefix${Date.now()}`] *)
Definition stamped (prefix : string) : W jsstring :=
  (now <- Date_now ;; retW (js prefix ++ Number_toString h 10 now))%world.

(** The metadata object that every default pattern passes. *)
Definition fusion_metadata (domain patternName : string) (created : jsstring)
  (lits : list LIT.t) : JSValue :=
  JObject [ (js "domain", JString (js domain));
            (js "created", JString created);
            (js "fusionPattern", JString (js patternName));
            (js "sourceIDs", ids_of lits) ].

(** Pattern 1: the fusion logic of 'Harmonic Synthesis'. *)
Definition harmonicSynthesis (lits : list LIT.t) : W (option LIT.Config) :=
  match traverse (fun lit => first_truthy (LIT.content lit)
                                          (js "knowledge") (js "description") [])
                 lits with
  | None => retW None
  | Some knowledge =>
      match Array_join h oplus_separator knowledge,
            traverse (fun lit => first_truthy (LIT.content lit)
                                              (js "topic") (js "name") (js "concept"))
                     lits with
      | Some combinedKnowledge, Some topics =>
          (id <- stamped "synthesis-" ;;
           fusedAt <- now_ISO ;;
           created <- now_ISO ;;
           retW (Some
             {| LIT.config_id := None;
                LIT.config_type := Some (js "synthesis");
                LIT.config_version := None;
                LIT.config_content :=
                  JObject [ (js "fusionType", JString (js "harmonic-synthesis"));
                            (js "sourceTopics", JArray topics);
                            (js "synthesizedKnowledge", JString combinedKnowledge);
                            (js "id", JString id);
                            (js "persistent", JBool true);
                            (js "value", JNumber 1);
                            (js "metadata",
                             JObject [ (js "sourceCount",
                                        JNumber (float_of_nat (length lits)));
                                       (js "fusedAt", JString fusedAt) ]) ];
                LIT.config_metadata :=
                  fusion_metadata "emergent-epistemology" "Harmonic Synthesis"
                                  created lits;
                LIT.config_capabilities := None;
                LIT.config_relations :=
                  Some (map (fun lit => {| LIT.targetId := LIT.id lit;
                                           LIT.relationType := js "fused-from";
                                           LIT.establishedAt := None |}) lits) |}))%world
      | _, _ => retW None
      end
  end.

(** [lit.type === ty || lit.content.k], as a filter predicate. *)
Definition has_type_or (ty k : jsstring) (lit : LIT.t) : option bool :=
  if jsstring_eqb (LIT.type lit) ty then Some true
  else match get_prop (LIT.content lit) k with
       | None => None
       | Some v => Some (truthy v)
       end.

(** [arr.filter(p)] where [p] may throw. *)
Fixpoint filter_throwing {A : Type} (p : A -> option bool) (l : list A)
  : option (list A) :=
  match l with
  | [] => Some []
  | x :: rest =>
      match p x with
      | None => None
      | Some keep =>
          match filter_throwing p rest with
          | None => None
          | Some kept => Some (if keep then x :: kept else kept)
          end
      end
  end.

(** [[...v]]: arrays and strings are iterable. *)
Definition spread (v : JSValue) : option (list JSValue) :=
  match v with
  | JArray items => Some items
  | JString s => Some (map JString (code_points s))
  | _ => None
  end.

(** The steps that 'Processual Integration' starts from. *)
Definition initial_steps (processes : list LIT.t) : option (list JSValue) :=
  let default := [JString (js "Integrate"); JString (js "Process");
                  JString (js "Transform")] in
  match processes with
  | [] => Some default
  | first :: _ =>
      match get_prop (LIT.content first) (js "steps") with
      | None => None
      | Some steps => if truthy steps then spread steps else Some default
      end
  end.

(** [`${step} [informed by: ${context?.content.topic || 'context'}]`] with
    [context = knowledge[i % knowledge.length]]. *)
Definition enrich (knowledge : list LIT.t) (i : nat) (step : JSValue)
  : option JSValue :=
  let context :=
    match knowledge with
    | [] => None
    | _ => nth_error knowledge (i mod length knowledge)
    end in
  let topic :=
    match context with
    | None => Some JUndefined
    | Some lit => get_prop (LIT.content lit) (js "topic")
    end in
  match ToString h step, topic with
  | Some stepText, Some t =>
      match ToString h (or_value t (JString (js "context"))) with
      | None => None
      | Some topicText =>
          Some (JString (stepText ++ js " [informed by: " ++ topicText ++ js "]"))
      end
  | _, _ => None
  end.

(** [steps.map((step, i) => ...)] from index [i] on. *)
Fixpoint enrich_from (knowledge : list LIT.t) (i : nat) (steps : list JSValue)
  : option (list JSValue) :=
  match steps with
  | [] => Some []
  | step :: rest =>
      match enrich knowledge i step with
      | None => None
      | Some e =>
          match enrich_from knowledge (S i) rest with
          | None => None
          | Some es => Some (e :: es)
          end
      end
  end.

(** Pattern 2: the fusion logic of 'Processual Integration'. *)
Definition processualIntegration (lits : list LIT.t) : W (option LIT.Config) :=
  match filter_throwing (has_type_or (js "process") (js "steps")) lits with
  | None => retW None
  | Some processes =>
      match filter_throwing (has_type_or (js "knowledge") (js "knowledge")) lits with
      | None => retW None
      | Some knowledge =>
          match initial_steps processes with
          | None => retW None
          | Some steps =>
              match enrich_from knowledge 0 steps with
              | None => retW None
              | Some enrichedSteps =>
                  (id <- stamped "informed-process-" ;;
                   created <- now_ISO ;;
                   retW (Some
                     {| LIT.config_id := None;
                        LIT.config_type := Some (js "informed-process");
                        LIT.config_version := None;
                        LIT.config_content :=
                          JObject [ (js "fusionType", JString (js "processual-integration"));
                                    (js "name", JString (js "Informed Process"));
                                    (js "steps", JArray enrichedSteps);
                                    (js "currentStep", JNumber 0);
                                    (js "knowledgeContext",
                                     JArray (map LIT.content knowledge));
                                    (js "id", JString id);
                                    (js "persistent", JBool true) ];
                        LIT.config_metadata :=
                          fusion_metadata "agential-procedural" "Processual Integration"
                                          created lits;
                        LIT.config_capabilities := None;
                        LIT.config_relations := None |}))%world
              end
          end
      end
  end.

(** The handler of [generate_emergent] (pattern 3).  It reads
    [context.lit.content] and returns the emergent output; its push onto
    [lit.content.outputs] needs that property to be an array. *)
Definition generate_emergent : AgentSystem.Handler :=
  fun context =>
    let thrown := AgentSystem.HThrow (JString (js "TypeError")) in
    match get_prop context (js "lit") with
    | None => retW thrown
    | Some lit =>
        (id <- stamped "emergent-" ;;
         timestamp <- Date_now ;;
         match get_prop lit (js "content") with
         | None => retW thrown
         | Some content =>
             match get_prop content (js "medium"),
                   get_prop content (js "sourceLITs") with
             | Some medium, Some sourceLITs =>
                 match ToString h medium with
                 | None => retW thrown
                 | Some mediumText =>
                     r <- Math_random ;;
                     retW match get_prop content (js "outputs") with
                          | Some (JArray _) =>
                              AgentSystem.HReturn
                                (JObject [ (js "id", JString id);
                                           (js "timestamp", JNumber timestamp);
                                           (js "content",
                                            JString ([star] ++ js " Emergent "
                                                     ++ mediumText
                                                     ++ js " " ++ [star]));
                                           (js "noveltyScore", JNumber (0.7 + r * 0.3));
                                           (js "fusionSignature", sourceLITs) ])
                          | _ => thrown
                          end
                 end
             | _, _ => retW thrown
             end
         end)%world
    end.

(** Pattern 3: the fusion logic of 'Creative Amplification'. *)
Definition creativeAmplification (lits : list LIT.t) : W (option LIT.Config) :=
  match traverse (fun lit => first_truthy (LIT.content lit)
                                          (js "medium") (js "name") (js "pattern"))
                 lits with
  | None => retW None
  | Some mediums =>
      match Array_join h times_separator mediums, Array_join h (js ", ") mediums with
      | Some fusedMedium, Some listed =>
          (id <- stamped "emergent-creative-" ;;
           created <- now_ISO ;;
           retW (Some
             {| LIT.config_id := None;
                LIT.config_type := Some (js "emergent-creative");
                LIT.config_version := None;
                LIT.config_content :=
                  JObject [ (js "fusionType", JString (js "creative-amplification"));
                            (js "medium", JString fusedMedium);
                            (js "description",
                             JString (js "Emergent fusion of: " ++ listed));
                            (js "outputs", JArray []);
                            (js "sourceLITs", ids_of lits);
                            (js "parameters",
                             JObject [ (js "complexity", JNumber 0.8);
                                       (js "novelty", JNumber 0.9);
                                       (js "fusion_power",
                                        JNumber (float_of_nat (length lits))) ]);
                            (js "id", JString id);
                            (js "persistent", JBool true);
                            (js "value", JNumber 0) ];
                LIT.config_metadata :=
                  fusion_metadata "emergent-generative" "Creative Amplification"
                                  created lits;
                LIT.config_capabilities :=
                  Some [ {| AgentSystem.name := js "generate_emergent";
                            AgentSystem.handler := generate_emergent;
                            AgentSystem.uses := None |} ];
                LIT.config_relations := None |}))%world
      | _, _ => retW None
      end
  end.

(** The handler of [resonate] (pattern 4). *)
Definition resonate : AgentSystem.Handler :=
  fun _ =>
    (r <- Math_random ;;
     retW (AgentSystem.HReturn
             (JObject [ (js "resonance", JString (js "xenial"));
                        (js "pattern", JString (js "transcendent"));
                        (js "harmonic", JNumber (r * 0.5 + 0.5)) ])))%world.

(** [lits.map(l => ({ id: l.id, type: l.type, contribution: l.calculateValue() }))] *)
Fixpoint constituents (lits : list LIT.t) : W (list JSValue) :=
  match lits with
  | [] => retW []
  | l :: rest =>
      (v <- LIT.calculateValue h l ;;
       others <- constituents rest ;;
       retW (JObject [ (js "id", JString (LIT.id l));
                       (js "type", JString (LIT.type l));
                       (js "contribution", JNumber v) ] :: others))%world
  end.

(** Pattern 4: the fusion logic of 'Xenial Transcendence'. *)
Definition xenialTranscendence (lits : list LIT.t) : W (option LIT.Config) :=
  (total <- EmergenceMetrics.sum_values h lits 0 ;;
   let avgValue := total / float_of_nat (length lits) in
   let totalAgency :=
     fold_left (fun sum lit => sum + AgentSystem.agencyScore (LIT.agentSystem lit))
               lits 0 in
   parts <- constituents lits ;;
   id <- stamped "transcendent-" ;;
   created <- now_ISO ;;
   retW (Some
     {| LIT.config_id := None;
        LIT.config_type := Some (js "xenial-transcendence");
        LIT.config_version := None;
        LIT.config_content :=
          JObject [ (js "fusionType", JString (js "xenial-transcendence"));
                    (js "name", JString (js "Transcendent Pattern"));
                    (js "description",
                     JString (js "A higher-order coherent structure that transcends its components"));
                    (js "constituents", JArray parts);
                    (js "transcendenceLevel", JNumber (avgValue * 1.5));
                    (js "collectiveAgency", JNumber totalAgency);
                    (js "id", JString id);
                    (js "persistent", JBool true);
                    (js "value", JNumber (avgValue * 1.5));
                    (js "metadata",
                     JObject [ (js "constituentCount",
                                JNumber (float_of_nat (length lits)));
                               (js "emergence", JString (js "xenial")) ]) ];
        LIT.config_metadata :=
          fusion_metadata "transcendent" "Xenial Transcendence" created lits;
        LIT.config_capabilities :=
          Some [ {| AgentSystem.name := js "resonate";
                    AgentSystem.handler := resonate;
                    AgentSystem.uses := None |} ];
        LIT.config_relations := None |}))%world.

(** The four patterns of [initializeDefaultPatterns()], in the order of
    their registration. *)
Definition default_patterns : list FusionPattern.t :=
  [ FusionPattern.new (js "Harmonic Synthesis")
      (js "Combines related knowledge into coherent understanding")
      harmonicSynthesis;
    FusionPattern.new (js "Processual Integration")
      (js "Integrates knowledge into executable processes")
      processualIntegration;
    FusionPattern.new (js "Creative Amplification")
      (js "Combines generative patterns to create novel outputs")
      creativeAmplification;
    FusionPattern.new (js "Xenial Transcendence")
      (js "Fuses high-coherence LITs into transcendent patterns")
      xenialTranscendence ].

(** [registerPattern(pattern)] *)
Definition registerPattern (p : FusionPattern.t) (s : Sys) : Sys :=
  with_fusionPatterns s (Map_set (FusionPattern.name p) p (fusionPatterns s)).

(** [initializeDefaultPatterns()] *)
Definition initializeDefaultPatterns (s : Sys) : Sys :=
  fold_left (fun s' p => registerPattern p s') default_patterns s.

(** [constructor(litComposer)]: the engine attached to the composer of [s]. *)
Definition new (s : Sys) : Sys :=
  initializeDefaultPatterns
    (with_fusionHistory (with_fusionPatterns s []) []).

(** The names that [selectFusionPattern] asks the pattern map for. *)
Definition selectPatternName (lits : list LIT.t) : W jsstring :=
  (let types := map LIT.type lits in
   total <- EmergenceMetrics.sum_values h lits 0 ;;
   let avgValue := total / float_of_nat (length lits) in
   retW (if 0.7 <? avgValue then js "Xenial Transcendence"
         else if forallb (fun t => jsstring_eqb t (js "creative")
                                   || jsstring_eqb t (js "emergent-creative")) types
         then js "Creative Amplification"
         else if existsb (fun t => jsstring_eqb t (js "process")) types
                 && existsb (fun t => jsstring_eqb t (js "knowledge")) types
         then js "Processual Integration"
         else js "Harmonic Synthesis"))%world.

(** [selectFusionPattern(lits)] *)
Definition selectFusionPattern (patterns : list (jsstring * FusionPattern.t))
  (lits : list LIT.t) : W (option FusionPattern.t) :=
  (nm <- selectPatternName lits ;; retW (lookup nm patterns))%world.

(** [litIDs.map(id => this.litComposer.find(id)).filter(lit => lit !== undefined)] *)
Definition resolve (s : Sys) (litIDs : list jsstring) : list addr :=
  flat_map (fun id => match LITComposer.find s id with
                      | Some a => [a]
                      | None => []
                      end) litIDs.

(** [pattern.execute(lits, this)]: the use is counted on the pattern object,
    which the map holds under the pattern's own name; then the fusion logic
    runs and its configuration is composed. *)
Definition execute (p : FusionPattern.t) (lits : list LIT.t) (s : Sys)
  : Outcome (addr * LIT.t) * Sys :=
  let counted :=
    with_fusionPatterns s
      (Map_set (FusionPattern.name p) (FusionPattern.used p) (fusionPatterns s)) in
  let (config, w) := FusionPattern.fusionLogic p lits (world counted) in
  match config with
  | None => (Throw TypeError, with_world counted w)
  | Some cfg => LITComposer.compose_lit h cfg (with_world counted w)
  end.

(** [lits.forEach(sourceLIT => sourceLIT.relate(fusedLIT, 'fused-into'))] *)
Fixpoint relate_sources (lits : list addr) (fusedId : jsstring) (s : Sys) : Sys :=
  match lits with
  | [] => s
  | a :: rest =>
      relate_sources rest fusedId
        (snd (on_lit a (fun l => (l' <- LIT.relate h l fusedId (js "fused-into") ;;
                                  retW (l', tt))%world) s))
  end.

(** What follows [emergence.calculate(lits, fusedLIT)] in [fuse]. *)
Definition fuse_measured (litIDs : list jsstring) (lits : list addr)
  (p : FusionPattern.t) (fused : addr) (fusedNew : LIT.t) (metrics : EmergenceMetrics.t)
  (w2 : World) (s1 : Sys) : Outcome FuseResult * Sys :=
  let (interacted, w3) :=
    LIT.interact h fusedNew (js "fusion")
      {| LIT.impact := Some (EmergenceMetrics.emergenceScore metrics) |} w2 in
  let s3 :=
    with_heap (with_world s1 w3)
              (update_nth fused (fun _ => fst interacted) (heap s1)) in
  let s4 := relate_sources lits (LIT.id (fst interacted)) s3 in
  let (now, w5) := Date_now (world s4) in
  let fusionRecord :=
    {| record_timestamp := now;
       record_pattern := FusionPattern.name p;
       record_sourceIDs := litIDs;
       record_resultID := LIT.id (fst interacted);
       record_emergence := metrics;
       record_score := EmergenceMetrics.emergenceScore metrics |} in
  (Return {| fusedLIT := fused; emergence := metrics;
             pattern := FusionPattern.name p |},
   with_fusionHistory (with_world s4 w5) (fusionHistory s4 ++ [fusionRecord])).

(** The part of [fuse] that follows the three checks.  An error of
    [pattern.execute] leaves the use counted; an error of
    [emergence.calculate] leaves, besides, the fused LIT composed and filed
    in the registry. *)
Definition fuse_checked (litIDs : list jsstring) (lits : list addr)
  (p : FusionPattern.t) : M FuseResult :=
  fun s =>
    match execute p (derefs s lits) s with
    | (Throw e, s1) => (Throw e, s1)
    | (Return (fused, fusedNew), s1) =>
        match EmergenceMetrics.calculate h (derefs s1 lits) fusedNew (world s1) with
        | (None, w2) => (Throw TypeError, with_world s1 w2)
        | (Some metrics, w2) => fuse_measured litIDs lits p fused fusedNew metrics w2 s1
        end
    end.

(** [patternName ? this.fusionPatterns.get(patternName)
                   : this.selectFusionPattern(lits)] *)
Definition choose_pattern (patternName : option jsstring) (lits : list addr) (s : Sys)
  : option FusionPattern.t * World :=
  match patternName with
  | Some (c :: rest) => (lookup (c :: rest) (fusionPatterns s), world s)
  | _ => selectFusionPattern (fusionPatterns s) (derefs s lits) (world s)
  end.

(** [fuse(litIDs, patternName = null)] *)
Definition fuse (litIDs : list jsstring) (patternName : option jsstring)
  : M FuseResult :=
  fun s =>
    let lits := resolve s litIDs in
    if (length lits <? 2)%nat then (Throw FusionRequiresAtLeast2, s)
    else
      let (found, w) := choose_pattern patternName lits s in
      match found with
      | None => (Throw (FusionPatternNotFound patternName), with_world s w)
      | Some p =>
          if negb (FusionPattern.canFuse p (derefs s lits))
          then (Throw InsufficientCoherence, with_world s w)
          else fuse_checked litIDs lits p (with_world s w)
      end.


End WithHost.
End XenialFusionEngine.

(* ------------------------------------------------------------------------- *)
(** ** A host and a world to run examples on *)

(** The theorems below hold for every host.  The examples run on this one:
    it prints the integer part of a number, in any radix, and takes the
    first-order approximations of the logarithms and of the exponential. *)
Module Demo.

(** The integer part of a number that is not negative. *)
Definition integer_part (x : float) : N :=
  match Prim2SF x with
  | S754_finite false m e =>
      if (0 <=? e)%Z then (Npos m * 2 ^ Z.to_N e)%N
      else (Npos m / 2 ^ Z.to_N (- e))%N
  | _ => 0%N
  end.

Definition digit (d : N) : char16 := (if d <? 10 then 48 + d else 87 + d)%N.

Fixpoint digits (fuel : nat) (radix n : N) (acc : jsstring) : jsstring :=
  match fuel with
  | O => acc
  | S fuel' =>
      let acc' := digit (n mod radix) :: acc in
      if (n / radix =? 0)%N then acc' else digits fuel' radix (n / radix) acc'
  end.

Definition number_toString (radix : N) (x : float) : jsstring :=
  digits 64 radix (integer_part x) [].

Fixpoint stringify (v : JSValue) : jsstring :=
  match v with
  | JUndefined => js "undefined"
  | JNull => js "null"
  | JBool true => js "true"
  | JBool false => js "false"
  | JNumber x => if is_finite x then number_toString 10 x else js "null"
  | JString s => [quote] ++ s ++ [quote]
  | JArray items =>
      js "[" ++ join (js ",")
                     (map (fun item => match item with
                                       | JUndefined => js "null"
                                       | _ => stringify item
                                       end) items)
             ++ js "]"
  | JObject props =>
      js "{" ++ join (js ",")
                     (flat_map (fun '(k, x) =>
                                  match x with
                                  | JUndefined => []
                                  | _ => [[quote] ++ k ++ [quote] ++ js ":" ++ stringify x]
                                  end) props)
             ++ js "}"
  end.

Definition host : Host :=
  {| log_approx := fun x => x - 1;
     exp_approx := fun x => 1 + x;
     log2_approx := fun x => (x - 1) * 1.4426950408889634;
     Number_toString := number_toString;
     Date_toISOString := number_toString 10;
     JSON_stringify := stringify |}.

(** A clock that gives the listed readings, one after the other. *)
Definition world (readings : list float) : World :=
  {| clock := fun n => nth n readings 0; ticks := 0;
     random := fun _ => 0.5; draws := 0 |}.

(** Readings one millisecond apart. *)
Definition ticking : list float :=
  Eval vm_compute in
    map (fun n => of_uint63 (Uint63.of_Z (1700000000000 + Z.of_nat n))) (seq 0 128).

(** Readings within one millisecond. *)
Definition frozen : list float := repeat 1700000000000 128.

(** [{ id, type, content }] as a configuration. *)
Definition config (id type : string) (content : JSValue) : LIT.Config :=
  {| LIT.config_id := Some (js id); LIT.config_type := Some (js type);
     LIT.config_version := None; LIT.config_content := content;
     LIT.config_metadata := JUndefined; LIT.config_capabilities := None;
     LIT.config_relations := None |}.

(** The content of a knowledge LIT. *)
Definition knowledge (topic text : string) : JSValue :=
  JObject [ (js "topic", JString (js topic)); (js "knowledge", JString (js text));
            (js "id", JString (js topic)); (js "persistent", JBool true) ].

(** Two knowledge LITs in a composer, and the engine built on it. *)
Definition two_lits : Sys :=
  let s0 := LITComposer.new (world ticking) in
  let s1 := snd (LITComposer.compose host
                   (config "a" "knowledge"
                      (knowledge "xqe" "The XQE operates on coherence")) s0) in
  let s2 := snd (LITComposer.compose host
                   (config "b" "knowledge"
                      (knowledge "time" "Temporal signatures determine persistence")) s1) in
  XenialFusionEngine.new host s2.

(** A LIT with empty fields, for the branch of [built] that is never taken:
    the constructor always returns. *)
Definition blank : LIT.t :=
  {| LIT.id := []; LIT.type := []; LIT.version := []; LIT.content := JObject [];
     LIT.metadata := JObject [];
     LIT.coherenceField :=
       {| CoherenceField.content := JObject []; CoherenceField.consistency := 0;
          CoherenceField.resonance := 0; CoherenceField.entropy := 0 |};
     LIT.agentSystem := AgentSystem.new [];
     LIT.temporalSignature :=
       {| TemporalSignature.createdAt := 0; TemporalSignature.lastModified := 0;
          TemporalSignature.interactions := []; TemporalSignature.persistence := 0 |};
     LIT.relations := []; LIT.state := LIT.nascent |}.

(** [new LIT(cfg)]: the LIT, and the world after the construction. *)
Definition built (h : Host) (cfg : LIT.Config) (w : World) : LIT.t * World :=
  match LIT.new h cfg w with
  | (Return l, w') => (l, w')
  | (Throw _, w') => (blank, w')
  end.

(** [new LIT({ id: 'a', type: 'knowledge', content: {...} })], then the
    clock. *)
Definition lit_a : LIT.t * World :=
  built host (config "a" "knowledge" (knowledge "xqe" "The XQE operates on coherence"))
        (world ticking).

(** A handler in the manner of [lit-examples.js]: it starts with
    [const lit = context.lit] and reads [lit.content], which throws a
    TypeError when the context carries no LIT. *)
Definition execute_handler : AgentSystem.Handler :=
  fun context =>
    retW match get_prop context (js "lit") with
         | None => AgentSystem.HThrow (JString (js "TypeError"))
         | Some lit =>
             match get_prop lit (js "content") with
             | None => AgentSystem.HThrow (JString (js "TypeError"))
             | Some _ =>
                 AgentSystem.HReturn (JObject [(js "status", JString (js "executing"))])
             end
         end.

(** [agentSystem.defineCapability('execute', handler)] on a new agent
    system. *)
Definition agent_with_execute : AgentSystem.t :=
  AgentSystem.defineCapability host (AgentSystem.new []) (js "execute") execute_handler.

End Demo.

(* ------------------------------------------------------------------------- *)
(** ** The specification's measures *)

Definition jsstring_eq_dec (a b : jsstring) : {a = b} + {a <> b} :=
  list_eq_dec N.eq_dec a b.

(** The number of distinct words. *)
Definition distinct_count (words : list jsstring) : nat :=
  length (nodup jsstring_eq_dec words).

(** The number of values that are neither [null] nor [undefined]. *)
Definition count_defined (values : list JSValue) : nat :=
  length (filter (fun v => negb (is_nullish v)) values).

(** The five cases of the state of a LIT, on the value [v]. *)
Definition state_of_value (st : LIT.State) (v : float) : Prop :=
  In st [LIT.decaying; LIT.nascent; LIT.stable; LIT.resonant; LIT.transcendent]
  /\ ((v <? 0.2) = true -> st = LIT.decaying)
  /\ ((0.2 <=? v) = true /\ (v <? 0.4) = true -> st = LIT.nascent)
  /\ ((0.4 <=? v) = true /\ (v <? 0.6) = true -> st = LIT.stable)
  /\ ((0.6 <=? v) = true /\ (v <? 0.8) = true -> st = LIT.resonant)
  /\ ((0.8 <=? v) = true -> st = LIT.transcendent).

(** The documented range of a score. *)
Definition in_unit_interval (x : float) : bool := (0 <=? x) && (x <=? 1).

(** The constructor argument of the documentation:
    [{ capabilities: [{ name, handler }] }], the handler returning [result]. *)
Definition documented_capability (nm : jsstring) (result : JSValue)
  : AgentSystem.Capability :=
  {| AgentSystem.name := nm;
     AgentSystem.handler := fun _ => retW (AgentSystem.HReturn result);
     AgentSystem.uses := None |}.

Definition documented_config (nm : jsstring) (result : JSValue) : LIT.Config :=
  {| LIT.config_id := None; LIT.config_type := None; LIT.config_version := None;
     LIT.config_content := JUndefined; LIT.config_metadata := JUndefined;
     LIT.config_capabilities := Some [documented_capability nm result];
     LIT.config_relations := None |}.

(* ------------------------------------------------------------------------- *)
(** ** States of the system *)

(** The objects of two states are the same: the LITs, the registry, the
    patterns with their counters, and the history.  Only the clock may have
    been read. *)
Definition same_objects (s s' : Sys) : Prop :=
  heap s' = heap s /\ registry s' = registry s
  /\ fusionPatterns s' = fusionPatterns s /\ fusionHistory s' = fusionHistory s.

(** The given id resolves to a registered LIT. *)
Definition resolves (s : Sys) (id : jsstring) : bool :=
  match LITComposer.find s id with Some _ => true | None => false end.

(** The names under which [initializeDefaultPatterns] registers. *)
Definition default_names : list jsstring :=
  [js "Harmonic Synthesis"; js "Processual Integration";
   js "Creative Amplification"; js "Xenial Transcendence"].

(** A pattern name that is left out: [null], or the empty string. *)
Definition omitted (patternName : option jsstring) : Prop :=
  patternName = None \/ patternName = Some [].

(** The states that a system goes through once its engine is constructed:
    by [compose], [registerPattern], [fuse], and by whatever the methods of
    the LIT objects do to them and to the clock. *)
Inductive Reachable (h : Host) : Sys -> Prop :=
| reach_new (s0 : Sys) : Reachable h (XenialFusionEngine.new h s0)
| reach_compose (s : Sys) (config : LIT.Config) :
    Reachable h s -> Reachable h (snd (LITComposer.compose h config s))
| reach_register (s : Sys) (p : FusionPattern.t) :
    Reachable h s -> Reachable h (XenialFusionEngine.registerPattern p s)
| reach_fuse (s : Sys) (litIDs : list jsstring) (patternName : option jsstring) :
    Reachable h s -> Reachable h (snd (XenialFusionEngine.fuse h litIDs patternName s))
| reach_objects (s : Sys) (w : World) (hp : list LIT.t) :
    Reachable h s -> Reachable h (with_heap (with_world s w) hp).

(** The engine still holds a pattern under each of the default names. *)
Definition defaults_registered (s : Sys) : Prop :=
  forall n, In n default_names -> lookup n (fusionPatterns s) <> None.

(** The patterns called 'Harmonic Synthesis' are the default one: nobody
    registered another logic under that name. *)
Definition harmonic_is_default (h : Host) (s : Sys) : Prop :=
  forall k p,
    lookup k (fusionPatterns s) = Some p ->
    FusionPattern.name p = js "Harmonic Synthesis" ->
    FusionPattern.fusionLogic p = XenialFusionEngine.harmonicSynthesis h.

(** The LIT is one that the constructor built from [config] and that
    [interact('fusion', data)] then updated: its scores are those of the
    framework's formulas. *)
Definition built_then_boosted (h : Host) (config : LIT.Config) (fused : LIT.t) : Prop :=
  exists w lit w' data wi res wd,
    LIT.new h config w = (Return lit, w')
    /\ LIT.interact h lit (js "fusion") data wi = ((fused, res), wd).

(** Every registered id names an object of the heap. *)
Definition registry_wf (s : Sys) : Prop :=
  forall id a, LITComposer.find s id = Some a -> (a < length (heap s))%nat.

(* ------------------------------------------------------------------------- *)
(** ** Serialization: [toJSON] and [fromJSON] of class LIT *)

Module LITJSON.

(** The object that [toJSON()] returns. *)
Record Data : Type := {
  id : jsstring;
  type : jsstring;
  version : jsstring;
  content : JSValue;
  metadata : JSValue;
  value : float;
  coherence : float;
  agency : float;
  temporal : float;
  state : LIT.State;
  relations : list LIT.Relation;
  timestamp : float
}.

Section WithHost.
Variable h : Host.

(** [toJSON()] *)
Definition toJSON (l : LIT.t) : W Data :=
  (v <- LIT.calculateValue h l ;;
   t <- TemporalSignature.temporalValue h (LIT.temporalSignature l) ;;
   now <- Date_now ;;
   retW {| id := LIT.id l; type := LIT.type l; version := LIT.version l;
           content := LIT.content l; metadata := LIT.metadata l;
           value := v;
           coherence := CoherenceField.coherenceScore (LIT.coherenceField l);
           agency := AgentSystem.agencyScore (LIT.agentSystem l);
           temporal := t; state := LIT.state l; relations := LIT.relations l;
           timestamp := now |})%world.

(** The configuration that [fromJSON(data)] passes to the constructor. *)
Definition config_of (data : Data) : LIT.Config :=
  {| LIT.config_id := Some (id data); LIT.config_type := Some (type data);
     LIT.config_version := Some (version data);
     LIT.config_content := content data; LIT.config_metadata := metadata data;
     LIT.config_capabilities := None;
     LIT.config_relations := Some (relations data) |}.

(** [static fromJSON(data)] *)
Definition fromJSON (data : Data) : W (Outcome LIT.t) := LIT.new h (config_of data).

End WithHost.
End LITJSON.

(* ------------------------------------------------------------------------- *)
(** ** The queries of class XenialFusionEngine *)

Module FusionQueries.

(** An element of [getAvailablePatterns()]. *)
Record PatternInfo : Type := {
  name : jsstring;
  description : jsstring;
  usageCount : nat;
  threshold : float
}.

(** [getAvailablePatterns()] *)
Definition getAvailablePatterns (s : Sys) : list PatternInfo :=
  map (fun p => {| name := FusionPattern.name p;
                   description := FusionPattern.description p;
                   usageCount := FusionPattern.usageCount p;
                   threshold := FusionPattern.resonanceThreshold p |})
      (map snd (fusionPatterns s)).

(** An element of the result of [suggestFusions()]. *)
Record Suggestion : Type := {
  lits : jsstring * jsstring;
  pattern : jsstring;
  potential : float;
  types : jsstring * jsstring
}.

(** [suggestions.sort((a, b) => b.potential - a.potential)]: the sort is
    stable, and with this comparator the result is the one list that keeps
    the original order among suggestions that the comparator does not
    separate.  [insert] places a suggestion before the first one over which
    the comparator prefers it. *)
Fixpoint insert (x : Suggestion) (sorted : list Suggestion) : list Suggestion :=
  match sorted with
  | [] => [x]
  | y :: rest =>
      if 0 <? potential x - potential y then x :: y :: rest
      else y :: insert x rest
  end.

Definition sort (suggestions : list Suggestion) : list Suggestion :=
  fold_left (fun sorted x => insert x sorted) suggestions [].

Section WithHost.
Variable h : Host.

(** The inner loop of [suggestFusions()]: [lit1] against each later LIT.
    [pattern.name] throws a TypeError when no pattern was found. *)
Fixpoint suggest_with (patterns : list (jsstring * FusionPattern.t)) (lit1 : LIT.t)
  (later : list LIT.t) (suggestions : list Suggestion)
  : W (Outcome (list Suggestion)) :=
  match later with
  | [] => retW (Return suggestions)
  | lit2 :: rest =>
      let avgCoherence :=
        (CoherenceField.coherenceScore (LIT.coherenceField lit1)
         + CoherenceField.coherenceScore (LIT.coherenceField lit2)) / 2 in
      if 0.5 <? avgCoherence then
        (found <- XenialFusionEngine.selectFusionPattern h patterns [lit1; lit2] ;;
         match found with
         | None => retW (Throw TypeError)
         | Some p =>
             suggest_with patterns lit1 rest
               (suggestions ++ [{| lits := (LIT.id lit1, LIT.id lit2);
                                   pattern := FusionPattern.name p;
                                   potential := avgCoherence;
                                   types := (LIT.type lit1, LIT.type lit2) |}])
         end)%world
      else suggest_with patterns lit1 rest suggestions
  end.

(** The outer loop. *)
Fixpoint suggest_all (patterns : list (jsstring * FusionPattern.t))
  (allLITs : list LIT.t) (suggestions : list Suggestion)
  : W (Outcome (list Suggestion)) :=
  match allLITs with
  | [] => retW (Return suggestions)
  | lit1 :: later =>
      (r <- suggest_with patterns lit1 later suggestions ;;
       match r with
       | Throw e => retW (Throw e)
       | Return suggestions' => suggest_all patterns later suggestions'
       end)%world
  end.

(** [suggestFusions()] *)
Definition suggestFusions (s : Sys) : Outcome (list Suggestion) * Sys :=
  let allLITs := derefs s (LITComposer.getAllLITs s) in
  let (r, w) := suggest_all (fusionPatterns s) allLITs [] (world s) in
  (match r with
   | Throw e => Throw e
   | Return suggestions => Return (firstn 5 (sort suggestions))
   end,
   with_world s w).

End WithHost.
End FusionQueries.

(* ------------------------------------------------------------------------- *)
(** ** The methods of a LIT, called on an object of the system *)

Module Objects.
Section WithHost.
Variable h : Host.

(** [lit.interact(type, data)] *)
Definition interact (a : addr) (ty : jsstring) (data : LIT.InteractData) (s : Sys)
  : option LIT.InteractResult * Sys :=
  on_lit a (fun l => LIT.interact h l ty data) s.

(** [lit.transform(transformFn)] *)
Definition transform (a : addr) (transformFn : JSValue -> JSValue) (s : Sys)
  : option (Outcome unit) * Sys :=
  on_lit a (fun l => LIT.transform h l transformFn) s.

(** [lit.agentSystem.executeCapability(name, context)] *)
Definition executeCapability (a : addr) (nm : jsstring) (context : JSValue) (s : Sys)
  : option (Outcome JSValue) * Sys :=
  on_lit a (fun l => LIT.executeCapability h l nm context) s.

(** [lit.agentSystem.defineCapability(name, handler)] *)
Definition defineCapability (a : addr) (nm : jsstring) (hd : AgentSystem.Handler)
  (s : Sys) : Sys :=
  with_heap s (update_nth a (fun l => LIT.with_agentSystem l
                                        (AgentSystem.defineCapability h (LIT.agentSystem l) nm hd))
                          (heap s)).

End WithHost.
End Objects.

(** One call of the public interface on a system.  The arrays and objects
    of a configuration are values: the caller does not hand the same
    [relations] array to two LITs, nor change it afterwards; and a handler
    acts on its context and on the clock only. *)
Inductive Step (h : Host) : Sys -> Sys -> Prop :=
| step_compose (s : Sys) (config : LIT.Config) :
    Step h s (snd (LITComposer.compose h config s))
| step_network (s : Sys) (lits : list addr) (relationType : jsstring) :
    Step h s (LITComposer.network h lits relationType s)
| step_measure (s : Sys) :
    Step h s (snd (LITComposer.measureNetworkCoherence h s))
| step_engine (s : Sys) :
    Step h s (XenialFusionEngine.new h s)
| step_register (s : Sys) (p : FusionPattern.t) :
    Step h s (XenialFusionEngine.registerPattern p s)
| step_fuse (s : Sys) (litIDs : list jsstring) (patternName : option jsstring) :
    Step h s (snd (XenialFusionEngine.fuse h litIDs patternName s))
| step_suggest (s : Sys) :
    Step h s (snd (FusionQueries.suggestFusions h s))
| step_interact (s : Sys) (a : addr) (ty : jsstring) (data : LIT.InteractData) :
    Step h s (snd (Objects.interact h a ty data s))
| step_transform (s : Sys) (a : addr) (transformFn : JSValue -> JSValue) :
    Step h s (snd (Objects.transform h a transformFn s))
| step_relate (s : Sys) (a b : addr) (relationType : jsstring) :
    Step h s (LITComposer.relate_at h a b relationType s)
| step_execute (s : Sys) (a : addr) (nm : jsstring) (context : JSValue) :
    Step h s (snd (Objects.executeCapability h a nm context s))
| step_define (s : Sys) (a : addr) (nm : jsstring) (hd : AgentSystem.Handler) :
    Step h s (Objects.defineCapability h a nm hd s).

(** The states of a run: a new composer, then calls of the interface. *)
Inductive Runs (h : Host) : Sys -> Prop :=
| runs_new (w : World) : Runs h (LITComposer.new w)
| runs_step (s s' : Sys) : Runs h s -> Step h s s' -> Runs h s'.

(** The registry is keyed by the ids of its LITs: [find(id).id === id]. *)
Definition registry_keyed_by_id (s : Sys) : Prop :=
  forall id a,
    LITComposer.find s id = Some a ->
    exists l, deref s a = Some l /\ LIT.id l = id.

(** The pattern map is keyed by the names of its patterns. *)
Definition patterns_keyed_by_name (s : Sys) : Prop :=
  forall k p, lookup k (fusionPatterns s) = Some p -> FusionPattern.name p = k.

(** The relation that [relate(other, type)] adds, whatever its time. *)
Definition is_relation (target ty : jsstring) (r : LIT.Relation) : Prop :=
  LIT.targetId r = target /\ LIT.relationType r = ty /\ LIT.establishedAt r <> None.

(** The ids of the objects, by address. *)
Definition ids (s : Sys) : list jsstring := map LIT.id (heap s).

(** What one call of the interface leaves of the objects and the registry:
    all as it was, but for what the methods do inside the objects; or one
    new object, filed under its id. *)
Definition kept (s s' : Sys) : Prop :=
  registry s' = registry s /\ ids s' = ids s.

Definition grown (s s' : Sys) : Prop :=
  exists k,
    registry s' = Map_set k (length (heap s)) (registry s) /\ ids s' = ids s ++ [k].

(** The keys of the registry are distinct, and each is the id of the object
    that it leads to. *)
Definition registry_filed (s : Sys) : Prop :=
  NoDup (map fst (registry s))
  /\ forall id a, LITComposer.find s id = Some a -> nth_error (ids s) a = Some id.

(** The suggestion is made of two of the LITs: their ids and types, half
    the sum of their coherence scores, which is above [0.5], and the name of
    a pattern that the map holds under one of the default names. *)
Definition suggestion_of (patterns : list (jsstring * FusionPattern.t))
  (all : list LIT.t) (x : FusionQueries.Suggestion) : Prop :=
  exists l1 l2 k p,
    In l1 all /\ In l2 all
    /\ In k default_names /\ lookup k patterns = Some p
    /\ FusionQueries.lits x = (LIT.id l1, LIT.id l2)
    /\ FusionQueries.types x = (LIT.type l1, LIT.type l2)
    /\ FusionQueries.pattern x = FusionPattern.name p
    /\ FusionQueries.potential x
       = (CoherenceField.coherenceScore (LIT.coherenceField l1)
          + CoherenceField.coherenceScore (LIT.coherenceField l2)) / 2
    /\ (0.5 <? FusionQueries.potential x) = true.

(** The entry of [getAvailablePatterns()] for a pattern. *)
Definition info_of (p : FusionPattern.t) : FusionQueries.PatternInfo :=
  {| FusionQueries.name := FusionPattern.name p;
     FusionQueries.description := FusionPattern.description p;
     FusionQueries.usageCount := FusionPattern.usageCount p;
     FusionQueries.threshold := FusionPattern.resonanceThreshold p |}.

(* ------------------------------------------------------------------------- *)
(** ** The properties in the words of the documentation *)

(** The property [k] of an object with the listed properties. *)
Definition property (props : list (jsstring * JSValue)) (k : jsstring) : JSValue :=
  match lookup k props with
  | Some v => v
  | None => JUndefined
  end.

(** [content.k1], or else [content.k2], or else the string [fallback]: the
    first of the three that is not falsy.  A content that is not an object
    has neither property. *)
Definition first_of (k1 k2 : jsstring) (fallback : jsstring) (content : JSValue)
  : JSValue :=
  match content with
  | JObject props =>
      if truthy (property props k1) then property props k1
      else if truthy (property props k2) then property props k2
      else JString fallback
  | _ => JString fallback
  end.

(** What the claim takes of a source LIT: its [knowledge], or else its
    [description], or else ['']. *)
Definition claimed_knowledge (lit : LIT.t) : JSValue :=
  first_of (js "knowledge") (js "description") [] (LIT.content lit).

(** The texts, with [' ⊕ '] (a space, U+2295, a space) between each two. *)
Definition circled_plus_joined (texts : list jsstring) : jsstring :=
  match texts with
  | [] => []
  | first :: others => first ++ flat_map (fun text => [32; 8853; 32]%N ++ text) others
  end.

(** A value that cannot be made a string: an object with a property
    [toString] of its own, or an array that holds such a value. *)
Fixpoint unprintable (v : JSValue) : bool :=
  match v with
  | JObject props => existsb (fun kv => jsstring_eqb (fst kv) (js "toString")) props
  | JArray items => existsb unprintable items
  | _ => false
  end.

(** The words of a string: a word has no white space; between two words
    there is a run of white space, as long as it can be. *)
Definition word (p : jsstring) : Prop := Forall (fun c => is_whitespace c = false) p.

Definition whitespace_run (gap : jsstring) : Prop :=
  gap <> [] /\ Forall (fun c => is_whitespace c = true) gap.

Definition starts_word (s : jsstring) : Prop :=
  match s with
  | c :: _ => is_whitespace c = false
  | [] => True
  end.

Inductive words_of : jsstring -> list jsstring -> Prop :=
| words_last (p : jsstring) : word p -> words_of p [p]
| words_more (p gap rest : jsstring) (words : list jsstring) :
    word p -> whitespace_run gap -> starts_word rest -> words_of rest words ->
    words_of (p ++ gap ++ rest) (p :: words).

(** 'Processual Integration' in the words of its comments: a LIT counts as
    a process by its type or by having steps, and as knowledge by its type
    or by having knowledge. *)
Definition content_property (lit : LIT.t) (k : jsstring) : JSValue :=
  match LIT.content lit with
  | JObject props => property props k
  | _ => JUndefined
  end.

Definition counts_as_process (lit : LIT.t) : bool :=
  jsstring_eqb (LIT.type lit) (js "process")
  || truthy (content_property lit (js "steps")).

Definition counts_as_knowledge (lit : LIT.t) : bool :=
  jsstring_eqb (LIT.type lit) (js "knowledge")
  || truthy (content_property lit (js "knowledge")).

Definition default_steps : list JSValue :=
  [JString (js "Integrate"); JString (js "Process"); JString (js "Transform")].

(** The topic that a knowledge LIT gives to a step, or ['context'] when
    there is no such LIT or its topic is falsy. *)
Definition topic_or_context (lit : option LIT.t) : JSValue :=
  match lit with
  | Some k =>
      if truthy (content_property k (js "topic")) then content_property k (js "topic")
      else JString (js "context")
  | None => JString (js "context")
  end.

(** The steps that the fused process starts from: those of the first LIT
    that counts as a process, the code points of a string taken one by one,
    or the three default steps when there is no such LIT or it has no
    steps. *)
Definition claimed_steps (first : option LIT.t) : list JSValue :=
  match first with
  | None => default_steps
  | Some process =>
      match content_property process (js "steps") with
      | JArray items => items
      | JString (c :: s) => map JString (code_points (c :: s))
      | _ => default_steps
      end
  end.

(** A workflow of three steps, and the list of it and two knowledge LITs. *)
Definition workflow : JSValue :=
  JObject [ (js "name", JString (js "Release"));
            (js "steps", JArray [JString (js "Gather"); JString (js "Publish");
                                 JString (js "Review")]);
            (js "id", JString (js "p")); (js "persistent", JBool true) ].

Definition workflow_and_knowledge : list LIT.t :=
  [ fst (Demo.built Demo.host (Demo.config "p" "workflow" workflow)
                    (Demo.world Demo.ticking));
    fst (Demo.built Demo.host
           (Demo.config "a" "knowledge"
              (Demo.knowledge "xqe" "The XQE operates on coherence"))
           (Demo.world Demo.ticking));
    fst (Demo.built Demo.host
           (Demo.config "b" "knowledge"
              (Demo.knowledge "time" "Temporal signatures determine persistence"))
           (Demo.world Demo.ticking)) ].

(** A pattern of the caller's, under the name of a default pattern. *)
Definition mine : FusionPattern.t :=
  FusionPattern.new (js "Harmonic Synthesis") (js "mine") (fun _ => retW None).

(** A content with a description and no knowledge, and one with neither. *)
Definition described (text : string) : JSValue :=
  JObject [ (js "description", JString (js text)); (js "id", JString (js "d"));
            (js "persistent", JBool true) ].

Definition bare : JSValue :=
  JObject [ (js "topic", JString (js "bare")); (js "id", JString (js "n"));
            (js "persistent", JBool true) ].

(** Three LITs in a composer: one with knowledge, one with a description
    only, one with neither; and the engine built on it. *)
Definition three_lits : Sys :=
  let s0 := LITComposer.new (Demo.world Demo.ticking) in
  let s1 := snd (LITComposer.compose Demo.host
                   (Demo.config "a" "knowledge"
                      (Demo.knowledge "xqe" "The XQE operates on coherence")) s0) in
  let s2 := snd (LITComposer.compose Demo.host
                   (Demo.config "d" "note" (described "Notes on time")) s1) in
  let s3 := snd (LITComposer.compose Demo.host (Demo.config "n" "note" bare) s2) in
  XenialFusionEngine.new Demo.host s3.

(** The system of the demonstration after [a.transform(() => undefined)]:
    the call throws, and leaves the LIT 'a' without a content. *)
Definition two_lits_a_undefined : Sys :=
  snd (Objects.transform Demo.host 0%nat (fun _ => JUndefined) Demo.two_lits).

(* ========================================================================= *)
(** * Properties *)

(* ------------------------------------------------------------------------- *)
(** ** Strings and maps *)

Lemma jsstring_eqb_eq (a b : jsstring) : jsstring_eqb a b = true <-> a = b.
Proof.
  revert b; induction a as [|x a IH]; intros [|y b]; simpl; split;
    try congruence; try reflexivity.
  - rewrite andb_true_iff, N.eqb_eq, IH. intros [-> ->]. reflexivity.
  - intros E. injection E as -> ->. rewrite N.eqb_refl. simpl. now apply IH.
Qed.

Lemma jsstring_eqb_refl (a : jsstring) : jsstring_eqb a a = true.
Proof. now apply jsstring_eqb_eq. Qed.

Lemma jsstring_eqb_neq (a b : jsstring) : jsstring_eqb a b = false <-> a <> b.
Proof.
  rewrite <- jsstring_eqb_eq. destruct (jsstring_eqb a b); split; congruence.
Qed.

Lemma lookup_Map_set_same {A} (k : jsstring) (v : A) m :
  lookup k (Map_set k v m) = Some v.
Proof.
  induction m as [|[k' v'] m IH]; simpl.
  - now rewrite jsstring_eqb_refl.
  - destruct (jsstring_eqb k k') eqn:E; simpl; rewrite E; auto.
Qed.

Lemma lookup_Map_set_other {A} (k k0 : jsstring) (v : A) m :
  k0 <> k -> lookup k0 (Map_set k v m) = lookup k0 m.
Proof.
  intros N. induction m as [|[k' v'] m IH]; simpl.
  - apply jsstring_eqb_neq in N. now rewrite N.
  - destruct (jsstring_eqb k k') eqn:E; simpl.
    + apply jsstring_eqb_eq in E. subst k'.
      apply jsstring_eqb_neq in N. now rewrite N.
    + now rewrite IH.
Qed.

Lemma lookup_Map_set_defined {A} (k k0 : jsstring) (v : A) m :
  lookup k0 m <> None -> lookup k0 (Map_set k v m) <> None.
Proof.
  intros D. destruct (jsstring_eq_dec k0 k) as [->|N].
  - now rewrite lookup_Map_set_same.
  - now rewrite lookup_Map_set_other.
Qed.

Lemma lookup_In {A} (k : jsstring) (v : A) m :
  lookup k m = Some v -> In v (map snd m).
Proof.
  induction m as [|[k' v'] m IH]; simpl; [discriminate|].
  destruct (jsstring_eqb k k'); [intros [= ->]; now left | intros L; right; auto].
Qed.

Lemma existsb_eqb_In (x : jsstring) (l : list jsstring) :
  existsb (jsstring_eqb x) l = true <-> In x l.
Proof.
  rewrite existsb_exists. split.
  - intros (y & Hy & E). apply jsstring_eqb_eq in E. now subst.
  - intros H. exists x. split; [assumption | apply jsstring_eqb_refl].
Qed.

(** [new Set(items)] keeps each distinct element once. *)
Lemma Set_add_spec (seen : list jsstring) (x y : jsstring) :
  In y (Set_add seen x) <-> In y seen \/ y = x.
Proof.
  unfold Set_add. destruct (existsb (jsstring_eqb x) seen) eqn:E.
  - apply existsb_eqb_In in E. split; [tauto | intros [H | ->]; assumption].
  - rewrite in_app_iff. simpl. intuition congruence.
Qed.

Lemma Set_add_NoDup (seen : list jsstring) (x : jsstring) :
  NoDup seen -> NoDup (Set_add seen x).
Proof.
  intros ND. unfold Set_add. destruct (existsb (jsstring_eqb x) seen) eqn:E; [assumption|].
  assert (~ In x seen) as NI.
  { intros H. apply existsb_eqb_In in H. congruence. }
  clear E. induction ND as [|y l Hy ND IH]; simpl.
  - constructor; [intros [] | constructor].
  - constructor.
    + rewrite in_app_iff. simpl. intros [H | [H | []]]; [tauto | subst; apply NI; now left].
    + apply IH. intros H. apply NI. now right.
Qed.

Lemma fold_Set_add_spec (items seen : list jsstring) :
  NoDup seen ->
  NoDup (fold_left Set_add items seen)
  /\ forall y, In y (fold_left Set_add items seen) <-> In y seen \/ In y items.
Proof.
  revert seen. induction items as [|x items IH]; intros seen ND; simpl.
  - split; [assumption | tauto].
  - destruct (IH (Set_add seen x) (Set_add_NoDup seen x ND)) as [ND' Hin].
    split; [assumption|]. intros y. rewrite Hin, Set_add_spec. intuition congruence.
Qed.

(** The size of [new Set(items)] is the number of distinct items. *)
Lemma Set_of_size (items : list jsstring) :
  length (Set_of items) = length (nodup jsstring_eq_dec items).
Proof.
  destruct (fold_Set_add_spec items [] (NoDup_nil _)) as [ND Hin].
  fold (Set_of items) in ND, Hin.
  apply Nat.le_antisymm; apply NoDup_incl_length;
    try assumption; try apply NoDup_nodup; intros y Hy.
  - apply nodup_In. apply Hin in Hy. simpl in Hy. tauto.
  - apply Hin. right. now apply nodup_In in Hy.
Qed.

(** The pieces of [split(/\s+/)]: there is at least one, and none holds a
    white space character. *)
Lemma split_ws_from_pieces (s cur : jsstring) (in_sep : bool) :
  Forall (fun c => is_whitespace c = false) cur ->
  (1 <= length (split_ws_from cur in_sep s))%nat
  /\ Forall (Forall (fun c => is_whitespace c = false)) (split_ws_from cur in_sep s).
Proof.
  revert cur in_sep. induction s as [|c s IH]; intros cur in_sep Hcur; simpl.
  - split; [lia|]. constructor; [|constructor]. now apply Forall_rev.
  - destruct (is_whitespace c) eqn:Ec.
    + destruct in_sep.
      * now apply IH.
      * destruct (IH [] true (Forall_nil _)) as [_ F]. split; [simpl; lia|].
        constructor; [now apply Forall_rev | assumption].
    + apply IH. now constructor.
Qed.

Example split_ws_runs :
  split_ws (js " a  b ") = [[]; js "a"; js "b"; []] /\ split_ws [] = [[]]
  /\ split_ws (js "the cat the hat") = [js "the"; js "cat"; js "the"; js "hat"].
Proof. repeat split. Qed.

Example Set_of_words :
  Set_of (split_ws (js "the cat the hat")) = [js "the"; js "cat"; js "hat"].
Proof. reflexivity. Qed.

Example code_points_pair :
  code_points [97; 55357; 56832; 98]%N = [[97]; [55357; 56832]; [98]]%N.
Proof. reflexivity. Qed.

Example Object_values_order :
  CoherenceField.Object_values
    (fold_left (fun freq ch => CoherenceField.count_char ch freq)
               (code_points (js "b1a0b")) [])
  = [1; 1; 2; 1]%nat.
Proof. reflexivity. Qed.

(* ------------------------------------------------------------------------- *)
(** ** The order of binary64 numbers *)

Example Math_special_values (h : Host) :
  Math_log h 1 = 0 /\ Math_log h 0 = neg_infinity /\ Math_log h nan = nan
  /\ Math_exp h (- 0) = 1 /\ 1 / 0 = infinity /\ 0 * infinity = nan
  /\ Math_min 1 nan = nan /\ (nan <? 0.2) = false.
Proof. repeat split. Qed.

Lemma SFcompare_antisym (x y : spec_float) :
  SFcompare y x = option_map CompOpp (SFcompare x y).
Proof.
  destruct x as [sx|sx| |sx mx ex], y as [sy|sy| |sy my ey]; simpl;
    try reflexivity; try (destruct sx; reflexivity); try (destruct sy; reflexivity);
    try (destruct sx, sy; reflexivity).
  destruct sx, sy; simpl; try reflexivity;
    rewrite (Z.compare_antisym ex ey); destruct (ex ?= ey)%Z; simpl; try reflexivity;
    fold (Pos.compare my mx); fold (Pos.compare mx my);
    rewrite (Pos.compare_antisym mx my); destruct (mx ?= my)%positive; reflexivity.
Qed.

Lemma SFcompare_Lt_trans (x y z : spec_float) :
  SFcompare x y = Some Lt -> SFcompare y z = Some Lt -> SFcompare x z = Some Lt.
Proof.
  destruct x as [sx|sx| |sx mx ex], y as [sy|sy| |sy my ey], z as [sz|sz| |sz mz ez];
    simpl; try discriminate;
    try (destruct sx; discriminate); try (destruct sy; discriminate);
    try (destruct sz; discriminate);
    try (destruct sx, sy; discriminate); try (destruct sy, sz; discriminate);
    try (destruct sx, sy, sz; simpl; congruence).
  fold (Pos.compare mx my); fold (Pos.compare my mz); fold (Pos.compare mx mz).
  destruct sx, sy, sz; simpl; try congruence;
    destruct (Z.compare_spec ex ey), (Z.compare_spec ey ez), (Z.compare_spec ex ez);
    try discriminate; try lia; try reflexivity; subst;
    destruct (Pos.compare_spec mx my), (Pos.compare_spec my mz),
             (Pos.compare_spec mx mz);
    simpl; try discriminate; try lia; try reflexivity.
Qed.

Lemma Prim2SF_nan (x : float) : Prim2SF x = S754_nan <-> is_nan x = true.
Proof.
  unfold Prim2SF. destruct (is_nan x); [tauto|].
  split; [|discriminate]. destruct (is_zero x); [discriminate|].
  destruct (is_infinity x); [discriminate|].
  destruct (Z.frexp x) as [r e]. destruct (shr_fexp _ _ _ _ _) as [shr e'].
  destruct (shr_m shr); discriminate.
Qed.

(** [c <= v] rules out [v < c]. *)
Lemma leb_not_ltb (c v : float) : (c <=? v) = true -> (v <? c) = false.
Proof.
  rewrite leb_spec, ltb_spec. unfold SFleb, SFltb.
  rewrite (SFcompare_antisym (Prim2SF c) (Prim2SF v)).
  destruct (SFcompare (Prim2SF c) (Prim2SF v)) as [[]|]; simpl; congruence.
Qed.

(** [a < b <= v] rules out [v < a]. *)
Lemma leb_not_ltb_below (a b v : float) :
  (a <? b) = true -> (b <=? v) = true -> (v <? a) = false.
Proof.
  intros Hab Hbv. destruct (v <? a) eqn:Hva; [|reflexivity].
  assert ((v <? b) = true) as Hvb.
  { rewrite ltb_spec in *. unfold SFltb in *.
    destruct (SFcompare (Prim2SF v) (Prim2SF a)) as [[]|] eqn:E1; try discriminate.
    destruct (SFcompare (Prim2SF a) (Prim2SF b)) as [[]|] eqn:E2; try discriminate.
    now rewrite (SFcompare_Lt_trans _ _ _ E1 E2). }
  rewrite (leb_not_ltb _ _ Hbv) in Hvb. discriminate.
Qed.

(** A number that is not below [c] is at least [c], or is NaN. *)
Lemma not_ltb_leb (c v : float) :
  (v <? c) = false -> (c <=? v) = true \/ is_nan v = true \/ is_nan c = true.
Proof.
  rewrite leb_spec, ltb_spec. unfold SFleb, SFltb.
  rewrite (SFcompare_antisym (Prim2SF v) (Prim2SF c)).
  destruct (SFcompare (Prim2SF v) (Prim2SF c)) as [[]|] eqn:E; simpl;
    try discriminate; try (left; reflexivity).
  intros _. right.
  destruct (Prim2SF v) eqn:Ev, (Prim2SF c) eqn:Ec; simpl in E;
    try discriminate;
    try (left; now apply Prim2SF_nan); try (right; now apply Prim2SF_nan).
Qed.

Lemma ltb_not_nan (v c : float) : (v <? c) = true -> is_nan v = false.
Proof.
  rewrite ltb_spec. unfold SFltb. intros H.
  destruct (is_nan v) eqn:E; [|reflexivity].
  apply Prim2SF_nan in E. rewrite E in H. discriminate.
Qed.

(* ------------------------------------------------------------------------- *)
(** ** CoherenceField *)

Lemma lookup_unique {A} (k : jsstring) (v : A) (m : list (jsstring * A)) :
  NoDup (map fst m) -> In (k, v) m -> lookup k m = Some v.
Proof.
  induction m as [|[k' v'] m IH]; simpl; [tauto|].
  intros ND [E | H].
  - injection E as -> ->. now rewrite jsstring_eqb_refl.
  - inversion ND as [|? ? NI ND']; subst.
    destruct (jsstring_eqb k k') eqn:E.
    + apply jsstring_eqb_eq in E. subst k'. exfalso. apply NI.
      change k with (fst (k, v)). now apply in_map.
    + now apply IH.
Qed.

Lemma defined_keys_count (props all : list (jsstring * JSValue)) :
  NoDup (map fst all) -> incl props all ->
  length (filter (fun k => match lookup k all with
                           | Some v => negb (is_nullish v)
                           | None => false
                           end) (map fst props))
  = count_defined (map snd props).
Proof.
  intros ND. unfold count_defined.
  induction props as [|[k v] props IH]; intros Hincl; simpl; [reflexivity|].
  rewrite (lookup_unique k v all ND) by (apply Hincl; now left).
  assert (incl props all) as Hincl' by (intros x Hx; apply Hincl; now right).
  destruct (negb (is_nullish v)); simpl; now rewrite IH.
Qed.

(** Splitting reads a word to its end. *)
Lemma split_ws_from_word (p cur rest : jsstring) :
  word p ->
  split_ws_from cur false (p ++ rest) = split_ws_from (rev p ++ cur) false rest.
Proof.
  revert cur. induction p as [|c p IH]; intros cur Hp; [reflexivity|].
  inversion Hp as [|? ? Hc Hp']; subst. simpl. rewrite Hc, (IH _ Hp').
  now rewrite <- app_assoc.
Qed.

(** Splitting skips the white space that follows a first one. *)
Lemma split_ws_from_gap (gap cur rest : jsstring) :
  Forall (fun c => is_whitespace c = true) gap ->
  split_ws_from cur true (gap ++ rest) = split_ws_from cur true rest.
Proof.
  induction 1 as [|c gap Hc _ IH]; [reflexivity|]. simpl. now rewrite Hc.
Qed.

Lemma split_ws_from_starts_word (rest : jsstring) :
  starts_word rest -> split_ws_from [] true rest = split_ws_from [] false rest.
Proof. destruct rest as [|c rest]; [reflexivity|]. simpl. now intros ->. Qed.

(** The pieces that [split(/\s+/)] gives are the words of the string. *)
Lemma words_of_split_ws (s : jsstring) (words : list jsstring) :
  words_of s words -> split_ws s = words.
Proof.
  unfold split_ws. induction 1 as [p Hp | p gap rest words Hp Hrun Hrest Hw IH].
  - rewrite <- (app_nil_r p) at 1. rewrite (split_ws_from_word _ _ _ Hp). simpl.
    now rewrite app_nil_r, rev_involutive.
  - rewrite (split_ws_from_word _ _ _ Hp), app_nil_r.
    destruct Hrun as [Hne Hgap]. destruct gap as [|c gap]; [now destruct Hne|].
    pose proof (Forall_inv Hgap) as Hc. apply Forall_inv_tail in Hgap.
    simpl in Hc |- *. rewrite Hc, rev_involutive.
    now rewrite (split_ws_from_gap _ _ _ Hgap), (split_ws_from_starts_word _ Hrest), IH.
Qed.

(** Every string starts with a word, as long as it can be. *)
Lemma leading_word (s : jsstring) :
  exists p r,
    s = p ++ r /\ word p
    /\ match r with [] => True | c :: _ => is_whitespace c = true end.
Proof.
  induction s as [|c s (p & r & -> & Hp & Hr)].
  - exists [], []. repeat split. constructor.
  - destruct (is_whitespace c) eqn:Hc.
    + exists [], (c :: p ++ r). repeat split; [constructor | exact Hc].
    + exists (c :: p), r. repeat split; [now constructor | exact Hr].
Qed.

(** ... and every string starts with a run of white space, as long as it
    can be. *)
Lemma leading_gap (s : jsstring) :
  exists gap rest,
    s = gap ++ rest /\ Forall (fun c => is_whitespace c = true) gap /\ starts_word rest.
Proof.
  induction s as [|c s (gap & rest & -> & Hgap & Hrest)].
  - exists [], []. repeat split. constructor.
  - destruct (is_whitespace c) eqn:Hc.
    + exists (c :: gap), rest. repeat split; [now constructor | exact Hrest].
    + exists [], (c :: gap ++ rest). repeat split; [constructor | exact Hc].
Qed.

(** Every string has its words. *)
Lemma words_of_exists (s : jsstring) : exists words, words_of s words.
Proof.
  remember (length s) as n eqn:Hn. revert s Hn.
  induction n as [n IH] using lt_wf_ind. intros s ->.
  destruct (leading_word s) as (p & r & -> & Hp & Hr).
  destruct r as [|c r].
  - exists [p]. rewrite app_nil_r. now constructor.
  - destruct (leading_gap r) as (gap & rest & -> & Hgap & Hrest).
    destruct (IH (length rest)) with (s := rest) as (words & Hw); [|reflexivity|].
    + rewrite !length_app. simpl. rewrite length_app. lia.
    + exists (p :: words).
      change (words_of (p ++ (c :: gap) ++ rest) (p :: words)).
      constructor; [exact Hp | | exact Hrest | exact Hw].
      split; [discriminate | now constructor].
Qed.

Lemma words_of_words (s : jsstring) (words : list jsstring) :
  words_of s words -> (1 <= length words)%nat /\ Forall word words.
Proof.
  induction 1 as [p Hp | p gap rest words Hp Hrun Hrest Hw IH]; simpl.
  - split; [lia | now repeat constructor].
  - split; [lia | constructor; [exact Hp | apply IH]].
Qed.

(** C7.  On a string, [measureConsistency] is [min(1, u / w)] with [w] the
    number of words of the string and [u] the number of distinct ones.  The
    words are what lies between the runs of white space: no word holds
    white space, each run, taken as long as it can be, separates two words,
    and a run at an end of the string leaves an empty word there.  Every
    string has its words, at least one.  On an object (keys are unique) and
    on an array the measure is the number of values that are neither [null]
    nor [undefined], divided by [max(1, number of keys)]. *)
Theorem measureConsistency_ratio :
  (forall (s : jsstring) (words : list jsstring),
      words_of s words ->
      CoherenceField.measureConsistency (JString s)
      = Math_min 1 (float_of_nat (distinct_count words) / float_of_nat (length words))
      /\ (1 <= length words)%nat
      /\ Forall word words)
  /\ (forall s : jsstring, exists words, words_of s words)
  /\ (forall props : list (jsstring * JSValue),
         NoDup (map fst props) ->
         CoherenceField.measureConsistency (JObject props)
         = float_of_nat (count_defined (map snd props))
           / Math_max 1 (float_of_nat (length props)))
  /\ (forall items : list JSValue,
         CoherenceField.measureConsistency (JArray items)
         = float_of_nat (count_defined items)
           / Math_max 1 (float_of_nat (length items))).
Proof.
  split; [|split; [|split]].
  - intros s words Hw. split; [|now apply words_of_words with (s := s)].
    apply words_of_split_ws in Hw. subst words.
    simpl. unfold distinct_count. now rewrite Set_of_size.
  - exact words_of_exists.
  - intros props ND. simpl.
    rewrite (defined_keys_count props props ND (incl_refl _)).
    now rewrite length_map.
  - intros items. reflexivity.
Qed.

(** 'the cat the hat': three distinct words of four.  An object with a
    defined and an undefined value: one key of two. *)
Lemma measureConsistency_ratio_witness :
  words_of (js "the cat the hat") [js "the"; js "cat"; js "the"; js "hat"]
  /\ CoherenceField.measureConsistency (JString (js "the cat the hat")) = 0.75
  /\ NoDup (map fst [(js "topic", JString (js "xqe")); (js "knowledge", JUndefined)])
  /\ CoherenceField.measureConsistency
       (JObject [(js "topic", JString (js "xqe")); (js "knowledge", JUndefined)])
     = 0.5.
Proof.
  assert (forall p, In p [js "the"; js "cat"; js "hat"] -> word p) as Hword.
  { intros p [<- | [<- | [<- | []]]]; now repeat constructor. }
  assert (whitespace_run (js " ")) as Hgap.
  { split; [discriminate | now repeat constructor]. }
  assert (words_of (js "the cat the hat") [js "the"; js "cat"; js "the"; js "hat"]) as Hw.
  { apply (words_more (js "the") (js " ") (js "cat the hat"));
      [apply Hword; simpl; tauto | exact Hgap | reflexivity |].
    apply (words_more (js "cat") (js " ") (js "the hat"));
      [apply Hword; simpl; tauto | exact Hgap | reflexivity |].
    apply (words_more (js "the") (js " ") (js "hat"));
      [apply Hword; simpl; tauto | exact Hgap | reflexivity |].
    apply words_last. apply Hword; simpl; tauto. }
  assert (NoDup (map fst [(js "topic", JString (js "xqe")); (js "knowledge", JUndefined)]))
    as ND.
  { constructor; [|constructor; [intros [] | constructor]].
    intros [E | []]. discriminate E. }
  split; [exact Hw|]. split.
  - rewrite (proj1 (proj1 measureConsistency_ratio _ _ Hw)). reflexivity.
  - split; [exact ND|].
    rewrite (proj1 (proj2 (proj2 measureConsistency_ratio)) _ ND). reflexivity.
Defined.

(* ------------------------------------------------------------------------- *)
(** ** LIT *)

(** A falsy content is replaced by [{}]: the content of a new LIT is never
    [null] or [undefined]. *)
Lemma or_value_not_nullish (v : JSValue) : is_nullish (or_value v (JObject [])) = false.
Proof.
  unfold or_value. destruct v as [| |b|x|s|items|props]; simpl; try reflexivity.
  - now destruct b.
  - now destruct (truthy_number x).
  - now destruct (length s).
Qed.

Lemma measureResonance_defined (c : JSValue) :
  is_nullish c = false -> exists r, CoherenceField.measureResonance c = Some r.
Proof.
  destruct c; try discriminate; intros _; unfold CoherenceField.measureResonance;
    simpl; eexists; reflexivity.
Qed.

Lemma CoherenceField_new_returns (h : Host) (c : JSValue) :
  is_nullish c = false -> exists cf, CoherenceField.new h c = Return cf.
Proof.
  intros H. destruct (measureResonance_defined c H) as [r Hr].
  unfold CoherenceField.new. rewrite Hr. eexists. reflexivity.
Qed.

(** The constructor of a LIT always returns, and its last step is
    [updateState()]. *)
Lemma LIT_new_returns (h : Host) (config : LIT.Config) (w : World) :
  exists l0 w0 l w',
    LIT.new h config w = (Return l, w') /\ LIT.updateState h l0 w0 = (l, w').
Proof.
  unfold LIT.new, bindW.
  destruct (match LIT.config_id config with
            | Some (c :: rest) => retW (c :: rest)
            | _ => LIT.generateId h
            end w) as [id w1].
  destruct (CoherenceField_new_returns h _ (or_value_not_nullish (LIT.config_content config)))
    as [cf ->].
  destruct TemporalSignature.new as [ts w2].
  match goal with
  | |- context [LIT.updateState h ?l0 w2] =>
      destruct (LIT.updateState h l0 w2) as [l w'] eqn:E; exists l0, w2, l, w'
  end.
  split; [reflexivity | exact E].
Qed.

Lemma classify_state_of_value (v : float) : state_of_value (LIT.classify v) v.
Proof.
  unfold state_of_value, LIT.classify. split.
  { destruct (v <? 0.2), (v <? 0.4), (v <? 0.6), (v <? 0.8); simpl; tauto. }
  assert ((0.2 <? 0.4) = true /\ (0.2 <? 0.6) = true /\ (0.2 <? 0.8) = true
          /\ (0.4 <? 0.6) = true /\ (0.4 <? 0.8) = true /\ (0.6 <? 0.8) = true)
    as (L24 & L26 & L28 & L46 & L48 & L68) by (repeat split; reflexivity).
  repeat split.
  - intros ->. reflexivity.
  - intros [H2 ->]. now rewrite (leb_not_ltb _ _ H2).
  - intros [H4 ->].
    now rewrite (leb_not_ltb _ _ H4), (leb_not_ltb_below 0.2 0.4 v L24 H4).
  - intros [H6 ->].
    now rewrite (leb_not_ltb _ _ H6), (leb_not_ltb_below 0.2 0.6 v L26 H6),
      (leb_not_ltb_below 0.4 0.6 v L46 H6).
  - intros H8.
    now rewrite (leb_not_ltb _ _ H8), (leb_not_ltb_below 0.2 0.8 v L28 H8),
      (leb_not_ltb_below 0.4 0.8 v L48 H8), (leb_not_ltb_below 0.6 0.8 v L68 H8).
Qed.

(** The converse: what each state tells about the value.  A value that is
    NaN fails every comparison and falls to the last branch. *)
Lemma classify_inv (v : float) :
  match LIT.classify v with
  | LIT.decaying => (v <? 0.2) = true
  | LIT.nascent => (0.2 <=? v) = true /\ (v <? 0.4) = true
  | LIT.stable => (0.4 <=? v) = true /\ (v <? 0.6) = true
  | LIT.resonant => (0.6 <=? v) = true /\ (v <? 0.8) = true
  | LIT.transcendent => (0.8 <=? v) = true \/ is_nan v = true
  end.
Proof.
  unfold LIT.classify.
  destruct (v <? 0.2) eqn:E2; [reflexivity|].
  destruct (v <? 0.4) eqn:E4.
  { split; [|reflexivity]. destruct (not_ltb_leb _ _ E2) as [H | [H | H]];
      [assumption | | discriminate H].
    now rewrite (ltb_not_nan _ _ E4) in H. }
  destruct (v <? 0.6) eqn:E6.
  { split; [|reflexivity]. destruct (not_ltb_leb _ _ E4) as [H | [H | H]];
      [assumption | | discriminate H].
    now rewrite (ltb_not_nan _ _ E6) in H. }
  destruct (v <? 0.8) eqn:E8.
  { split; [|reflexivity]. destruct (not_ltb_leb _ _ E6) as [H | [H | H]];
      [assumption | | discriminate H].
    now rewrite (ltb_not_nan _ _ E8) in H. }
  destruct (not_ltb_leb _ _ E8) as [H | [H | H]]; [now left | now right | discriminate H].
Qed.

Lemma updateState_spec (h : Host) (l : LIT.t) (w : World) :
  LIT.updateState h l w
  = (LIT.with_state l (LIT.classify (fst (LIT.calculateValue h l w))),
     snd (LIT.calculateValue h l w)).
Proof.
  unfold LIT.updateState, bindW. now destruct (LIT.calculateValue h l w).
Qed.

(** The value does not depend on the state. *)
Lemma calculateValue_with_state (h : Host) (l : LIT.t) (st : LIT.State) (w : World) :
  LIT.calculateValue h (LIT.with_state l st) w = LIT.calculateValue h l w.
Proof. reflexivity. Qed.

Lemma updateState_classified (h : Host) (l0 l : LIT.t) (w0 w' : World) :
  LIT.updateState h l0 w0 = (l, w') ->
  state_of_value (LIT.state l) (fst (LIT.calculateValue h l w0)).
Proof.
  rewrite updateState_spec. intros [= <- _].
  rewrite calculateValue_with_state. simpl. apply classify_state_of_value.
Qed.

(** [interact] ends with [updateState()] at a moment [w0], followed by the
    [calculateValue()] of its result. *)
Lemma interact_shape (h : Host) (l : LIT.t) (ty : jsstring) (data : LIT.InteractData)
  (w : World) :
  exists l' res w' l0 w0 w1,
    LIT.interact h l ty data w = ((l', res), w')
    /\ LIT.updateState h l0 w0 = (l', w1)
    /\ LIT.calculateValue h l' w1 = (LIT.newValue res, w')
    /\ LIT.temporalSignature l0 = LIT.temporalSignature l'.
Proof.
  unfold LIT.interact, bindW.
  destruct (TemporalSignature.record h _ ty _ w) as [ts w0].
  destruct (LIT.updateState h (LIT.with_temporalSignature l ts) w0) as [l' w1] eqn:Hupd.
  destruct (LIT.calculateValue h l' w1) as [value w'] eqn:Hval.
  exists l', {| LIT.litId := LIT.id l'; LIT.interactionType := ty;
                LIT.result := data; LIT.newValue := value |},
    w', (LIT.with_temporalSignature l ts), w0, w1.
  split; [reflexivity|]. split; [exact Hupd|]. split; [exact Hval|].
  rewrite updateState_spec in Hupd. now injection Hupd as <- _.
Qed.

Lemma CoherenceField_new_throws (h : Host) (c : JSValue) (e : Error) :
  CoherenceField.new h c = Throw e -> e = TypeError /\ is_nullish c = true.
Proof.
  destruct (is_nullish c) eqn:N.
  - destruct c; try discriminate N; unfold CoherenceField.new; simpl;
      intros [= <-]; now split.
  - destruct (CoherenceField_new_returns h c N) as [cf ->]. discriminate.
Qed.

Lemma transform_throws (h : Host) (l : LIT.t) (transformFn : JSValue -> JSValue)
  (w : World) (l' : LIT.t) (e : Error) (w' : World) :
  LIT.transform h l transformFn w = ((l', Throw e), w') ->
  e = TypeError /\ is_nullish (transformFn (LIT.content l)) = true
  /\ l' = LIT.with_content l (transformFn (LIT.content l)) /\ w' = w.
Proof.
  unfold LIT.transform, bindW.
  destruct (CoherenceField.new h (transformFn (LIT.content l))) as [cf|e0] eqn:C.
  - destruct (TemporalSignature.record h _ _ _ w) as [ts w0].
    destruct (LIT.updateState h _ w0). discriminate.
  - intros [= <- <- <-]. destruct (CoherenceField_new_throws h _ _ C). now repeat split.
Qed.

(** C10.  After the construction of a LIT, after [interact] and after a
    [transform] that returns, the state is one of the five, and it is the
    one that the value picks: the value that [calculateValue] gives for the
    LIT at the moment [w0] at which [updateState] ran.  A [transform] returns
    when its function gives a content that is neither [null] nor
    [undefined].  Otherwise it throws, before [updateState]: the state is
    left as it was, and so is all that the value is computed from. *)
Theorem state_classified (h : Host) :
  (forall (config : LIT.Config) (w : World),
      exists l w' l0 w0,
        LIT.new h config w = (Return l, w')
        /\ LIT.updateState h l0 w0 = (l, w')
        /\ state_of_value (LIT.state l) (fst (LIT.calculateValue h l w0)))
  /\ (forall (l : LIT.t) (ty : jsstring) (data : LIT.InteractData) (w : World),
         exists l' res w' l0 w0 w1,
           LIT.interact h l ty data w = ((l', res), w')
           /\ LIT.updateState h l0 w0 = (l', w1)
           /\ LIT.calculateValue h l' w1 = (LIT.newValue res, w')
           /\ state_of_value (LIT.state l') (fst (LIT.calculateValue h l' w0)))
  /\ (forall (l : LIT.t) (transformFn : JSValue -> JSValue) (w : World)
             (l' : LIT.t) (w' : World),
         LIT.transform h l transformFn w = ((l', Return tt), w') ->
         exists l0 w0,
           LIT.updateState h l0 w0 = (l', w')
           /\ state_of_value (LIT.state l') (fst (LIT.calculateValue h l' w0)))
  /\ (forall (l : LIT.t) (transformFn : JSValue -> JSValue) (w : World),
         is_nullish (transformFn (LIT.content l)) = false ->
         snd (fst (LIT.transform h l transformFn w)) = Return tt)
  /\ (forall (l : LIT.t) (transformFn : JSValue -> JSValue) (w : World)
             (l' : LIT.t) (e : Error) (w' : World),
         LIT.transform h l transformFn w = ((l', Throw e), w') ->
         is_nullish (transformFn (LIT.content l)) = true
         /\ LIT.content l' = transformFn (LIT.content l)
         /\ LIT.state l' = LIT.state l
         /\ w' = w
         /\ LIT.calculateValue h l' w' = LIT.calculateValue h l w).
Proof.
  split; [|split; [|split; [|split]]].
  - intros config w.
    destruct (LIT_new_returns h config w) as (l0 & w0 & l & w' & Hnew & Hupd).
    exists l, w', l0, w0. repeat split; try assumption.
    all: now apply (updateState_classified h l0 l w0 w').
  - intros l ty data w.
    destruct (interact_shape h l ty data w)
      as (l' & res & w' & l0 & w0 & w1 & E & Hupd & Hval & _).
    exists l', res, w', l0, w0, w1.
    split; [exact E|]. split; [exact Hupd|]. split; [exact Hval|].
    exact (updateState_classified h l0 l' w0 w1 Hupd).
  - intros l f w l' w'. unfold LIT.transform, bindW.
    destruct (CoherenceField.new h (f (LIT.content l))) as [cf|e]; [|discriminate].
    destruct (TemporalSignature.record h _ _ _ w) as [ts w0].
    destruct (LIT.updateState h _ w0) as [l1 w1] eqn:Hupd.
    intros [= <- <-]. eexists. exists w0. split; [exact Hupd|].
    exact (updateState_classified h _ l1 w0 w1 Hupd).
  - intros l f w N. unfold LIT.transform, bindW.
    destruct (CoherenceField_new_returns h _ N) as [cf ->].
    destruct (TemporalSignature.record h _ _ _ w) as [ts w0].
    now destruct (LIT.updateState h _ w0).
  - intros l f w l' e w' E.
    destruct (transform_throws h l f w l' e w' E) as (_ & N & -> & ->).
    now repeat split.
Qed.

(** [lit.transform(() => 'a b a')] on the demonstration LIT. *)
Lemma state_classified_witness :
  let r := LIT.transform Demo.host (fst Demo.lit_a) (fun _ => JString (js "a b a"))
                         (snd Demo.lit_a) in
  exists l0 w0,
    LIT.updateState Demo.host l0 w0 = (fst (fst r), snd r)
    /\ state_of_value (LIT.state (fst (fst r)))
                      (fst (LIT.calculateValue Demo.host (fst (fst r)) w0)).
Proof.
  intros r.
  assert (LIT.transform Demo.host (fst Demo.lit_a) (fun _ => JString (js "a b a"))
                        (snd Demo.lit_a)
          = ((fst (fst r), Return tt), snd r)) as E by (vm_compute; reflexivity).
  exact (proj1 (proj2 (proj2 (state_classified Demo.host))) _ _ _ _ _ E).
Defined.

(** C10, a counterexample.  [a.relate(b, 'supports')], then
    [a.transform(() => null)]: the call throws a TypeError, and after it the
    state of the LIT is 'nascent', as the constructor left it, while
    [calculateValue] at that moment gives 1, the value of 'transcendent'. *)
Lemma throwing_transform_keeps_state :
  let related :=
    LIT.relate Demo.host (fst Demo.lit_a) (js "b") (js "supports") (snd Demo.lit_a) in
  let r := LIT.transform Demo.host (fst related) (fun _ => JNull) (snd related) in
  let v := fst (LIT.calculateValue Demo.host (fst (fst r)) (snd r)) in
  snd (fst r) = Throw TypeError
  /\ LIT.state (fst (fst r)) = LIT.nascent
  /\ v = 1
  /\ (0.8 <=? v) = true
  /\ ~ state_of_value (LIT.state (fst (fst r))) v.
Proof.
  intros related r v.
  assert (snd (fst r) = Throw TypeError) as E by (vm_compute; reflexivity).
  assert (LIT.state (fst (fst r)) = LIT.nascent) as St by (vm_compute; reflexivity).
  assert (v = 1) as V by (vm_compute; reflexivity).
  split; [exact E|]. split; [exact St|]. split; [exact V|].
  rewrite St, V. split; [reflexivity|].
  intros (_ & _ & _ & _ & _ & H). specialize (H eq_refl). discriminate H.
Qed.

(* ------------------------------------------------------------------------- *)
(** ** NaN *)

Lemma is_nan_eq (x : float) : is_nan x = true -> x = nan.
Proof.
  intros H. apply Prim2SF_inj. apply Prim2SF_nan in H. now rewrite H.
Qed.

Lemma add_nan_r (x : float) : x + nan = nan.
Proof.
  apply Prim2SF_inj. rewrite add_spec. unfold SF64add.
  change (Prim2SF nan) with S754_nan. now destruct (Prim2SF x).
Qed.

Lemma add_nan_l (x : float) : nan + x = nan.
Proof.
  apply Prim2SF_inj. rewrite add_spec. unfold SF64add.
  change (Prim2SF nan) with S754_nan. reflexivity.
Qed.

Lemma mul_nan_l (x : float) : nan * x = nan.
Proof.
  apply Prim2SF_inj. rewrite mul_spec. unfold SF64mul.
  change (Prim2SF nan) with S754_nan. reflexivity.
Qed.

Lemma mul_nan_r (x : float) : x * nan = nan.
Proof.
  apply Prim2SF_inj. rewrite mul_spec. unfold SF64mul.
  change (Prim2SF nan) with S754_nan. now destruct (Prim2SF x).
Qed.

Lemma Math_min_nan_r (x : float) : Math_min x nan = nan.
Proof. unfold Math_min. now rewrite orb_true_r. Qed.

Lemma in_unit_interval_nan : in_unit_interval nan = false.
Proof. reflexivity. Qed.

(** A LIT whose agency score is NaN has the value NaN, whatever the
    moment. *)
Lemma calculateValue_nan_agency (h : Host) (l : LIT.t) (w : World) :
  AgentSystem.agencyScore (LIT.agentSystem l) = nan ->
  fst (LIT.calculateValue h l w) = nan.
Proof.
  intros H. unfold LIT.calculateValue, bindW.
  destruct (TemporalSignature.temporalValue h (LIT.temporalSignature l) w) as [t w'].
  simpl. rewrite H, mul_nan_l, add_nan_r, add_nan_l, mul_nan_l.
  apply Math_min_nan_r.
Qed.

(** A LIT whose persistence is NaN has the value NaN, whatever the moment. *)
Lemma calculateValue_nan_persistence (h : Host) (l : LIT.t) (w : World) :
  TemporalSignature.persistence (LIT.temporalSignature l) = nan ->
  fst (LIT.calculateValue h l w) = nan.
Proof.
  intros H. unfold LIT.calculateValue, TemporalSignature.temporalValue, bindW.
  simpl. rewrite H, !mul_nan_l, add_nan_r, mul_nan_l.
  apply Math_min_nan_r.
Qed.

(* ------------------------------------------------------------------------- *)
(** ** AgentSystem *)

Lemma find_capability_none (nm : jsstring) (caps : list AgentSystem.Capability) :
  AgentSystem.find_capability nm caps = None
  <-> forall c, In c caps -> AgentSystem.name c <> nm.
Proof.
  unfold AgentSystem.find_capability. split.
  - intros H c Hc E. apply (find_none _ _ H) in Hc.
    rewrite E, jsstring_eqb_refl in Hc. discriminate.
  - intros H. induction caps as [|c caps IH]; simpl; [reflexivity|].
    destruct (jsstring_eqb (AgentSystem.name c) nm) eqn:E.
    + apply jsstring_eqb_eq in E. exfalso. apply (H c); [now left | assumption].
    + apply IH. intros c' Hc'. apply H. now right.
Qed.

Lemma find_capability_some (nm : jsstring) (caps : list AgentSystem.Capability)
  (c : AgentSystem.Capability) :
  AgentSystem.find_capability nm caps = Some c -> In c caps /\ AgentSystem.name c = nm.
Proof.
  unfold AgentSystem.find_capability. intros H. apply find_some in H.
  destruct H as [Hin E]. apply jsstring_eqb_eq in E. now split.
Qed.

(** [executeCapability] without the capability: the error, and nothing
    else. *)
Lemma executeCapability_not_found (h : Host) (a : AgentSystem.t) (nm : jsstring)
  (context : JSValue) (w : World) :
  AgentSystem.find_capability nm (AgentSystem.capabilities a) = None ->
  AgentSystem.executeCapability h a nm context w
  = ((a, Throw (CapabilityNotFound nm)), w).
Proof. intros H. unfold AgentSystem.executeCapability. now rewrite H. Qed.

(** The ways in which [executeCapability] ends. *)
Lemma executeCapability_cases (h : Host) (a : AgentSystem.t) (nm : jsstring)
  (context : JSValue) (w : World) :
  let counted :=
    {| AgentSystem.capabilities := AgentSystem.increment_uses nm (AgentSystem.capabilities a);
       AgentSystem.autonomy := AgentSystem.autonomy a;
       AgentSystem.intentionality := AgentSystem.intentionality a;
       AgentSystem.effectivity := AgentSystem.effectivity a |} in
  (AgentSystem.find_capability nm (AgentSystem.capabilities a) = None
   /\ AgentSystem.executeCapability h a nm context w
      = ((a, Throw (CapabilityNotFound nm)), w))
  \/ (exists c v w',
         AgentSystem.find_capability nm (AgentSystem.capabilities a) = Some c
         /\ AgentSystem.handler c context w = (AgentSystem.HThrow v, w')
         /\ AgentSystem.executeCapability h a nm context w
            = ((counted, Throw (HandlerError v)), w'))
  \/ (exists c r w',
         AgentSystem.find_capability nm (AgentSystem.capabilities a) = Some c
         /\ AgentSystem.handler c context w = (AgentSystem.HReturn r, w')
         /\ AgentSystem.executeCapability h a nm context w
            = ((AgentSystem.calculateAgency h counted, Return r), w')).
Proof.
  intros counted. unfold AgentSystem.executeCapability.
  destruct (AgentSystem.find_capability nm (AgentSystem.capabilities a)) as [c|] eqn:F.
  - right. unfold bindW. destruct (AgentSystem.handler c context w) as [[r|v] w'] eqn:Hh.
    + right. exists c, r, w'. repeat split; try assumption; reflexivity.
    + left. exists c, v, w'. repeat split; try assumption; reflexivity.
  - left. split; reflexivity.
Qed.

(** The counter of a capability that has one goes up by one: the first
    capability of that name is the one counted, and no other changes. *)
Lemma increment_uses_counts (nm : jsstring) (caps : list AgentSystem.Capability)
  (c : AgentSystem.Capability) (n : float) :
  AgentSystem.find_capability nm caps = Some c ->
  AgentSystem.uses c = Some n ->
  exists before after,
    caps = before ++ c :: after
    /\ (forall c', In c' before -> AgentSystem.name c' <> nm)
    /\ AgentSystem.increment_uses nm caps
       = before ++ {| AgentSystem.name := AgentSystem.name c;
                      AgentSystem.handler := AgentSystem.handler c;
                      AgentSystem.uses := Some (n + 1) |} :: after.
Proof.
  unfold AgentSystem.find_capability.
  induction caps as [|c0 caps IH]; simpl; [discriminate|].
  destruct (jsstring_eqb (AgentSystem.name c0) nm) eqn:E.
  - intros [= ->] Hu. exists [], caps. repeat split; [intros c' [] |].
    simpl. unfold AgentSystem.uses_number. now rewrite Hu.
  - intros F Hu. destruct (IH F Hu) as (before & after & -> & Hb & Hi).
    exists (c0 :: before), after. repeat split.
    + intros c' [<- | Hc']; [now apply jsstring_eqb_neq | now apply Hb].
    + simpl. now rewrite Hi.
Qed.

(** The agent system of a new LIT holds the capability objects of the
    configuration, as they are. *)
Lemma LIT_new_agentSystem (h : Host) (config : LIT.Config) (w : World)
  (l : LIT.t) (w' : World) :
  LIT.new h config w = (Return l, w') ->
  LIT.agentSystem l
  = AgentSystem.new match LIT.config_capabilities config with
                    | Some caps => caps
                    | None => []
                    end.
Proof.
  unfold LIT.new, bindW.
  destruct (match LIT.config_id config with
            | Some (c :: rest) => retW (c :: rest)
            | _ => LIT.generateId h
            end w) as [id w1].
  destruct (CoherenceField.new h _) as [cf|e]; [|discriminate].
  destruct TemporalSignature.new as [ts w2].
  rewrite updateState_spec. intros [= <- _]. reflexivity.
Qed.

(** [executeCapability] on the agent system that the constructor builds from
    the documented capability object. *)
Lemma documented_execute (h : Host) (nm : jsstring) (result context : JSValue)
  (w : World) :
  let a := AgentSystem.new [documented_capability nm result] in
  let r := AgentSystem.executeCapability h a nm context w in
  snd (fst r) = Return result
  /\ map AgentSystem.uses (AgentSystem.capabilities (fst (fst r))) = [Some nan]
  /\ AgentSystem.intentionality (fst (fst r)) = nan
  /\ AgentSystem.agencyScore (fst (fst r)) = nan.
Proof.
  unfold AgentSystem.executeCapability, AgentSystem.find_capability. simpl.
  rewrite jsstring_eqb_refl. simpl. repeat split.
Qed.

(** C4, at the failing input.  The constructor stores the capability objects
    of its caller, which have no [uses] property; [uses++] then leaves NaN
    in the counter and in the intentionality.  The same capability, defined
    by [defineCapability], is counted from 0 to 1. *)
Theorem executeCapability_uses_NaN (h : Host) (nm : jsstring) (result context : JSValue)
  (w : World) :
  (let a := AgentSystem.new [documented_capability nm result] in
   let r := AgentSystem.executeCapability h a nm context w in
   snd (fst r) = Return result
   /\ map AgentSystem.uses (AgentSystem.capabilities (fst (fst r))) = [Some nan]
   /\ AgentSystem.intentionality (fst (fst r)) = nan)
  /\ (let a := AgentSystem.defineCapability
                 h (AgentSystem.new []) nm
                 (AgentSystem.handler (documented_capability nm result)) in
      let r := AgentSystem.executeCapability h a nm context w in
      snd (fst r) = Return result
      /\ map AgentSystem.uses (AgentSystem.capabilities (fst (fst r))) = [Some 1]).
Proof.
  split.
  - destruct (documented_execute h nm result context w) as (R & U & I & _).
    now repeat split.
  - unfold AgentSystem.executeCapability, AgentSystem.find_capability. simpl.
    rewrite jsstring_eqb_refl. simpl. repeat split.
Qed.

(** C2, at two failing inputs.  (1) After [executeCapability] on a LIT built
    as the documentation shows, the agency score and the value are NaN.
    (2) An interaction in the millisecond of the construction divides by an
    age of zero: the persistence is [0 * Infinity], and the value is NaN. *)
Theorem scores_leave_range :
  (forall (h : Host) (nm : jsstring) (result context : JSValue) (w : World),
      exists l w0 l' w',
        LIT.new h (documented_config nm result) w = (Return l, w0)
        /\ LIT.executeCapability h l nm context w0 = ((l', Return result), w')
        /\ in_unit_interval (AgentSystem.agencyScore (LIT.agentSystem l')) = false
        /\ forall w1, in_unit_interval (fst (LIT.calculateValue h l' w1)) = false)
  /\ (forall h : Host,
         let built := Demo.built h (Demo.config "a" "knowledge" (JObject []))
                                 (Demo.world Demo.frozen) in
         let r := LIT.interact h (fst built) (js "query")
                               {| LIT.impact := Some 0.1 |} (snd built) in
         TemporalSignature.persistence (LIT.temporalSignature (fst (fst r))) = nan
         /\ in_unit_interval (LIT.newValue (snd (fst r))) = false
         /\ LIT.state (fst (fst r)) = LIT.transcendent).
Proof.
  split.
  - intros h nm result context w.
    destruct (LIT_new_returns h (documented_config nm result) w)
      as (l0 & w0' & l & w0 & Hnew & Hupd).
    pose proof (LIT_new_agentSystem h _ w l w0 Hnew) as Ha. simpl in Ha.
    destruct (documented_execute h nm result context w0) as (Hr & _ & _ & Hs).
    exists l, w0. unfold LIT.executeCapability, bindW. rewrite Ha.
    destruct (AgentSystem.executeCapability h _ nm context w0) as [[a' out] w'].
    simpl in Hr, Hs. subst out.
    exists (LIT.with_agentSystem l a'), w'.
    split; [exact Hnew|]. split; [reflexivity|]. split.
    + simpl. now rewrite Hs.
    + intros w1.
      now rewrite (calculateValue_nan_agency h (LIT.with_agentSystem l a') w1 Hs).
  - intros h built r.
    assert (TemporalSignature.persistence (LIT.temporalSignature (fst (fst r))) = nan)
      as Hp by (vm_compute; reflexivity).
    split; [exact Hp|].
    destruct (interact_shape h (fst built) (js "query") {| LIT.impact := Some 0.1 |}
                             (snd built))
      as (l' & res & w' & l0 & w0 & w1 & E & Hupd & Hval & _).
    fold r in E. rewrite E in Hp |- *. simpl in Hp |- *.
    pose proof (calculateValue_nan_persistence h l' w1 Hp) as Hv.
    rewrite Hval in Hv. simpl in Hv. rewrite Hv. split; [reflexivity|].
    rewrite updateState_spec in Hupd. injection Hupd as <- _.
    change (LIT.classify (fst (LIT.calculateValue h l0 w0)) = LIT.transcendent).
    rewrite (calculateValue_nan_persistence h l0 w0); [reflexivity|].
    exact Hp.
Qed.

(* ------------------------------------------------------------------------- *)
(** ** LITComposer *)

Lemma on_lit_frame {A} (a : addr) (method : LIT.t -> W (LIT.t * A)) (s : Sys) :
  registry (snd (on_lit a method s)) = registry s
  /\ fusionPatterns (snd (on_lit a method s)) = fusionPatterns s
  /\ fusionHistory (snd (on_lit a method s)) = fusionHistory s
  /\ length (heap (snd (on_lit a method s))) = length (heap s).
Proof.
  unfold on_lit. destruct (deref s a) as [l|]; [|now repeat split].
  destruct (method l (world s)) as [r w]. simpl. repeat split.
  clear. revert a. induction (heap s) as [|x hp IH]; intros [|a]; simpl; auto.
Qed.

Lemma relate_at_frame (h : Host) (a b : addr) (ty : jsstring) (s : Sys) :
  registry (LITComposer.relate_at h a b ty s) = registry s
  /\ fusionPatterns (LITComposer.relate_at h a b ty s) = fusionPatterns s
  /\ fusionHistory (LITComposer.relate_at h a b ty s) = fusionHistory s.
Proof.
  unfold LITComposer.relate_at. destruct (deref s b); [|now repeat split].
  destruct (on_lit_frame a (fun l => (l' <- LIT.relate h l (LIT.id t) ty ;;
                                      retW (l', tt))%world) s) as (R & P & H & _).
  now repeat split.
Qed.

Lemma network_registry (h : Host) (lits : list addr) (ty : jsstring) (s : Sys) :
  registry (LITComposer.network h lits ty s) = registry s.
Proof.
  revert s. induction lits as [|a [|b rest] IH]; intros s; try reflexivity.
  change (registry (LITComposer.network h (b :: rest) ty
                      (LITComposer.relate_at h a b ty s)) = registry s).
  rewrite IH. apply relate_at_frame.
Qed.

Lemma measureNetworkCoherence_registry (h : Host) (s : Sys) :
  registry (snd (LITComposer.measureNetworkCoherence h s)) = registry s.
Proof.
  unfold LITComposer.measureNetworkCoherence.
  destruct (length (LITComposer.getAllLITs s) =? 0)%nat; [reflexivity|].
  now destruct (EmergenceMetrics.sum_values h _ 0 (world s)).
Qed.

(** What [compose] does to the system. *)
Lemma compose_lit_spec (h : Host) (config : LIT.Config) (s : Sys) :
  exists lit w,
    LIT.new h config (world s) = (Return lit, w)
    /\ LITComposer.compose_lit h config s
       = (Return (length (heap s), lit),
          {| world := w; heap := heap s ++ [lit];
             registry := Map_set (LIT.id lit) (length (heap s)) (registry s);
             fusionPatterns := fusionPatterns s;
             fusionHistory := fusionHistory s |}).
Proof.
  destruct (LIT_new_returns h config (world s)) as (_ & _ & lit & w & Hnew & _).
  exists lit, w. split; [exact Hnew|].
  unfold LITComposer.compose_lit. now rewrite Hnew.
Qed.

(** C8.  [compose] always returns; the LIT that it returns is a new object,
    [find] gives it back for its id, [getAllLITs] and [findByType] of its
    type list it, and no other id of the registry changes.  The other
    composer operations are [find], [findByType] and [getAllLITs], which
    only read, and [network] and [measureNetworkCoherence], which leave the
    registry as it is. *)
Theorem compose_registers (h : Host) (s : Sys) :
  (forall config : LIT.Config,
      exists a lit s',
        LITComposer.compose h config s = (Return a, s')
        /\ a = length (heap s) /\ heap s' = heap s ++ [lit]
        /\ deref s' a = Some lit
        /\ LITComposer.find s' (LIT.id lit) = Some a
        /\ In a (LITComposer.getAllLITs s')
        /\ In a (LITComposer.findByType s' (LIT.type lit))
        /\ forall id, id <> LIT.id lit -> LITComposer.find s' id = LITComposer.find s id)
  /\ (forall lits relationType,
         registry (LITComposer.network h lits relationType s) = registry s)
  /\ registry (snd (LITComposer.measureNetworkCoherence h s)) = registry s.
Proof.
  split; [|split].
  - intros config. destruct (compose_lit_spec h config s) as (lit & w & _ & Hc).
    unfold LITComposer.compose. rewrite Hc. simpl.
    eexists _, lit, _. split; [reflexivity|]. split; [reflexivity|].
    assert (nth_error (heap s ++ [lit]) (length (heap s)) = Some lit) as Hd.
    { rewrite nth_error_app2 by lia. now rewrite Nat.sub_diag. }
    assert (lookup (LIT.id lit) (Map_set (LIT.id lit) (length (heap s)) (registry s))
            = Some (length (heap s))) as Hf by apply lookup_Map_set_same.
    repeat split.
    + exact Hd.
    + exact Hf.
    + exact (lookup_In _ _ _ Hf).
    + unfold LITComposer.findByType. apply filter_In. split.
      * exact (lookup_In _ _ _ Hf).
      * unfold deref. simpl. rewrite Hd. apply jsstring_eqb_refl.
    + intros id Hid. unfold LITComposer.find. simpl.
      now apply lookup_Map_set_other.
  - intros lits ty. apply network_registry.
  - apply measureNetworkCoherence_registry.
Qed.

(* ------------------------------------------------------------------------- *)
(** ** XenialFusionEngine: the checks of [fuse] *)

Lemma resolve_length (s : Sys) (litIDs : list jsstring) :
  length (XenialFusionEngine.resolve s litIDs) = length (filter (resolves s) litIDs).
Proof.
  unfold XenialFusionEngine.resolve, resolves.
  induction litIDs as [|id ids IH]; simpl; [reflexivity|].
  destruct (LITComposer.find s id); simpl; now rewrite IH.
Qed.

(** C3.  When fewer than two of the ids resolve, [fuse] throws
    'Fusion requires at least 2 LITs' and leaves the system as it was: no
    LIT is created. *)
Theorem fuse_requires_two (h : Host) (s : Sys) (litIDs : list jsstring)
  (patternName : option jsstring) :
  (length (filter (resolves s) litIDs) < 2)%nat ->
  XenialFusionEngine.fuse h litIDs patternName s = (Throw FusionRequiresAtLeast2, s)
  /\ message FusionRequiresAtLeast2 = Some (js "Fusion requires at least 2 LITs").
Proof.
  intros H. split; [|reflexivity].
  unfold XenialFusionEngine.fuse. rewrite resolve_length.
  apply Nat.ltb_lt in H. now rewrite H.
Qed.

(** One registered id and one unknown id. *)
Lemma fuse_requires_two_witness :
  (length (filter (resolves Demo.two_lits) [js "a"; js "nobody"]) < 2)%nat
  /\ XenialFusionEngine.fuse Demo.host [js "a"; js "nobody"] None Demo.two_lits
     = (Throw FusionRequiresAtLeast2, Demo.two_lits).
Proof.
  assert (length (filter (resolves Demo.two_lits) [js "a"; js "nobody"]) < 2)%nat
    as H by (vm_compute; lia).
  split; [exact H|].
  exact (proj1 (fuse_requires_two Demo.host Demo.two_lits [js "a"; js "nobody"] None H)).
Defined.

Lemma selectPatternName_default (h : Host) (lits : list LIT.t) (w : World) :
  In (fst (XenialFusionEngine.selectPatternName h lits w)) default_names.
Proof.
  unfold XenialFusionEngine.selectPatternName, bindW.
  destruct (EmergenceMetrics.sum_values h lits 0 w) as [total w']. simpl.
  destruct (0.7 <? _); [now (right; right; right; left)|].
  destruct (forallb _ _); [now (right; right; left)|].
  destruct (_ && _); [now (right; left) | now left].
Qed.

Lemma selectFusionPattern_spec (h : Host) (patterns : list (jsstring * FusionPattern.t))
  (lits : list LIT.t) (w : World) :
  XenialFusionEngine.selectFusionPattern h patterns lits w
  = (lookup (fst (XenialFusionEngine.selectPatternName h lits w)) patterns,
     snd (XenialFusionEngine.selectPatternName h lits w)).
Proof.
  unfold XenialFusionEngine.selectFusionPattern, bindW.
  now destruct (XenialFusionEngine.selectPatternName h lits w).
Qed.

Lemma new_fusionPatterns (h : Host) (s0 : Sys) :
  fusionPatterns (XenialFusionEngine.new h s0)
  = map (fun p => (FusionPattern.name p, p)) (XenialFusionEngine.default_patterns h).
Proof. reflexivity. Qed.

Lemma new_defaults_registered (h : Host) (s0 : Sys) :
  defaults_registered (XenialFusionEngine.new h s0).
Proof.
  intros n Hn. rewrite new_fusionPatterns.
  destruct Hn as [<- | [<- | [<- | [<- | []]]]]; discriminate.
Qed.

Lemma relate_sources_frame (h : Host) (lits : list addr) (id : jsstring) (s : Sys) :
  registry (XenialFusionEngine.relate_sources h lits id s) = registry s
  /\ fusionPatterns (XenialFusionEngine.relate_sources h lits id s) = fusionPatterns s
  /\ fusionHistory (XenialFusionEngine.relate_sources h lits id s) = fusionHistory s
  /\ length (heap (XenialFusionEngine.relate_sources h lits id s)) = length (heap s).
Proof.
  revert s. induction lits as [|a lits IH]; intros s; simpl; [now repeat split|].
  destruct (IH (snd (on_lit a (fun l => (l' <- LIT.relate h l id (js "fused-into") ;;
                                         retW (l', tt))%world) s)))
    as (R & P & H & L).
  destruct (on_lit_frame a (fun l => (l' <- LIT.relate h l id (js "fused-into") ;;
                                      retW (l', tt))%world) s) as (R' & P' & H' & L').
  repeat split; congruence.
Qed.

(** How [pattern.execute] ends: the use is counted; then the logic fails, or
    the LIT that it configures is composed. *)
Lemma execute_cases (h : Host) (p : FusionPattern.t) (lits : list LIT.t) (s : Sys) :
  let counted := Map_set (FusionPattern.name p) (FusionPattern.used p) (fusionPatterns s) in
  (exists w,
      FusionPattern.fusionLogic p lits (world s) = (None, w)
      /\ XenialFusionEngine.execute h p lits s
         = (Throw TypeError,
            {| world := w; heap := heap s; registry := registry s;
               fusionPatterns := counted; fusionHistory := fusionHistory s |}))
  \/ (exists config w lit w',
         FusionPattern.fusionLogic p lits (world s) = (Some config, w)
         /\ LIT.new h config w = (Return lit, w')
         /\ XenialFusionEngine.execute h p lits s
            = (Return (length (heap s), lit),
               {| world := w'; heap := heap s ++ [lit];
                  registry := Map_set (LIT.id lit) (length (heap s)) (registry s);
                  fusionPatterns := counted; fusionHistory := fusionHistory s |})).
Proof.
  intros counted. unfold XenialFusionEngine.execute. simpl.
  destruct (FusionPattern.fusionLogic p lits (world s)) as [[config|] w] eqn:Hl.
  - right.
    destruct (compose_lit_spec h config
                (with_world (with_fusionPatterns s counted) w))
      as (lit & w' & Hnew & Hc).
    exists config, w, lit, w'. split; [reflexivity|]. split; [exact Hnew|].
    fold counted. rewrite Hc. reflexivity.
  - left. exists w. split; reflexivity.
Qed.

(** How [fuse] ends. *)
Lemma fuse_cases (h : Host) (litIDs : list jsstring) (patternName : option jsstring)
  (s : Sys) :
  let lits := XenialFusionEngine.resolve s litIDs in
  let chosen := XenialFusionEngine.choose_pattern h patternName lits s in
  ((length lits < 2)%nat
   /\ XenialFusionEngine.fuse h litIDs patternName s = (Throw FusionRequiresAtLeast2, s))
  \/ ((2 <= length lits)%nat /\ fst chosen = None
      /\ XenialFusionEngine.fuse h litIDs patternName s
         = (Throw (FusionPatternNotFound patternName), with_world s (snd chosen)))
  \/ (exists p,
         (2 <= length lits)%nat /\ fst chosen = Some p
         /\ FusionPattern.canFuse p (derefs s lits) = false
         /\ XenialFusionEngine.fuse h litIDs patternName s
            = (Throw InsufficientCoherence, with_world s (snd chosen)))
  \/ (exists p,
         (2 <= length lits)%nat /\ fst chosen = Some p
         /\ FusionPattern.canFuse p (derefs s lits) = true
         /\ XenialFusionEngine.fuse h litIDs patternName s
            = XenialFusionEngine.fuse_checked h litIDs lits p (with_world s (snd chosen))).
Proof.
  intros lits chosen. unfold XenialFusionEngine.fuse. fold lits.
  destruct (length lits <? 2)%nat eqn:L.
  - left. apply Nat.ltb_lt in L. now split.
  - right. apply Nat.ltb_ge in L. fold chosen.
    destruct chosen as [[p|] w]; simpl.
    + right. destruct (FusionPattern.canFuse p (derefs s lits)) eqn:C; simpl.
      * right. exists p. now repeat split.
      * left. exists p. now repeat split.
    + left. now repeat split.
Qed.

(** With the pattern name left out, the pattern is looked up under one of
    the default names. *)
Lemma choose_pattern_omitted (h : Host) (patternName : option jsstring)
  (lits : list addr) (s : Sys) :
  omitted patternName ->
  exists n,
    In n default_names
    /\ fst (XenialFusionEngine.choose_pattern h patternName lits s)
       = lookup n (fusionPatterns s).
Proof.
  intros O. exists (fst (XenialFusionEngine.selectPatternName h (derefs s lits) (world s))).
  split; [apply selectPatternName_default|].
  unfold XenialFusionEngine.choose_pattern.
  destruct O as [-> | ->]; now rewrite selectFusionPattern_spec.
Qed.

(** [calculate] fails exactly on a content that is [undefined], and then it
    has not read the clock. *)
Lemma sum_lengths_none (h : Host) (lits : list LIT.t) (sum : float) :
  EmergenceMetrics.sum_lengths h lits sum = None
  <-> Exists (fun l => LIT.content l = JUndefined) lits.
Proof.
  revert sum. induction lits as [|l lits IH]; intros sum; simpl.
  - split; [discriminate | intros H; inversion H].
  - unfold EmergenceMetrics.stringify_length.
    destruct (LIT.content l) eqn:C;
      try (rewrite IH; split;
           [intros H; now right
           | intros H; inversion H as [? ? H1 | ? ? H1]; subst;
             [rewrite C in H1; discriminate H1 | exact H1]]).
    split; [intros _; now left | reflexivity].
Qed.

Lemma calculate_none (h : Host) (inputLITs : list LIT.t) (fusedLIT : LIT.t) (w : World) :
  (fst (EmergenceMetrics.calculate h inputLITs fusedLIT w) = None
   <-> Exists (fun l => LIT.content l = JUndefined) inputLITs
       \/ LIT.content fusedLIT = JUndefined)
  /\ (fst (EmergenceMetrics.calculate h inputLITs fusedLIT w) = None ->
      snd (EmergenceMetrics.calculate h inputLITs fusedLIT w) = w).
Proof.
  unfold EmergenceMetrics.calculate.
  pose proof (sum_lengths_none h inputLITs 0) as HS.
  destruct (EmergenceMetrics.sum_lengths h inputLITs 0) as [lengths|].
  - assert (~ Exists (fun l => LIT.content l = JUndefined) inputLITs) as NE.
    { intros H. apply HS in H. discriminate. }
    unfold EmergenceMetrics.stringify_length.
    destruct (LIT.content fusedLIT) eqn:C;
      try (unfold bindW;
           destruct (EmergenceMetrics.sum_values h inputLITs 0 w) as [total w1];
           destruct (LIT.calculateValue h fusedLIT w1) as [outputValue w2];
           simpl; split; [split; [discriminate | intros [H | H]; [contradiction | discriminate H]]
                         | discriminate]).
    simpl. split; [split; [intros _; now right | reflexivity] | reflexivity].
  - simpl. split; [split; [intros _; left; now apply HS | reflexivity] | reflexivity].
Qed.

(** The errors of the part of [fuse] that follows the checks.  Each is a
    TypeError, raised after the use of the pattern was counted: that of the
    fusion logic, or that of [emergence.calculate], raised after the fused
    LIT was composed and filed. *)
Lemma fuse_checked_throws (h : Host) (litIDs : list jsstring) (lits : list addr)
  (p : FusionPattern.t) (s : Sys) (e : Error) (s' : Sys) :
  XenialFusionEngine.fuse_checked h litIDs lits p s = (Throw e, s') ->
  e = TypeError
  /\ fusionHistory s' = fusionHistory s
  /\ fusionPatterns s'
     = Map_set (FusionPattern.name p) (FusionPattern.used p) (fusionPatterns s)
  /\ ((fst (FusionPattern.fusionLogic p (derefs s lits) (world s)) = None
       /\ heap s' = heap s /\ registry s' = registry s)
      \/ (exists config w lit w',
             FusionPattern.fusionLogic p (derefs s lits) (world s) = (Some config, w)
             /\ LIT.new h config w = (Return lit, w')
             /\ heap s' = heap s ++ [lit]
             /\ registry s' = Map_set (LIT.id lit) (length (heap s)) (registry s)
             /\ fst (EmergenceMetrics.calculate h (derefs s' lits) lit w') = None)).
Proof.
  unfold XenialFusionEngine.fuse_checked.
  destruct (execute_cases h p (derefs s lits) s)
    as [(w & Hl & ->) | (config & w & lit & w' & Hl & Hnew & ->)].
  - intros [= <- <-]. rewrite Hl. repeat split. left. now repeat split.
  - match goal with
    | |- context [EmergenceMetrics.calculate h ?ls lit ?w0] =>
        destruct (EmergenceMetrics.calculate h ls lit w0) as [[metrics|] w2] eqn:Hc
    end.
    + unfold XenialFusionEngine.fuse_measured.
      destruct (LIT.interact h lit _ _ w2) as [interacted w3].
      destruct (Date_now _) as [now w5]. discriminate.
    + intros [= <- <-]. repeat split. right.
      exists config, w, lit, w'. split; [exact Hl|]. split; [exact Hnew|].
      split; [reflexivity|]. split; [reflexivity|].
      exact (f_equal fst Hc).
Qed.

(** Whatever its end, the part of [fuse] that follows the checks counts one
    use of the pattern and leaves the other patterns as they are. *)
Lemma fuse_checked_patterns (h : Host) (litIDs : list jsstring) (lits : list addr)
  (p : FusionPattern.t) (s : Sys) :
  fusionPatterns (snd (XenialFusionEngine.fuse_checked h litIDs lits p s))
  = Map_set (FusionPattern.name p) (FusionPattern.used p) (fusionPatterns s).
Proof.
  unfold XenialFusionEngine.fuse_checked.
  destruct (execute_cases h p (derefs s lits) s)
    as [(w & Hl & ->) | (config & w & lit & w' & Hl & Hnew & ->)]; [reflexivity|].
  match goal with
  | |- context [EmergenceMetrics.calculate h ?ls lit ?w0] =>
      destruct (EmergenceMetrics.calculate h ls lit w0) as [[metrics|] w2]
  end; [|reflexivity].
  unfold XenialFusionEngine.fuse_measured.
  destruct (LIT.interact h lit _ _ w2) as [interacted w3].
  match goal with
  | |- context [XenialFusionEngine.relate_sources h ?l ?i ?s3] =>
      destruct (relate_sources_frame h l i s3) as (_ & P & _ & _);
      set (s4 := XenialFusionEngine.relate_sources h l i s3) in *
  end.
  destruct (Date_now (world s4)) as [now w5].
  cbn [snd with_fusionHistory with_world fusionPatterns]. rewrite P. reflexivity.
Qed.

(** What [fuse] leaves of the patterns: each name that was registered still
    is. *)
Lemma fuse_keeps_names (h : Host) (litIDs : list jsstring)
  (patternName : option jsstring) (s : Sys) (n : jsstring) :
  lookup n (fusionPatterns s) <> None ->
  lookup n (fusionPatterns (snd (XenialFusionEngine.fuse h litIDs patternName s))) <> None.
Proof.
  intros D.
  destruct (fuse_cases h litIDs patternName s)
    as [[_ ->] | [(_ & _ & ->) | [(p & _ & _ & _ & ->) | (p & _ & _ & _ & ->)]]];
    try exact D.
  rewrite fuse_checked_patterns. simpl. now apply lookup_Map_set_defined.
Qed.

Lemma Reachable_defaults (h : Host) (s : Sys) : Reachable h s -> defaults_registered s.
Proof.
  induction 1 as [s0 | s config _ IH | s p _ IH | s ids pn _ IH | s w hp _ IH].
  - apply new_defaults_registered.
  - intros n Hn. specialize (IH n Hn).
    destruct (compose_lit_spec h config s) as (lit & w & _ & Hc).
    unfold LITComposer.compose. now rewrite Hc.
  - intros n Hn. simpl. apply lookup_Map_set_defined. now apply IH.
  - intros n Hn. apply fuse_keeps_names. now apply IH.
  - exact IH.
Qed.

(** A method of a LIT, called on an object of a system that was reached. *)
Lemma on_lit_reachable {A} (h : Host) (a : addr) (method : LIT.t -> W (LIT.t * A))
  (s : Sys) :
  Reachable h s -> Reachable h (snd (on_lit a method s)).
Proof.
  intros R. unfold on_lit. destruct (deref s a) as [l|]; [|exact R].
  destruct (method l (world s)) as [r w]. now apply reach_objects.
Qed.

(** C9.  (1) On the engine as constructed, [selectFusionPattern] returns one
    of the four patterns of [initializeDefaultPatterns].  (2) On every state
    that the system reaches through [compose], [registerPattern], [fuse] and
    the methods of the LITs, it returns the pattern that is held under one
    of their four names, never [undefined]: the default pattern, or the one
    that [registerPattern] has put in its place.  So [fuse] without a
    pattern name does not raise 'Fusion pattern not found'. *)
Theorem select_never_undefined (h : Host) :
  (forall (s0 : Sys) (lits : list LIT.t) (w : World),
      exists p w',
        XenialFusionEngine.selectFusionPattern
          h (fusionPatterns (XenialFusionEngine.new h s0)) lits w = (Some p, w')
        /\ In p (XenialFusionEngine.default_patterns h))
  /\ (forall s : Sys,
         Reachable h s ->
         (forall (lits : list LIT.t) (w : World),
             exists p w' n,
               XenialFusionEngine.selectFusionPattern h (fusionPatterns s) lits w
               = (Some p, w')
               /\ In n default_names /\ lookup n (fusionPatterns s) = Some p)
         /\ (forall (litIDs : list jsstring) (patternName : option jsstring)
                    (e : Error) (s' : Sys),
                omitted patternName ->
                XenialFusionEngine.fuse h litIDs patternName s = (Throw e, s') ->
                forall q, e <> FusionPatternNotFound q)).
Proof.
  split.
  - intros s0 lits w. rewrite selectFusionPattern_spec, new_fusionPatterns.
    pose proof (selectPatternName_default h lits w) as Hn.
    destruct (XenialFusionEngine.selectPatternName h lits w) as [n w']. simpl in *.
    destruct Hn as [<- | [<- | [<- | [<- | []]]]]; eexists _, w';
      (split; [reflexivity|]); simpl; tauto.
  - intros s R. pose proof (Reachable_defaults h s R) as D. split.
    + intros lits w. rewrite selectFusionPattern_spec.
      pose proof (selectPatternName_default h lits w) as Hn.
      destruct (XenialFusionEngine.selectPatternName h lits w) as [n w']. simpl in *.
      destruct (lookup n (fusionPatterns s)) as [p|] eqn:L;
        [|now destruct (D n Hn)].
      exists p, w', n. now repeat split.
    + intros litIDs pn e s' O F q ->.
      destruct (choose_pattern_omitted h pn (XenialFusionEngine.resolve s litIDs) s O)
        as (n & Hn & Hc).
      destruct (fuse_cases h litIDs pn s)
        as [[_ E] | [(_ & N & E) | [(p & _ & _ & _ & E) | (p & _ & _ & _ & E)]]];
        rewrite E in F; try discriminate.
      * rewrite Hc in N. now destruct (D n Hn).
      * apply fuse_checked_throws in F. destruct F as [F _]. discriminate.
Qed.

(** The two demonstration LITs after [a.transform(() => undefined)]: a
    pattern is selected, and [fuse] without a pattern name throws, a
    TypeError. *)
Lemma select_never_undefined_witness :
  let s := two_lits_a_undefined in
  let run := XenialFusionEngine.fuse Demo.host [js "a"; js "b"] None s in
  Reachable Demo.host s
  /\ (exists p w' n,
         XenialFusionEngine.selectFusionPattern Demo.host (fusionPatterns s)
           (derefs s [0; 1]%nat) (world s) = (Some p, w')
         /\ In n default_names /\ lookup n (fusionPatterns s) = Some p)
  /\ fst run = Throw TypeError
  /\ forall q, fst run <> Throw (FusionPatternNotFound q).
Proof.
  intros s run.
  assert (Reachable Demo.host s) as R by (apply on_lit_reachable; apply reach_new).
  assert (fst run = Throw TypeError) as E by (vm_compute; reflexivity).
  destruct (proj2 (select_never_undefined Demo.host) s R) as [Hsel Hfuse].
  split; [exact R|]. split; [apply Hsel|]. split; [exact E|].
  intros q Hq.
  apply (Hfuse [js "a"; js "b"] None TypeError (snd run) (or_introl eq_refl)) with (q := q).
  - rewrite <- E. apply surjective_pairing.
  - rewrite E in Hq. now injection Hq.
Defined.

(** C9, a counterexample.  After
    [engine.registerPattern(new FusionPattern('Harmonic Synthesis', 'mine', ...))]
    the pattern selected for the two knowledge LITs is the caller's, which
    is none of those that [initializeDefaultPatterns] registered. *)
Lemma select_returns_callers_pattern :
  let s := XenialFusionEngine.registerPattern mine Demo.two_lits in
  let selected :=
    fst (XenialFusionEngine.selectFusionPattern Demo.host (fusionPatterns s)
           (derefs s [0; 1]%nat) (world s)) in
  Reachable Demo.host s
  /\ length (derefs s [0; 1]%nat) = 2%nat
  /\ option_map FusionPattern.description selected = Some (js "mine")
  /\ forall p, selected = Some p -> ~ In p (XenialFusionEngine.default_patterns Demo.host).
Proof.
  intros s selected.
  assert (option_map FusionPattern.description selected = Some (js "mine")) as D
    by (vm_compute; reflexivity).
  split; [apply reach_register, reach_new|]. split; [reflexivity|]. split; [exact D|].
  intros p Hp Hin. rewrite Hp in D. simpl in D.
  destruct Hin as [<- | [<- | [<- | [<- | []]]]]; discriminate D.
Qed.

(* ------------------------------------------------------------------------- *)
(** ** Errors *)


(** What the constructor makes of a configuration. *)
Lemma LIT_new_fields (h : Host) (config : LIT.Config) (w : World)
  (l : LIT.t) (w' : World) :
  LIT.new h config w = (Return l, w') ->
  LIT.content l = or_value (LIT.config_content config) (JObject [])
  /\ CoherenceField.new h (LIT.content l) = Return (LIT.coherenceField l)
  /\ LIT.agentSystem l
     = AgentSystem.new match LIT.config_capabilities config with
                       | Some caps => caps
                       | None => []
                       end.
Proof.
  unfold LIT.new, bindW.
  destruct (match LIT.config_id config with
            | Some (c :: rest) => retW (c :: rest)
            | _ => LIT.generateId h
            end w) as [id w1].
  destruct (CoherenceField.new h _) as [cf|e] eqn:C; [|discriminate].
  destruct TemporalSignature.new as [ts w2].
  rewrite updateState_spec. intros [= <- _]. simpl. now repeat split.
Qed.

Lemma resolve_below (s : Sys) (litIDs : list jsstring) :
  registry_wf s ->
  forall a, In a (XenialFusionEngine.resolve s litIDs) -> (a < length (heap s))%nat.
Proof.
  intros WF a. unfold XenialFusionEngine.resolve. rewrite in_flat_map.
  intros (id & _ & Ha). destruct (LITComposer.find s id) as [a'|] eqn:F; [|destruct Ha].
  destruct Ha as [<- | []]. exact (WF id a' F).
Qed.




(** C5, a counterexample.  The handler throws, as the handlers of
    [lit-examples.js] do on a context without a LIT: [executeCapability]
    raises the error, and the use is already counted. *)
Lemma handler_error_after_count :
  let r := AgentSystem.executeCapability Demo.host Demo.agent_with_execute
             (js "execute") (JObject []) (Demo.world Demo.ticking) in
  snd (fst r) = Throw (HandlerError (JString (js "TypeError")))
  /\ map AgentSystem.uses (AgentSystem.capabilities Demo.agent_with_execute) = [Some 0]
  /\ map AgentSystem.uses (AgentSystem.capabilities (fst (fst r))) = [Some 1]
  /\ fst (fst r) <> Demo.agent_with_execute.
Proof.
  assert (map AgentSystem.uses
            (AgentSystem.capabilities
               (fst (fst (AgentSystem.executeCapability Demo.host Demo.agent_with_execute
                            (js "execute") (JObject []) (Demo.world Demo.ticking)))))
          = [Some 1]) as U by (vm_compute; reflexivity).
  intros r. unfold r. split; [vm_compute; reflexivity|].
  split; [vm_compute; reflexivity|]. split; [exact U|].
  intros E. rewrite E in U. revert U. vm_compute. discriminate.
Qed.

(** C5, as amended.  When [executeCapability] raises 'Capability not found',
    the agent system is as it was; when [fuse] raises one of its three
    errors, the LITs, the registry, the patterns and the history are as they
    were. *)
Theorem precondition_errors_leave_state (h : Host) :
  (forall a nm context w a' q w',
      AgentSystem.executeCapability h a nm context w
      = ((a', Throw (CapabilityNotFound q)), w') ->
      a' = a /\ w' = w)
  /\ (forall s litIDs patternName e s',
         XenialFusionEngine.fuse h litIDs patternName s = (Throw e, s') ->
         e = FusionRequiresAtLeast2 \/ (exists q, e = FusionPatternNotFound q)
         \/ e = InsufficientCoherence ->
         same_objects s s').
Proof.
  split.
  - intros a nm context w a' q w' E.
    destruct (executeCapability_cases h a nm context w)
      as [[F E'] | [(c & v & w1 & F & Hh & E') | (c & r & w1 & F & Hh & E')]];
      rewrite E' in E; try discriminate.
    injection E as <- _ <-. now split.
  - intros s litIDs pn e s' E He.
    destruct (fuse_cases h litIDs pn s)
      as [[L E'] | [(L & N & E') | [(p & L & P & C & E') | (p & L & P & C & E')]]];
      rewrite E' in E.
    + injection E as _ <-. now repeat split.
    + injection E as _ <-. now repeat split.
    + injection E as _ <-. now repeat split.
    + apply fuse_checked_throws in E. destruct E as (-> & _).
      destruct He as [He | [[q He] | He]]; discriminate He.
Qed.

(** The unknown pattern name and the unknown capability leave everything in
    place. *)
Lemma precondition_errors_leave_state_witness :
  same_objects Demo.two_lits
    (snd (XenialFusionEngine.fuse Demo.host [js "a"; js "b"]
            (Some (js "Quantum Entanglement")) Demo.two_lits))
  /\ fst (fst (AgentSystem.executeCapability Demo.host Demo.agent_with_execute
                 (js "reset") JUndefined (Demo.world Demo.ticking)))
     = Demo.agent_with_execute.
Proof.
  split.
  - destruct (XenialFusionEngine.fuse Demo.host [js "a"; js "b"]
                (Some (js "Quantum Entanglement")) Demo.two_lits) as [out s'] eqn:E.
    assert (out = Throw (FusionPatternNotFound (Some (js "Quantum Entanglement")))) as Ho.
    { change out with (fst (out, s')). rewrite <- E. vm_compute. reflexivity. }
    subst out.
    apply (proj2 (precondition_errors_leave_state Demo.host) _ _ _ _ _ E).
    right; left. eexists. reflexivity.
  - destruct (AgentSystem.executeCapability Demo.host Demo.agent_with_execute
                (js "reset") JUndefined (Demo.world Demo.ticking)) as [[a' out] w'] eqn:E.
    assert (out = Throw (CapabilityNotFound (js "reset"))) as Ho.
    { change out with (snd (fst ((a', out), w'))). rewrite <- E. vm_compute. reflexivity. }
    subst out.
    exact (proj1 (proj1 (precondition_errors_leave_state Demo.host) _ _ _ _ _ _ _ E)).
Defined.

(* ------------------------------------------------------------------------- *)
(** ** Fusion *)

Lemma nth_error_update_nth_other {A} (n m : nat) (f : A -> A) (l : list A) :
  n <> m -> nth_error (update_nth n f l) m = nth_error l m.
Proof.
  revert n m. induction l as [|x l IH]; intros [|n] [|m] N; simpl; try reflexivity.
  - congruence.
  - apply IH. congruence.
Qed.

Lemma nth_error_update_nth_last {A} (f : A -> A) (l : list A) (x : A) :
  nth_error (update_nth (length l) f (l ++ [x])) (length l) = Some (f x).
Proof. induction l as [|y l IH]; simpl; [reflexivity | exact IH]. Qed.

Lemma on_lit_deref_other {A} (a b : addr) (method : LIT.t -> W (LIT.t * A)) (s : Sys) :
  a <> b -> deref (snd (on_lit a method s)) b = deref s b.
Proof.
  intros N. unfold on_lit. destruct (deref s a) as [l|]; [|reflexivity].
  destruct (method l (world s)) as [r w]. unfold deref. simpl.
  now apply nth_error_update_nth_other.
Qed.

Lemma relate_sources_deref_other (h : Host) (lits : list addr) (id : jsstring)
  (s : Sys) (b : addr) :
  ~ In b lits ->
  deref (XenialFusionEngine.relate_sources h lits id s) b = deref s b.
Proof.
  revert s. induction lits as [|a lits IH]; intros s N; simpl; [reflexivity|].
  rewrite IH by (intros H; apply N; now right).
  apply on_lit_deref_other. intros ->. apply N. now left.
Qed.

(** A pattern that [fuse] chose is held by the pattern map. *)
Lemma choose_pattern_lookup (h : Host) (patternName : option jsstring)
  (lits : list addr) (s : Sys) (p : FusionPattern.t) :
  fst (XenialFusionEngine.choose_pattern h patternName lits s) = Some p ->
  exists k, lookup k (fusionPatterns s) = Some p.
Proof.
  unfold XenialFusionEngine.choose_pattern.
  destruct patternName as [[|c rest]|]; try rewrite selectFusionPattern_spec; simpl;
    intros H; eexists; exact H.
Qed.

(** [interact] leaves the content, the coherence field and the agent system
    as they are. *)
Lemma interact_fields (h : Host) (l : LIT.t) (ty : jsstring) (data : LIT.InteractData)
  (w : World) (l' : LIT.t) (res : LIT.InteractResult) (w' : World) :
  LIT.interact h l ty data w = ((l', res), w') ->
  LIT.content l' = LIT.content l
  /\ LIT.coherenceField l' = LIT.coherenceField l
  /\ LIT.agentSystem l' = LIT.agentSystem l.
Proof.
  unfold LIT.interact, bindW.
  destruct (TemporalSignature.record h _ ty _ w) as [ts w0].
  rewrite updateState_spec.
  destruct (LIT.calculateValue h _ (snd _)) as [value w1].
  intros [= <- _ _]. now repeat split.
Qed.

(** [c.k1 || c.k2 || fallback] reads the properties of a content that is
    neither [null] nor [undefined], and gives the first of the three values
    that is not falsy. *)
Lemma first_truthy_first_of (c : JSValue) (k1 k2 fallback : jsstring) :
  XenialFusionEngine.first_truthy c k1 k2 fallback
  = if is_nullish c then None else Some (first_of k1 k2 fallback c).
Proof.
  unfold XenialFusionEngine.first_truthy, first_of, property, or_value.
  destruct c as [| |b|x|s|items|props]; simpl; try reflexivity.
  destruct (truthy (match lookup k1 props with Some v => v | None => JUndefined end));
    [reflexivity|].
  now destruct (truthy (match lookup k2 props with Some v => v | None => JUndefined end)).
Qed.

Lemma truthy_not_nullish (v : JSValue) : truthy v = true -> is_nullish v = false.
Proof. now destruct v. Qed.

Lemma first_of_not_nullish (k1 k2 fallback : jsstring) (c : JSValue) :
  is_nullish (first_of k1 k2 fallback c) = false.
Proof.
  unfold first_of. destruct c as [| |b|x|s|items|props]; try reflexivity.
  destruct (truthy (property props k1)) eqn:T1; [now apply truthy_not_nullish|].
  destruct (truthy (property props k2)) eqn:T2; [now apply truthy_not_nullish|].
  reflexivity.
Qed.

Lemma traverse_first_of (k1 k2 fallback : jsstring) (lits : list LIT.t)
  (picks : list JSValue) :
  traverse (fun lit => XenialFusionEngine.first_truthy (LIT.content lit) k1 k2 fallback)
           lits = Some picks ->
  picks = map (fun lit => first_of k1 k2 fallback (LIT.content lit)) lits
  /\ Forall (fun lit => is_nullish (LIT.content lit) = false) lits.
Proof.
  revert picks. induction lits as [|l lits IH]; intros picks; simpl.
  - intros [= <-]. now split.
  - rewrite first_truthy_first_of. destruct (is_nullish (LIT.content l)) eqn:N;
      [discriminate|].
    destruct (traverse _ lits) as [rest|]; [|discriminate].
    intros [= <-]. destruct (IH rest eq_refl) as [-> F]. split; [reflexivity|].
    now constructor.
Qed.

(** What [join] prints of elements that are neither [null] nor
    [undefined]: the string that ToString makes of each. *)
Lemma element_texts_spec (h : Host) (items : list JSValue) (texts : list jsstring) :
  element_texts h items = Some texts ->
  Forall (fun item => is_nullish item = false) items ->
  Forall2 (fun item text => ToString h item = Some text) items texts.
Proof.
  revert texts. induction items as [|item items IH]; intros texts; simpl.
  - intros [= <-] _. constructor.
  - intros E F. inversion F as [|? ? N F']; subst. rewrite N in E.
    destruct (ToString h item) as [text|] eqn:T; [|discriminate].
    destruct (element_texts h items) as [rest|]; [|discriminate].
    injection E as <-. constructor; [exact T | now apply IH].
Qed.

Lemma join_flat (sep : jsstring) (texts : list jsstring) :
  join sep texts
  = match texts with
    | [] => []
    | first :: others => first ++ flat_map (fun text => sep ++ text) others
    end.
Proof.
  destruct texts as [|first others]; [reflexivity|].
  revert first. induction others as [|second others IH]; intros first.
  - simpl. now rewrite app_nil_r.
  - change (join sep (first :: second :: others))
      with (first ++ sep ++ join sep (second :: others)).
    rewrite IH. simpl. now rewrite <- app_assoc.
Qed.

(** What the logic of 'Harmonic Synthesis' configures. *)
Lemma harmonicSynthesis_config (h : Host) (lits : list LIT.t) (w : World)
  (config : LIT.Config) (w' : World) :
  XenialFusionEngine.harmonicSynthesis h lits w = (Some config, w') ->
  exists texts props,
    Forall2 (fun lit text => ToString h (claimed_knowledge lit) = Some text) lits texts
    /\ LIT.config_content config = JObject props
    /\ lookup (js "synthesizedKnowledge") props
       = Some (JString (circled_plus_joined texts))
    /\ LIT.config_capabilities config = None.
Proof.
  unfold XenialFusionEngine.harmonicSynthesis.
  destruct (traverse _ lits) as [picks|] eqn:Hp; [|discriminate].
  apply traverse_first_of in Hp. destruct Hp as [-> _].
  unfold Array_join.
  destruct (element_texts h _) as [texts|] eqn:Ht; [|discriminate].
  destruct (traverse _ lits) as [topics|]; [|discriminate].
  unfold bindW.
  destruct (XenialFusionEngine.stamped h "synthesis-" w) as [id w1].
  destruct (XenialFusionEngine.now_ISO h w1) as [fusedAt w2].
  destruct (XenialFusionEngine.now_ISO h w2) as [created w3].
  intros [= <- _]. exists texts. eexists. split.
  - apply element_texts_spec in Ht.
    + clear - Ht. revert texts Ht. induction lits as [|l lits IH]; intros texts Ht;
        inversion Ht; subst; constructor; [assumption | now apply IH].
    + apply Forall_forall. intros item Hi. apply in_map_iff in Hi.
      destruct Hi as (l & <- & _). apply first_of_not_nullish.
  - split; [reflexivity|]. split; [|reflexivity].
    simpl. now rewrite join_flat.
Qed.

(** A fusion that returns: the fused LIT is a new object, built by the
    constructor from the configuration of the pattern and then updated by
    [interact('fusion', ...)]; the sources keep their places. *)
Lemma fuse_checked_returns (h : Host) (litIDs : list jsstring) (lits : list addr)
  (p : FusionPattern.t) (s : Sys) (r : XenialFusionEngine.FuseResult) (s' : Sys) :
  (forall a, In a lits -> (a < length (heap s))%nat) ->
  XenialFusionEngine.fuse_checked h litIDs lits p s = (Return r, s') ->
  exists config w fused,
    FusionPattern.fusionLogic p (derefs s lits) (world s) = (Some config, w)
    /\ built_then_boosted h config fused
    /\ XenialFusionEngine.fusedLIT r = length (heap s)
    /\ XenialFusionEngine.pattern r = FusionPattern.name p
    /\ deref s' (XenialFusionEngine.fusedLIT r) = Some fused.
Proof.
  intros Below. unfold XenialFusionEngine.fuse_checked.
  destruct (execute_cases h p (derefs s lits) s)
    as [(w & Hl & ->) | (config & w & lit & w' & Hl & Hnew & ->)]; [discriminate|].
  match goal with
  | |- context [EmergenceMetrics.calculate h ?ls lit ?w0] =>
      destruct (EmergenceMetrics.calculate h ls lit w0) as [[metrics|] w2]
  end; [|discriminate].
  unfold XenialFusionEngine.fuse_measured.
  destruct (LIT.interact h lit _ _ w2) as [[fused res] w3] eqn:Hint.
  match goal with
  | |- context [XenialFusionEngine.relate_sources h lits ?i ?s3] =>
      pose proof (relate_sources_deref_other h lits i s3 (length (heap s))) as Hd;
      set (s4 := XenialFusionEngine.relate_sources h lits i s3) in *
  end.
  destruct (Date_now (world s4)) as [now w5].
  intros [= <- <-]. exists config, w, fused.
  split; [exact Hl|]. split.
  { exists w, lit, w', {| LIT.impact := Some (EmergenceMetrics.emergenceScore metrics) |},
      w2, res, w3. now split. }
  split; [reflexivity|]. split; [reflexivity|].
  change (deref s4 (length (heap s)) = Some fused).
  rewrite Hd.
  - unfold deref. simpl. apply (nth_error_update_nth_last (fun _ => fused)).
  - intros H. apply Below in H. lia.
Qed.

Lemma new_harmonic_is_default (h : Host) (s0 : Sys) :
  harmonic_is_default h (XenialFusionEngine.new h s0).
Proof.
  intros k p. rewrite new_fusionPatterns. simpl.
  repeat (destruct (jsstring_eqb k _); [intros [= <-]; simpl; try discriminate; reflexivity|]).
  discriminate.
Qed.

(** C6.  A fusion under 'Harmonic Synthesis' that returns.  Each source LIT
    gives one text: the string that its [knowledge] makes, or else its
    [description], or else the empty string; a knowledge or description that
    is a string gives itself.  The [synthesizedKnowledge] of the content of
    the fused LIT is these texts in the order of the sources, with [' ⊕ ']
    between each two.  The fused LIT is built by the constructor of LIT and
    updated by [interact]: its coherence field is the analysis of its
    content, its agent system is a new one, and its temporal signature and
    state are those that these two calls leave. *)
Theorem harmonic_fusion (h : Host) (s : Sys) (litIDs : list jsstring)
  (patternName : option jsstring) (r : XenialFusionEngine.FuseResult) (s' : Sys) :
  registry_wf s ->
  harmonic_is_default h s ->
  XenialFusionEngine.fuse h litIDs patternName s = (Return r, s') ->
  XenialFusionEngine.pattern r = js "Harmonic Synthesis" ->
  exists fused texts props config,
    deref s' (XenialFusionEngine.fusedLIT r) = Some fused
    /\ Forall2 (fun lit text =>
                  ToString h (claimed_knowledge lit) = Some text
                  /\ forall str, claimed_knowledge lit = JString str -> text = str)
               (derefs s (XenialFusionEngine.resolve s litIDs)) texts
    /\ LIT.content fused = JObject props
    /\ lookup (js "synthesizedKnowledge") props
       = Some (JString (circled_plus_joined texts))
    /\ built_then_boosted h config fused
    /\ CoherenceField.new h (LIT.content fused) = Return (LIT.coherenceField fused)
    /\ LIT.agentSystem fused = AgentSystem.new [].
Proof.
  intros WF HD E Hp.
  destruct (fuse_cases h litIDs patternName s)
    as [[_ E'] | [(_ & _ & E') | [(p & _ & _ & _ & E') | (p & _ & P & _ & E')]]];
    rewrite E' in E; try discriminate.
  apply fuse_checked_returns in E; [|exact (resolve_below s litIDs WF)].
  destruct E as (config & w & fused & Hl & Hb & _ & Hn & Hd).
  destruct (choose_pattern_lookup h _ _ _ _ P) as [k Hk].
  rewrite Hn in Hp. rewrite (HD k p Hk Hp) in Hl.
  destruct (harmonicSynthesis_config h _ _ _ _ Hl) as (texts & props & Ht & Hc & Hs & Hcap).
  destruct Hb as (wn & lit & wn' & data & wi & res & wd & Hnew & Hint).
  destruct (LIT_new_fields h _ _ _ _ Hnew) as (Fc & Ff & Fa).
  destruct (interact_fields h _ _ _ _ _ _ _ Hint) as (Ic & If & Ia).
  exists fused, texts, props, config.
  split; [exact Hd|]. split.
  { refine (Forall2_impl _ _ Ht). intros lit0 text T. split; [exact T|].
    intros str Hstr. rewrite Hstr in T. simpl in T. now injection T as <-. }
  assert (LIT.content fused = LIT.config_content config) as Hcontent.
  { rewrite Ic, Fc, Hc. reflexivity. }
  split; [now rewrite Hcontent|]. split; [exact Hs|].
  split; [exists wn, lit, wn', data, wi, res, wd; now split|].
  split; [now rewrite If, Ic|].
  now rewrite Ia, Fa, Hcap.
Qed.

Lemma three_lits_registry_wf : registry_wf three_lits.
Proof.
  assert (registry three_lits = [(js "a", 0%nat); (js "d", 1%nat); (js "n", 2%nat)]) as R
    by (vm_compute; reflexivity).
  assert (length (heap three_lits) = 3%nat) as L by (vm_compute; reflexivity).
  intros id a. unfold LITComposer.find. rewrite R, L. simpl.
  repeat (destruct (jsstring_eqb id _); [intros [= <-]; lia|]).
  discriminate.
Defined.

Lemma two_lits_registry_wf : registry_wf Demo.two_lits.
Proof.
  assert (registry Demo.two_lits = [(js "a", 0%nat); (js "b", 1%nat)]) as R
    by (vm_compute; reflexivity).
  assert (length (heap Demo.two_lits) = 2%nat) as L by (vm_compute; reflexivity).
  intros id a. unfold LITComposer.find. rewrite R, L. simpl.
  destruct (jsstring_eqb id _); [intros [= <-]; lia|].
  destruct (jsstring_eqb id _); [intros [= <-]; lia | discriminate].
Defined.

(** Three LITs fused: the first has a knowledge, the second a description
    and no knowledge, the third neither. *)
Lemma harmonic_fusion_witness :
  let run := XenialFusionEngine.fuse Demo.host [js "a"; js "d"; js "n"]
               (Some (js "Harmonic Synthesis")) three_lits in
  exists fused props,
    deref (snd run) 3%nat = Some fused
    /\ LIT.content fused = JObject props
    /\ lookup (js "synthesizedKnowledge") props
       = Some (JString (js "The XQE operates on coherence" ++ [32; 8853; 32]%N
                        ++ js "Notes on time" ++ [32; 8853; 32]%N)).
Proof.
  intros run.
  assert (exists r, fst run = Return r
                    /\ XenialFusionEngine.pattern r = js "Harmonic Synthesis"
                    /\ XenialFusionEngine.fusedLIT r = 3%nat) as (r & Hr & Hp & Hf).
  { vm_compute. eexists. repeat split. }
  assert (map claimed_knowledge
            (derefs three_lits
                    (XenialFusionEngine.resolve three_lits [js "a"; js "d"; js "n"]))
          = [JString (js "The XQE operates on coherence");
             JString (js "Notes on time"); JString []]) as Hk
    by (vm_compute; reflexivity).
  unfold run in *.
  destruct (XenialFusionEngine.fuse Demo.host [js "a"; js "d"; js "n"]
              (Some (js "Harmonic Synthesis")) three_lits) as [out s'] eqn:E.
  simpl in Hr. subst out.
  destruct (harmonic_fusion Demo.host three_lits [js "a"; js "d"; js "n"]
              (Some (js "Harmonic Synthesis")) r s'
              three_lits_registry_wf (new_harmonic_is_default Demo.host _) E Hp)
    as (fused & texts & props & config & Hd & Ht & Hc & Hs & _).
  rewrite Hf in Hd. exists fused, props. split; [exact Hd|]. split; [exact Hc|].
  rewrite Hs.
  destruct (derefs three_lits
              (XenialFusionEngine.resolve three_lits [js "a"; js "d"; js "n"]))
    as [|la [|ld [|ln [|x rest]]]]; try discriminate Hk.
  injection Hk as Ka Kd Kn.
  inversion Ht as [|? ta ? ? [_ Ha] Ht1]; subst.
  inversion Ht1 as [|? td ? ? [_ Hdd] Ht2]; subst.
  inversion Ht2 as [|? tn ? ? [_ Hnn] Ht3]; subst.
  inversion Ht3; subst.
  rewrite (Ha _ Ka), (Hdd _ Kd), (Hnn _ Kn). reflexivity.
Defined.

(* ========================================================================= *)
(** * Further properties of the code *)

(* ------------------------------------------------------------------------- *)
(** ** Capped scores *)

Lemma Math_min_1_capped (x : float) :
  is_nan (Math_min 1 x) = true \/ (Math_min 1 x <=? 1) = true.
Proof.
  unfold Math_min. change (is_nan 1) with false. simpl.
  destruct (is_nan x) eqn:N; [now left|]. right.
  destruct (1 <? x) eqn:L; [reflexivity|].
  assert ((x <=? 1) = true) as H.
  { destruct (not_ltb_leb x 1 L) as [H | [H | H]]; [exact H | discriminate H | congruence]. }
  destruct (x <? 1); [exact H|].
  change (is_negative_zero 1) with false. exact H.
Qed.

(** X1.  Whatever the LIT and the moment, [calculateValue()] is NaN or at most 1;
    so are the entropy of a coherence field, and the autonomy and the
    intentionality that [calculateAgency()] computes. *)
Theorem capped_scores (h : Host) :
  (forall (l : LIT.t) (w : World),
      let v := fst (LIT.calculateValue h l w) in
      is_nan v = true \/ (v <=? 1) = true)
  /\ (forall c : JSValue,
         let e := CoherenceField.measureEntropy h c in
         is_nan e = true \/ (e <=? 1) = true)
  /\ (forall a : AgentSystem.t,
         let a' := AgentSystem.calculateAgency h a in
         (is_nan (AgentSystem.autonomy a') = true \/ (AgentSystem.autonomy a' <=? 1) = true)
         /\ (is_nan (AgentSystem.intentionality a') = true
             \/ (AgentSystem.intentionality a' <=? 1) = true)).
Proof.
  split; [|split].
  - intros l w. unfold LIT.calculateValue, bindW.
    destruct (TemporalSignature.temporalValue h (LIT.temporalSignature l) w) as [t w'].
    apply Math_min_1_capped.
  - intros c. apply Math_min_1_capped.
  - intros a. split; apply Math_min_1_capped.
Qed.

(** X2.  The resonance of a content is a sum of five terms, each [0.2] or [0]:
    it lies in [0, 1], and it is [0] for a content that is not an object. *)
Theorem resonance_range (c : JSValue) (r : float) :
  CoherenceField.measureResonance c = Some r ->
  in_unit_interval r = true
  /\ (match c with JObject _ => False | _ => True end -> r = 0).
Proof.
  destruct c as [| |b|x|s|items|props]; try discriminate;
    unfold CoherenceField.measureResonance; simpl;
    try (intros [= <-]; split; [reflexivity | intros _; reflexivity]).
  destruct (truthy _), (truthy _), (truthy _), (truthy _);
    destruct (match lookup (js "value") props with Some x => x | None => JUndefined end);
    intros [= <-]; (split; [reflexivity | intros []]).
Qed.

(** The resonance of the content of a knowledge LIT. *)
Lemma resonance_range_witness :
  CoherenceField.measureResonance (Demo.knowledge "xqe" "The XQE operates on coherence")
  = Some 0.4
  /\ in_unit_interval 0.4 = true.
Proof.
  assert (CoherenceField.measureResonance
            (Demo.knowledge "xqe" "The XQE operates on coherence") = Some 0.4) as E
    by reflexivity.
  split; [exact E|].
  exact (proj1 (resonance_range _ _ E)).
Defined.

(* ------------------------------------------------------------------------- *)
(** ** What the methods of a LIT change *)

Lemma record_spec (h : Host) (ts : TemporalSignature.t) (ty : jsstring) (imp : float)
  (w : World) :
  exists stamp,
    TemporalSignature.createdAt (fst (TemporalSignature.record h ts ty imp w))
    = TemporalSignature.createdAt ts
    /\ TemporalSignature.interactions (fst (TemporalSignature.record h ts ty imp w))
       = TemporalSignature.interactions ts
         ++ [{| TemporalSignature.timestamp := stamp; TemporalSignature.type := ty;
                TemporalSignature.impact := imp |}].
Proof.
  unfold TemporalSignature.record, TemporalSignature.updatePersistence, bindW.
  simpl. eexists. split; reflexivity.
Qed.

Lemma or_number_truthy (x : float) : truthy_number (or_number x 0.1) = true.
Proof. unfold or_number. now destruct (truthy_number x) eqn:E. Qed.

(** X3.  The constructor does not run [calculateAgency()]: whatever capabilities
    the configuration brings, the new LIT holds them with the three
    sub-scores and the agency score at 0, where [defineCapability] of a
    first capability sets the autonomy to [0.1]. *)
Theorem constructor_agency_zero (h : Host) (config : LIT.Config) (w : World) :
  (exists l w',
      LIT.new h config w = (Return l, w')
      /\ AgentSystem.capabilities (LIT.agentSystem l)
         = match LIT.config_capabilities config with Some caps => caps | None => [] end
      /\ AgentSystem.autonomy (LIT.agentSystem l) = 0
      /\ AgentSystem.agencyScore (LIT.agentSystem l) = 0)
  /\ (forall nm hd,
         AgentSystem.autonomy (AgentSystem.defineCapability h (AgentSystem.new []) nm hd)
         = 0.1).
Proof.
  split; [|reflexivity].
  destruct (LIT_new_returns h config w) as (_ & _ & l & w' & Hnew & _).
  exists l, w'. split; [exact Hnew|].
  rewrite (LIT_new_agentSystem h config w l w' Hnew). now repeat split.
Qed.

(** X4.  [interact(type, data)] appends one interaction of that type, whose
    impact is [data.impact], or [0.1] when that is absent, zero or NaN, so
    never a falsy number; it keeps the identity, the content, the coherence
    field, the agent system, the relations and the time of creation. *)
Theorem interact_records (h : Host) (l : LIT.t) (ty : jsstring)
  (data : LIT.InteractData) (w : World) :
  let l' := fst (fst (LIT.interact h l ty data w)) in
  let res := snd (fst (LIT.interact h l ty data w)) in
  (exists stamp imp,
      TemporalSignature.interactions (LIT.temporalSignature l')
      = TemporalSignature.interactions (LIT.temporalSignature l)
        ++ [{| TemporalSignature.timestamp := stamp; TemporalSignature.type := ty;
               TemporalSignature.impact := imp |}]
      /\ truthy_number imp = true
      /\ imp = match LIT.impact data with
               | Some x => if truthy_number x then x else 0.1
               | None => 0.1
               end)
  /\ LIT.id l' = LIT.id l /\ LIT.type l' = LIT.type l /\ LIT.version l' = LIT.version l
  /\ LIT.content l' = LIT.content l /\ LIT.metadata l' = LIT.metadata l
  /\ LIT.coherenceField l' = LIT.coherenceField l
  /\ LIT.agentSystem l' = LIT.agentSystem l
  /\ LIT.relations l' = LIT.relations l
  /\ TemporalSignature.createdAt (LIT.temporalSignature l')
     = TemporalSignature.createdAt (LIT.temporalSignature l)
  /\ LIT.litId res = LIT.id l /\ LIT.result res = data.
Proof.
  unfold LIT.interact, bindW.
  set (imp := match LIT.impact data with Some x => or_number x 0.1 | None => 0.1 end).
  destruct (record_spec h (LIT.temporalSignature l) ty imp w) as (stamp & Hc & Hi).
  destruct (TemporalSignature.record h _ ty imp w) as [ts w0].
  rewrite updateState_spec.
  destruct (LIT.calculateValue h _ (snd _)) as [v w1]. simpl in *.
  split; [|now repeat split].
  exists stamp, imp. split; [exact Hi|]. split.
  - unfold imp. destruct (LIT.impact data); [apply or_number_truthy | reflexivity].
  - reflexivity.
Qed.

(** X5.  [relate(other, type)] appends one relation to [other.id] of that type
    and one interaction of type 'relate' and impact [0.3]; it does not run
    [updateState()]: the state stays as it was, with the identity, the
    content, the coherence field and the agent system. *)
Theorem relate_appends (h : Host) (l : LIT.t) (otherId relationType : jsstring)
  (w : World) :
  let l' := fst (LIT.relate h l otherId relationType w) in
  (exists r, LIT.relations l' = LIT.relations l ++ [r]
             /\ is_relation otherId relationType r)
  /\ (exists stamp,
         TemporalSignature.interactions (LIT.temporalSignature l')
         = TemporalSignature.interactions (LIT.temporalSignature l)
           ++ [{| TemporalSignature.timestamp := stamp;
                  TemporalSignature.type := js "relate";
                  TemporalSignature.impact := 0.3 |}])
  /\ LIT.state l' = LIT.state l
  /\ LIT.id l' = LIT.id l /\ LIT.type l' = LIT.type l /\ LIT.version l' = LIT.version l
  /\ LIT.content l' = LIT.content l /\ LIT.metadata l' = LIT.metadata l
  /\ LIT.coherenceField l' = LIT.coherenceField l
  /\ LIT.agentSystem l' = LIT.agentSystem l.
Proof.
  unfold LIT.relate, bindW. destruct (Date_now w) as [now w0].
  match goal with
  | |- context [TemporalSignature.record h ?ts ?ty ?imp w0] =>
      destruct (record_spec h ts ty imp w0) as (stamp & Hc & Hi);
      destruct (TemporalSignature.record h ts ty imp w0) as [ts' w1]
  end.
  simpl in *. split; [|split; [|now repeat split]].
  - eexists. split; [reflexivity|]. repeat split. discriminate.
  - exists stamp. exact Hi.
Qed.

(** X6.  [transform(fn)]: when [fn] gives [null] or [undefined] the call throws a
    TypeError after it has replaced the content, and changes nothing else,
    the coherence field still being that of the old content; otherwise it
    returns, the coherence field is the analysis of the new content, and
    one interaction of type 'transform' and impact [0.5] is appended. *)
Theorem transform_replaces (h : Host) (l : LIT.t) (transformFn : JSValue -> JSValue)
  (w : World) :
  let c := transformFn (LIT.content l) in
  (is_nullish c = true ->
   LIT.transform h l transformFn w = ((LIT.with_content l c, Throw TypeError), w))
  /\ (is_nullish c = false ->
      exists l' w' stamp,
        LIT.transform h l transformFn w = ((l', Return tt), w')
        /\ LIT.content l' = c
        /\ CoherenceField.new h c = Return (LIT.coherenceField l')
        /\ TemporalSignature.interactions (LIT.temporalSignature l')
           = TemporalSignature.interactions (LIT.temporalSignature l)
             ++ [{| TemporalSignature.timestamp := stamp;
                    TemporalSignature.type := js "transform";
                    TemporalSignature.impact := 0.5 |}]
        /\ LIT.id l' = LIT.id l /\ LIT.relations l' = LIT.relations l
        /\ LIT.agentSystem l' = LIT.agentSystem l).
Proof.
  intros c. split; intros N; unfold LIT.transform, bindW; fold c.
  - destruct c; try discriminate N; reflexivity.
  - destruct (CoherenceField_new_returns h c N) as [cf ->].
    match goal with
    | |- context [TemporalSignature.record h ?ts ?ty ?imp w] =>
        destruct (record_spec h ts ty imp w) as (stamp & Hc & Hi);
        destruct (TemporalSignature.record h ts ty imp w) as [ts' w0]
    end.
    rewrite updateState_spec.
    eexists _, _, stamp. split; [reflexivity|]. simpl in *. now repeat split.
Qed.

(** [lit.transform(() => null)] on the demonstration LIT, and
    [lit.transform(() => 'a b a')]. *)
Lemma transform_replaces_witness :
  LIT.transform Demo.host (fst Demo.lit_a) (fun _ => JNull) (snd Demo.lit_a)
  = ((LIT.with_content (fst Demo.lit_a) JNull, Throw TypeError), snd Demo.lit_a)
  /\ exists l' w', LIT.transform Demo.host (fst Demo.lit_a) (fun _ => JString (js "a b a"))
                                 (snd Demo.lit_a) = ((l', Return tt), w')
                   /\ LIT.content l' = JString (js "a b a").
Proof.
  split.
  - exact (proj1 (transform_replaces Demo.host (fst Demo.lit_a) (fun _ => JNull)
                                     (snd Demo.lit_a)) eq_refl).
  - destruct (proj2 (transform_replaces Demo.host (fst Demo.lit_a)
                                        (fun _ => JString (js "a b a"))
                                        (snd Demo.lit_a)) eq_refl)
      as (l' & w' & _ & E & C & _).
    exists l', w'. now split.
Defined.

(* ------------------------------------------------------------------------- *)
(** ** Defining and executing capabilities *)

Lemma find_capability_app (nm : jsstring) (caps more : list AgentSystem.Capability) :
  AgentSystem.find_capability nm (caps ++ more)
  = match AgentSystem.find_capability nm caps with
    | Some c => Some c
    | None => AgentSystem.find_capability nm more
    end.
Proof.
  unfold AgentSystem.find_capability. induction caps as [|c caps IH]; simpl; [reflexivity|].
  now destruct (jsstring_eqb (AgentSystem.name c) nm).
Qed.

(** X7.  [defineCapability(name, handler)] appends: the name is found from then
    on, so [executeCapability(name)] does not raise 'Capability not found';
    a name that was free gets the new capability, counted from 0; a name
    that was taken keeps its first capability, with the old handler; other
    names are found as before. *)
Theorem defineCapability_lookup (h : Host) (a : AgentSystem.t) (nm : jsstring)
  (hd : AgentSystem.Handler) :
  let a' := AgentSystem.defineCapability h a nm hd in
  (AgentSystem.find_capability nm (AgentSystem.capabilities a) = None ->
   AgentSystem.find_capability nm (AgentSystem.capabilities a')
   = Some {| AgentSystem.name := nm; AgentSystem.handler := hd;
             AgentSystem.uses := Some 0 |})
  /\ (forall c,
         AgentSystem.find_capability nm (AgentSystem.capabilities a) = Some c ->
         AgentSystem.find_capability nm (AgentSystem.capabilities a') = Some c)
  /\ (forall other,
         other <> nm ->
         AgentSystem.find_capability other (AgentSystem.capabilities a')
         = AgentSystem.find_capability other (AgentSystem.capabilities a))
  /\ (forall context w q,
         snd (fst (AgentSystem.executeCapability h a' nm context w))
         <> Throw (CapabilityNotFound q)).
Proof.
  intros a'.
  assert (AgentSystem.capabilities a'
          = AgentSystem.capabilities a
            ++ [{| AgentSystem.name := nm; AgentSystem.handler := hd;
                   AgentSystem.uses := Some 0 |}]) as Hc by reflexivity.
  assert (AgentSystem.find_capability nm
            [{| AgentSystem.name := nm; AgentSystem.handler := hd;
                AgentSystem.uses := Some 0 |}]
          = Some {| AgentSystem.name := nm; AgentSystem.handler := hd;
                    AgentSystem.uses := Some 0 |}) as Hn.
  { unfold AgentSystem.find_capability. simpl. now rewrite jsstring_eqb_refl. }
  rewrite Hc. split; [|split; [|split]].
  - intros F. now rewrite find_capability_app, F.
  - intros c F. now rewrite find_capability_app, F.
  - intros other N. rewrite find_capability_app.
    destruct (AgentSystem.find_capability other (AgentSystem.capabilities a));
      [reflexivity|].
    unfold AgentSystem.find_capability. simpl.
    destruct (jsstring_eqb nm other) eqn:E; [|reflexivity].
    apply jsstring_eqb_eq in E. congruence.
  - intros context w q.
    destruct (executeCapability_cases h a' nm context w)
      as [[F E] | [(c & v & w1 & F & Hh & E) | (c & r & w1 & F & Hh & E)]];
      rewrite E; simpl; try discriminate.
    exfalso. rewrite Hc, find_capability_app, Hn in F.
    now destruct (AgentSystem.find_capability nm (AgentSystem.capabilities a)).
Qed.

(** The name 'execute' is free on a new agent system. *)
Lemma defineCapability_lookup_witness :
  AgentSystem.find_capability (js "execute") (AgentSystem.capabilities Demo.agent_with_execute)
  = Some {| AgentSystem.name := js "execute"; AgentSystem.handler := Demo.execute_handler;
            AgentSystem.uses := Some 0 |}.
Proof.
  exact (proj1 (defineCapability_lookup Demo.host (AgentSystem.new []) (js "execute")
                                        Demo.execute_handler) eq_refl).
Defined.

(** X8.  [executeCapability(name, context)] on a capability whose counter is the
    number [n], with a handler that returns: the call returns the handler's
    result; the first capability of that name has its counter at [n + 1];
    no other capability, no name and no handler changes; and the three
    sub-scores are those of [calculateAgency()] on the new counters. *)
Theorem executeCapability_counts (h : Host) (a : AgentSystem.t) (nm : jsstring)
  (context : JSValue) (w : World) (c : AgentSystem.Capability) (n : float)
  (result : JSValue) (w' : World) :
  AgentSystem.find_capability nm (AgentSystem.capabilities a) = Some c ->
  AgentSystem.uses c = Some n ->
  AgentSystem.handler c context w = (AgentSystem.HReturn result, w') ->
  exists before after a',
    AgentSystem.capabilities a = before ++ c :: after
    /\ (forall c', In c' before -> AgentSystem.name c' <> nm)
    /\ AgentSystem.executeCapability h a nm context w = ((a', Return result), w')
    /\ AgentSystem.capabilities a'
       = before ++ {| AgentSystem.name := AgentSystem.name c;
                      AgentSystem.handler := AgentSystem.handler c;
                      AgentSystem.uses := Some (n + 1) |} :: after
    /\ a' = AgentSystem.calculateAgency h a'.
Proof.
  intros F U Hh.
  destruct (increment_uses_counts nm _ c n F U) as (before & after & Hc & Hb & Hi).
  destruct (executeCapability_cases h a nm context w)
    as [[F' E] | [(c' & v & w1 & F' & Hh' & E) | (c' & r & w1 & F' & Hh' & E)]];
    rewrite F in F'; try discriminate; injection F' as <-; rewrite Hh in Hh';
    try discriminate.
  injection Hh' as <- <-.
  exists before, after. eexists. split; [exact Hc|]. split; [exact Hb|].
  split; [exact E|]. split; [simpl; exact Hi | reflexivity].
Qed.

(** The 'execute' capability of the demonstration, on a context with a LIT:
    its counter goes from 0 to 1. *)
Lemma executeCapability_counts_witness :
  let context := JObject [(js "lit", JObject [(js "content", JObject [])])] in
  exists a',
    fst (fst (AgentSystem.executeCapability Demo.host Demo.agent_with_execute
                (js "execute") context (Demo.world Demo.ticking))) = a'
    /\ map AgentSystem.uses (AgentSystem.capabilities a') = [Some 1].
Proof.
  intros context.
  destruct (executeCapability_counts Demo.host Demo.agent_with_execute (js "execute")
              context (Demo.world Demo.ticking)
              {| AgentSystem.name := js "execute"; AgentSystem.handler := Demo.execute_handler;
                 AgentSystem.uses := Some 0 |} 0
              (JObject [(js "status", JString (js "executing"))])
              (Demo.world Demo.ticking) eq_refl eq_refl eq_refl)
    as (before & after & a' & Hc & _ & E & Hc' & _).
  exists a'. rewrite E. split; [reflexivity|].
  destruct before as [|c0 before]; [|destruct before; discriminate Hc].
  injection Hc as <-. rewrite Hc'. reflexivity.
Defined.

(* ------------------------------------------------------------------------- *)
(** ** The registry along a run *)

Lemma map_id_update_nth (a : addr) (y : LIT.t) (hp : list LIT.t) (x : LIT.t) :
  nth_error hp a = Some x -> LIT.id y = LIT.id x ->
  map LIT.id (update_nth a (fun _ => y) hp) = map LIT.id hp.
Proof.
  revert a. induction hp as [|z hp IH]; intros [|a]; simpl; try discriminate.
  - intros [= ->] ->. reflexivity.
  - intros Hn Hy. now rewrite (IH a Hn Hy).
Qed.

Lemma map_id_update_nth_fun (a : addr) (f : LIT.t -> LIT.t) (hp : list LIT.t) :
  (forall x, LIT.id (f x) = LIT.id x) ->
  map LIT.id (update_nth a f hp) = map LIT.id hp.
Proof.
  intros Hf. revert a. induction hp as [|z hp IH]; intros [|a]; simpl; try reflexivity.
  - now rewrite Hf.
  - now rewrite IH.
Qed.

Lemma update_nth_last {A} (f : A -> A) (l : list A) (x : A) :
  update_nth (length l) f (l ++ [x]) = l ++ [f x].
Proof. induction l as [|y l IH]; simpl; [reflexivity | now rewrite IH]. Qed.

(** A method that keeps the id of its object keeps the ids of the heap. *)
Lemma on_lit_ids {A} (a : addr) (method : LIT.t -> W (LIT.t * A)) (s : Sys) :
  (forall l w, LIT.id (fst (fst (method l w))) = LIT.id l) ->
  ids (snd (on_lit a method s)) = ids s.
Proof.
  intros Hm. unfold on_lit. destruct (deref s a) as [l|] eqn:D; [|reflexivity].
  specialize (Hm l (world s)). destruct (method l (world s)) as [r w].
  unfold ids. simpl in *. exact (map_id_update_nth a (fst r) (heap s) l D Hm).
Qed.

Lemma on_lit_kept {A} (a : addr) (method : LIT.t -> W (LIT.t * A)) (s : Sys) :
  (forall l w, LIT.id (fst (fst (method l w))) = LIT.id l) ->
  kept s (snd (on_lit a method s)).
Proof.
  intros Hm. split; [apply on_lit_frame | now apply on_lit_ids].
Qed.

Lemma interact_id (h : Host) (l : LIT.t) (ty : jsstring) (data : LIT.InteractData)
  (w : World) :
  LIT.id (fst (fst (LIT.interact h l ty data w))) = LIT.id l.
Proof.
  unfold LIT.interact, bindW.
  destruct (TemporalSignature.record h _ ty _ w) as [ts w0].
  rewrite updateState_spec.
  now destruct (LIT.calculateValue h _ (snd _)) as [v w1].
Qed.

Lemma transform_id (h : Host) (l : LIT.t) (transformFn : JSValue -> JSValue) (w : World) :
  LIT.id (fst (fst (LIT.transform h l transformFn w))) = LIT.id l.
Proof.
  unfold LIT.transform, bindW.
  destruct (CoherenceField.new h _) as [cf|e]; [|reflexivity].
  destruct (TemporalSignature.record h _ _ _ w) as [ts w0].
  now rewrite updateState_spec.
Qed.

Lemma relate_id (h : Host) (l : LIT.t) (otherId ty : jsstring) (w : World) :
  LIT.id (fst (LIT.relate h l otherId ty w)) = LIT.id l.
Proof.
  unfold LIT.relate, bindW. destruct (Date_now w) as [now w0].
  now destruct (TemporalSignature.record h _ _ _ w0) as [ts w1].
Qed.

Lemma relate_method_id (h : Host) (otherId ty : jsstring) (l : LIT.t) (w : World) :
  LIT.id (fst (fst ((l' <- LIT.relate h l otherId ty ;; retW (l', tt))%world w)))
  = LIT.id l.
Proof.
  unfold bindW. pose proof (relate_id h l otherId ty w) as H.
  now destruct (LIT.relate h l otherId ty w).
Qed.

Lemma executeCapability_id (h : Host) (l : LIT.t) (nm : jsstring) (context : JSValue)
  (w : World) :
  LIT.id (fst (fst (LIT.executeCapability h l nm context w))) = LIT.id l.
Proof.
  unfold LIT.executeCapability, bindW.
  now destruct (AgentSystem.executeCapability h _ nm context w).
Qed.

Lemma relate_at_kept (h : Host) (a b : addr) (ty : jsstring) (s : Sys) :
  kept s (LITComposer.relate_at h a b ty s).
Proof.
  unfold LITComposer.relate_at. destruct (deref s b) as [other|]; [|now split].
  apply on_lit_kept. intros l w. apply relate_method_id.
Qed.

Lemma kept_refl (s : Sys) : kept s s.
Proof. now split. Qed.

Lemma kept_trans (s1 s2 s3 : Sys) : kept s1 s2 -> kept s2 s3 -> kept s1 s3.
Proof. intros [R1 I1] [R2 I2]. split; congruence. Qed.

Lemma network_kept (h : Host) (lits : list addr) (ty : jsstring) (s : Sys) :
  kept s (LITComposer.network h lits ty s).
Proof.
  revert s. induction lits as [|a [|b rest] IH]; intros s; try apply kept_refl.
  change (kept s (LITComposer.network h (b :: rest) ty
                    (LITComposer.relate_at h a b ty s))).
  eapply kept_trans; [apply relate_at_kept | apply IH].
Qed.

Lemma relate_sources_kept (h : Host) (lits : list addr) (id : jsstring) (s : Sys) :
  kept s (XenialFusionEngine.relate_sources h lits id s).
Proof.
  revert s. induction lits as [|a lits IH]; intros s; simpl; [apply kept_refl|].
  eapply kept_trans; [|apply IH].
  apply on_lit_kept. intros l w. apply relate_method_id.
Qed.

Lemma compose_grown (h : Host) (config : LIT.Config) (s : Sys) :
  grown s (snd (LITComposer.compose h config s)).
Proof.
  destruct (compose_lit_spec h config s) as (lit & w & _ & Hc).
  unfold LITComposer.compose. rewrite Hc. exists (LIT.id lit).
  split; [reflexivity|]. unfold ids. simpl. now rewrite map_app.
Qed.

(** How the part of [fuse] that follows the checks ends, in full. *)
Lemma fuse_checked_run (h : Host) (litIDs : list jsstring) (lits : list addr)
  (p : FusionPattern.t) (s : Sys) :
  let counted := Map_set (FusionPattern.name p) (FusionPattern.used p) (fusionPatterns s) in
  (exists w,
      FusionPattern.fusionLogic p (derefs s lits) (world s) = (None, w)
      /\ XenialFusionEngine.fuse_checked h litIDs lits p s
         = (Throw TypeError,
            {| world := w; heap := heap s; registry := registry s;
               fusionPatterns := counted; fusionHistory := fusionHistory s |}))
  \/ (exists config w lit w' metrics fused s3 now s',
         FusionPattern.fusionLogic p (derefs s lits) (world s) = (Some config, w)
         /\ LIT.new h config w = (Return lit, w')
         /\ XenialFusionEngine.fuse_checked h litIDs lits p s
            = (Return {| XenialFusionEngine.fusedLIT := length (heap s);
                         XenialFusionEngine.emergence := metrics;
                         XenialFusionEngine.pattern := FusionPattern.name p |}, s')
         /\ LIT.id fused = LIT.id lit
         /\ heap s3 = heap s ++ [fused]
         /\ heap s' = heap (XenialFusionEngine.relate_sources h lits (LIT.id lit) s3)
         /\ registry s' = Map_set (LIT.id lit) (length (heap s)) (registry s)
         /\ fusionPatterns s' = counted
         /\ fusionHistory s'
            = fusionHistory s
              ++ [{| record_timestamp := now;
                     record_pattern := FusionPattern.name p;
                     record_sourceIDs := litIDs;
                     record_resultID := LIT.id lit;
                     record_emergence := metrics;
                     record_score := EmergenceMetrics.emergenceScore metrics |}])
  \/ (exists config w lit w' s',
         FusionPattern.fusionLogic p (derefs s lits) (world s) = (Some config, w)
         /\ LIT.new h config w = (Return lit, w')
         /\ XenialFusionEngine.fuse_checked h litIDs lits p s = (Throw TypeError, s')
         /\ heap s' = heap s ++ [lit]
         /\ registry s' = Map_set (LIT.id lit) (length (heap s)) (registry s)
         /\ fusionPatterns s' = counted
         /\ fusionHistory s' = fusionHistory s).
Proof.
  intros counted. unfold XenialFusionEngine.fuse_checked.
  destruct (execute_cases h p (derefs s lits) s)
    as [(w & Hl & ->) | (config & w & lit & w' & Hl & Hnew & ->)].
  - left. exists w. now split.
  - right.
    match goal with
    | |- context [EmergenceMetrics.calculate h ?ls lit ?w0] =>
        destruct (EmergenceMetrics.calculate h ls lit w0) as [[metrics|] w2]
    end;
      [left | right; exists config, w, lit, w'; eexists; now repeat split].
    unfold XenialFusionEngine.fuse_measured.
    pose proof (interact_id h lit (js "fusion")
                  {| LIT.impact := Some (EmergenceMetrics.emergenceScore metrics) |} w2)
      as Hid.
    destruct (LIT.interact h lit _ _ w2) as [[fused res] w3]. simpl in Hid.
    cbn [fst]. rewrite Hid.
    match goal with
    | |- context [XenialFusionEngine.relate_sources h lits ?i ?s3] =>
        destruct (relate_sources_frame h lits i s3) as (R & P & H & _);
        pose (s3' := s3);
        set (s4 := XenialFusionEngine.relate_sources h lits i s3) in *
    end.
    destruct (Date_now (world s4)) as [now w5].
    exists config, w, lit, w', metrics, fused, s3', now. eexists.
    split; [exact Hl|]. split; [exact Hnew|]. split; [reflexivity|].
    split; [exact Hid|].
    split; [unfold s3'; simpl; apply (update_nth_last (fun _ => fused))|].
    split; [reflexivity|].
    cbn [with_fusionHistory with_world registry fusionPatterns fusionHistory].
    rewrite R, P, H. now repeat split.
Qed.

Lemma fuse_kept_or_grown (h : Host) (litIDs : list jsstring)
  (patternName : option jsstring) (s : Sys) :
  let s' := snd (XenialFusionEngine.fuse h litIDs patternName s) in
  kept s s' \/ grown s s'.
Proof.
  intros s'. unfold s'.
  destruct (fuse_cases h litIDs patternName s)
    as [[_ ->] | [(_ & _ & ->) | [(p & _ & _ & _ & ->) | (p & _ & _ & _ & ->)]]];
    try (left; now split).
  set (s1 := with_world s _).
  destruct (fuse_checked_run h litIDs (XenialFusionEngine.resolve s litIDs) p s1)
    as [(w & _ & ->)
       | [(config & w & lit & w' & metrics & fused & s3 & now & s2 & _ & _ & -> & Hid & H3
           & Hh & Hr & _)
         | (config & w & lit & w' & s2 & _ & _ & -> & Hh & Hr & _)]].
  - left. now split.
  - right. exists (LIT.id lit). split; [exact Hr|].
    unfold ids. simpl. rewrite Hh.
    destruct (relate_sources_kept h (XenialFusionEngine.resolve s litIDs) (LIT.id lit) s3)
      as [_ Hk].
    unfold ids in Hk. rewrite Hk, H3, map_app. simpl. now rewrite Hid.
  - right. exists (LIT.id lit). split; [exact Hr|].
    unfold ids. simpl. now rewrite Hh, map_app.
Qed.

(** Each call of the interface keeps the objects and the registry, or adds
    one object and files it under its id at the next free address. *)
Lemma Step_kept_or_grown (h : Host) (s s' : Sys) : Step h s s' -> kept s s' \/ grown s s'.
Proof.
  intros [s0 config | s0 lits ty | s0 | s0 | s0 p | s0 litIDs pn | s0
         | s0 a ty data | s0 a fn | s0 a b ty | s0 a nm context | s0 a nm hd].
  - right. apply compose_grown.
  - left. apply network_kept.
  - left. unfold LITComposer.measureNetworkCoherence.
    destruct (length (LITComposer.getAllLITs s0) =? 0)%nat; [apply kept_refl|].
    destruct (EmergenceMetrics.sum_values h _ 0 (world s0)). now split.
  - left. now split.
  - left. now split.
  - apply fuse_kept_or_grown.
  - left. unfold FusionQueries.suggestFusions.
    destruct (FusionQueries.suggest_all h _ _ [] (world s0)). now split.
  - left. apply on_lit_kept. intros l w. apply interact_id.
  - left. apply on_lit_kept. intros l w. apply transform_id.
  - left. apply relate_at_kept.
  - left. apply on_lit_kept. intros l w. apply executeCapability_id.
  - left. split; [reflexivity|]. unfold ids. simpl.
    now apply map_id_update_nth_fun.
Qed.

Lemma Map_set_keys {A} (k : jsstring) (v : A) (m : list (jsstring * A)) :
  map fst (Map_set k v m) = map fst m
  \/ (~ In k (map fst m) /\ map fst (Map_set k v m) = map fst m ++ [k]).
Proof.
  induction m as [|[k' v'] m IH]; simpl.
  - right. split; [tauto | reflexivity].
  - destruct (jsstring_eqb k k') eqn:E; simpl; [now left|].
    apply jsstring_eqb_neq in E.
    destruct IH as [-> | [N ->]]; [now left|].
    right. split; [|reflexivity]. intros [H | H]; [congruence | contradiction].
Qed.

Lemma NoDup_snoc {A} (l : list A) (x : A) : NoDup l -> ~ In x l -> NoDup (l ++ [x]).
Proof.
  intros ND N. induction ND as [|y l Hy ND IH]; simpl.
  - constructor; [tauto | constructor].
  - constructor.
    + rewrite in_app_iff. simpl. intros [H | [H | []]]; [contradiction|].
      subst. apply N. now left.
    + apply IH. intros H. apply N. now right.
Qed.

Lemma Map_set_NoDup {A} (k : jsstring) (v : A) (m : list (jsstring * A)) :
  NoDup (map fst m) -> NoDup (map fst (Map_set k v m)).
Proof.
  intros ND. destruct (Map_set_keys k v m) as [-> | [N ->]]; [exact ND|].
  now apply NoDup_snoc.
Qed.

Lemma registry_filed_new (w : World) : registry_filed (LITComposer.new w).
Proof. split; [constructor | discriminate]. Qed.

Lemma registry_filed_below (s : Sys) : registry_filed s -> registry_wf s.
Proof.
  intros [_ F] id a H. apply F in H.
  assert (nth_error (ids s) a <> None) as D by congruence.
  apply nth_error_Some in D. unfold ids in D. now rewrite length_map in D.
Qed.

Lemma registry_filed_step (h : Host) (s s' : Sys) :
  registry_filed s -> Step h s s' -> registry_filed s'.
Proof.
  intros F St. pose proof (registry_filed_below s F) as WF. destruct F as [ND F].
  destruct (Step_kept_or_grown h s s' St) as [[R I] | (k & R & I)];
    unfold registry_filed, LITComposer.find; rewrite R, I.
  - now split.
  - split; [now apply Map_set_NoDup|].
    intros id a. destruct (jsstring_eq_dec id k) as [-> | N].
    + rewrite lookup_Map_set_same. intros [= <-].
      rewrite nth_error_app2; unfold ids; rewrite length_map; [|lia].
      now rewrite Nat.sub_diag.
    + rewrite lookup_Map_set_other by exact N. intros H.
      rewrite nth_error_app1; [now apply F|].
      unfold ids. rewrite length_map. exact (WF id a H).
Qed.

Lemma Runs_registry_filed (h : Host) (s : Sys) : Runs h s -> registry_filed s.
Proof.
  induction 1 as [w | s s' _ IH St]; [apply registry_filed_new|].
  exact (registry_filed_step h s s' IH St).
Qed.

Lemma registry_filed_keyed (s : Sys) : registry_filed s -> registry_keyed_by_id s.
Proof.
  intros [_ F] id a H. apply F in H. unfold ids in H.
  rewrite nth_error_map in H. unfold deref.
  destruct (nth_error (heap s) a) as [l|]; [|discriminate].
  injection H as H. now exists l.
Qed.

Lemma lookup_of_In {A} (v : A) (m : list (jsstring * A)) :
  In v (map snd m) -> exists k, In (k, v) m.
Proof.
  rewrite in_map_iff. intros ([k v'] & E & H). simpl in E. subst. now exists k.
Qed.

Lemma registry_filed_NoDup (s : Sys) :
  registry_filed s -> NoDup (LITComposer.getAllLITs s).
Proof.
  intros [ND F]. unfold LITComposer.getAllLITs, LITComposer.find in *.
  assert (forall k a, In (k, a) (registry s) -> nth_error (ids s) a = Some k) as G.
  { intros k a H. apply F. now apply lookup_unique. }
  clear F. induction (registry s) as [|[k a] m IH]; simpl in *; [constructor|].
  inversion ND as [|? ? NI ND']; subst. constructor.
  - intros H. apply lookup_of_In in H. destruct H as [k' H].
    assert (k' = k) as ->.
    { pose proof (G k' a (or_intror H)) as E1.
      pose proof (G k a (or_introl eq_refl)) as E2. congruence. }
    apply NI. change k with (fst (k, a)). now apply in_map.
  - apply IH; [exact ND'|]. intros k' a' H. apply G. now right.
Qed.

Lemma patterns_keyed_Map_set (k0 : jsstring) (v : FusionPattern.t)
  (m : list (jsstring * FusionPattern.t)) :
  (forall k p, lookup k m = Some p -> FusionPattern.name p = k) ->
  FusionPattern.name v = k0 ->
  forall k p, lookup k (Map_set k0 v m) = Some p -> FusionPattern.name p = k.
Proof.
  intros K Hv k p. destruct (jsstring_eq_dec k k0) as [-> | N].
  - rewrite lookup_Map_set_same. now intros [= <-].
  - rewrite lookup_Map_set_other by exact N. apply K.
Qed.

Lemma fuse_patterns (h : Host) (litIDs : list jsstring) (patternName : option jsstring)
  (s : Sys) :
  let s' := snd (XenialFusionEngine.fuse h litIDs patternName s) in
  fusionPatterns s' = fusionPatterns s
  \/ exists p, fusionPatterns s'
               = Map_set (FusionPattern.name p) (FusionPattern.used p) (fusionPatterns s).
Proof.
  intros s'. unfold s'.
  destruct (fuse_cases h litIDs patternName s)
    as [[_ ->] | [(_ & _ & ->) | [(p & _ & _ & _ & ->) | (p & _ & _ & _ & ->)]]];
    try (left; reflexivity).
  right. exists p. now rewrite fuse_checked_patterns.
Qed.

Lemma on_lit_patterns {A} (a : addr) (method : LIT.t -> W (LIT.t * A)) (s : Sys) :
  fusionPatterns (snd (on_lit a method s)) = fusionPatterns s.
Proof. apply on_lit_frame. Qed.

Lemma network_patterns (h : Host) (lits : list addr) (ty : jsstring) (s : Sys) :
  fusionPatterns (LITComposer.network h lits ty s) = fusionPatterns s.
Proof.
  revert s. induction lits as [|a [|b rest] IH]; intros s; try reflexivity.
  change (fusionPatterns (LITComposer.network h (b :: rest) ty
                            (LITComposer.relate_at h a b ty s)) = fusionPatterns s).
  rewrite IH. apply relate_at_frame.
Qed.

Lemma new_patterns_keyed (h : Host) (s0 : Sys) :
  patterns_keyed_by_name (XenialFusionEngine.new h s0).
Proof.
  intros k p. rewrite new_fusionPatterns. simpl.
  repeat (destruct (jsstring_eqb k _) eqn:E;
          [apply jsstring_eqb_eq in E; subst k; now intros [= <-] | clear E]).
  discriminate.
Qed.

Lemma patterns_keyed_step (h : Host) (s s' : Sys) :
  patterns_keyed_by_name s -> Step h s s' -> patterns_keyed_by_name s'.
Proof.
  intros K St. unfold patterns_keyed_by_name.
  destruct St as [s0 config | s0 lits ty | s0 | s0 | s0 p | s0 litIDs pn | s0
                 | s0 a ty data | s0 a fn | s0 a b ty | s0 a nm context | s0 a nm hd].
  - destruct (compose_lit_spec h config s0) as (lit & w & _ & Hc).
    unfold LITComposer.compose. rewrite Hc. exact K.
  - rewrite network_patterns. exact K.
  - unfold LITComposer.measureNetworkCoherence.
    destruct (length (LITComposer.getAllLITs s0) =? 0)%nat; [exact K|].
    destruct (EmergenceMetrics.sum_values h _ 0 (world s0)). exact K.
  - apply new_patterns_keyed.
  - simpl. now apply patterns_keyed_Map_set.
  - destruct (fuse_patterns h litIDs pn s0) as [-> | [p ->]]; [exact K|].
    now apply patterns_keyed_Map_set.
  - unfold FusionQueries.suggestFusions.
    destruct (FusionQueries.suggest_all h _ _ [] (world s0)). exact K.
  - unfold Objects.interact. rewrite on_lit_patterns. exact K.
  - unfold Objects.transform. rewrite on_lit_patterns. exact K.
  - destruct (relate_at_frame h a b ty s0) as (_ & -> & _). exact K.
  - unfold Objects.executeCapability. rewrite on_lit_patterns. exact K.
  - exact K.
Qed.

(** X9.  Along a run of the interface, from a new composer: [find(id)] gives a
    LIT whose id is [id]; [getAllLITs()] lists no object twice; every
    registered address is that of an object; and every pattern of the
    pattern map is held under its own name. *)
Theorem run_invariants (h : Host) (s : Sys) :
  Runs h s ->
  registry_keyed_by_id s /\ NoDup (LITComposer.getAllLITs s)
  /\ registry_wf s /\ patterns_keyed_by_name s.
Proof.
  intros R.
  pose proof (Runs_registry_filed h s R) as F.
  split; [now apply registry_filed_keyed|].
  split; [now apply registry_filed_NoDup|].
  split; [now apply registry_filed_below|].
  clear F. induction R as [w | s s' _ IH St]; [discriminate|].
  exact (patterns_keyed_step h s s' IH St).
Qed.

Lemma two_lits_Runs : Runs Demo.host Demo.two_lits.
Proof.
  unfold Demo.two_lits. cbv zeta.
  eapply runs_step; [|apply step_engine].
  eapply runs_step; [|apply step_compose].
  eapply runs_step; [|apply step_compose].
  apply runs_new.
Defined.

(** The two LITs of the demonstration, and the engine on their composer. *)
Lemma run_invariants_witness :
  Runs Demo.host Demo.two_lits /\ NoDup (LITComposer.getAllLITs Demo.two_lits).
Proof.
  split; [exact two_lits_Runs|].
  exact (proj1 (proj2 (run_invariants Demo.host Demo.two_lits two_lits_Runs))).
Defined.

(* ------------------------------------------------------------------------- *)
(** ** [compose] with an id that is in use *)

(** The fields that the constructor takes from the configuration. *)
Lemma LIT_new_identity (h : Host) (config : LIT.Config) (w : World)
  (l : LIT.t) (w' : World) :
  LIT.new h config w = (Return l, w') ->
  LIT.id l = match LIT.config_id config with
             | Some (c :: rest) => c :: rest
             | _ => fst (LIT.generateId h w)
             end
  /\ LIT.type l = LIT.or_string (LIT.config_type config) (js "generic")
  /\ LIT.version l = LIT.or_string (LIT.config_version config) (js "1.0.0")
  /\ LIT.metadata l = or_value (LIT.config_metadata config) (JObject [])
  /\ LIT.relations l = match LIT.config_relations config with
                       | Some rs => rs
                       | None => []
                       end
  /\ TemporalSignature.interactions (LIT.temporalSignature l) = [].
Proof.
  unfold LIT.new, bindW.
  assert (fst (match LIT.config_id config with
               | Some (c :: rest) => retW (c :: rest)
               | _ => LIT.generateId h
               end w)
          = match LIT.config_id config with
            | Some (c :: rest) => c :: rest
            | _ => fst (LIT.generateId h w)
            end) as Hid.
  { now destruct (LIT.config_id config) as [[|c rest]|]. }
  destruct (match LIT.config_id config with
            | Some (c :: rest) => retW (c :: rest)
            | _ => LIT.generateId h
            end w) as [id w1].
  destruct (CoherenceField.new h _) as [cf|e] eqn:C; [|discriminate].
  assert (TemporalSignature.interactions (fst (TemporalSignature.new w1)) = []) as Ht
    by reflexivity.
  destruct (TemporalSignature.new w1) as [ts w2].
  rewrite updateState_spec. intros [= <- _]. simpl in *. now repeat split.
Qed.

Lemma Map_set_fresh {A} (k : jsstring) (v : A) (m : list (jsstring * A)) :
  lookup k m = None -> Map_set k v m = m ++ [(k, v)].
Proof.
  induction m as [|[k' v'] m IH]; simpl; [reflexivity|].
  destruct (jsstring_eqb k k'); [discriminate|]. intros H. now rewrite IH.
Qed.

Lemma Map_set_replace {A} (k : jsstring) (v old : A) (m : list (jsstring * A)) :
  lookup k m = Some old ->
  exists pre post,
    map snd m = pre ++ old :: post /\ map snd (Map_set k v m) = pre ++ v :: post.
Proof.
  induction m as [|[k' v'] m IH]; simpl; [discriminate|].
  destruct (jsstring_eqb k k').
  - intros [= ->]. now exists [], (map snd m).
  - intros H. destruct (IH H) as (pre & post & E1 & E2).
    exists (v' :: pre), post. simpl. now rewrite E1, E2.
Qed.

(** X10.  [compose(config)] on a system that the interface built.  With an id
    that is free, the new LIT is listed last.  With an id that is in use,
    the registry keeps its size and the LIT that had the id is dropped from
    it: [find] and [getAllLITs] no longer give it, though the object itself
    is untouched.  The id is the configured one when that is a non-empty
    string. *)
Theorem compose_same_id (h : Host) (s : Sys) (config : LIT.Config) :
  Runs h s ->
  exists a lit s',
    LITComposer.compose h config s = (Return a, s')
    /\ deref s' a = Some lit
    /\ (forall c rest, LIT.config_id config = Some (c :: rest) -> LIT.id lit = c :: rest)
    /\ (LITComposer.find s (LIT.id lit) = None ->
        LITComposer.getAllLITs s' = LITComposer.getAllLITs s ++ [a])
    /\ (forall old,
           LITComposer.find s (LIT.id lit) = Some old ->
           length (LITComposer.getAllLITs s') = length (LITComposer.getAllLITs s)
           /\ old <> a
           /\ ~ In old (LITComposer.getAllLITs s')
           /\ (forall id, LITComposer.find s' id <> Some old)
           /\ deref s' old = deref s old).
Proof.
  intros R. pose proof (Runs_registry_filed h s R) as F.
  pose proof (registry_filed_below s F) as WF.
  pose proof (registry_filed_NoDup s F) as ND.
  destruct (compose_lit_spec h config s) as (lit & w & Hnew & Hc).
  unfold LITComposer.compose. rewrite Hc. simpl.
  eexists _, lit, _. split; [reflexivity|].
  unfold LITComposer.getAllLITs, LITComposer.find, deref, addr in *. simpl.
  split; [|split; [|split]].
  - rewrite nth_error_app2 by lia. now rewrite Nat.sub_diag.
  - intros c rest E. destruct (LIT_new_identity h _ _ _ _ Hnew) as (Hid & _).
    now rewrite E in Hid.
  - intros N. rewrite (Map_set_fresh _ _ _ N), map_app. reflexivity.
  - intros old O. pose proof (WF _ _ O) as B.
    destruct (Map_set_replace (LIT.id lit) (length (heap s)) old _ O)
      as (pre & post & E1 & E2).
    assert (~ In old (pre ++ length (heap s) :: post)) as NI.
    { rewrite E1 in ND. apply NoDup_remove_2 in ND.
      rewrite in_app_iff in *. simpl. intros [H | [H | H]]; [tauto | lia | tauto]. }
    split; [|split; [lia|split; [|split]]].
    + rewrite E1, E2, !length_app. reflexivity.
    + now rewrite E2.
    + intros id H. apply lookup_In in H. now rewrite E2 in H.
    + now rewrite nth_error_app1 by lia.
Qed.

(** A second LIT under the id 'a' of the demonstration. *)
Lemma compose_same_id_witness :
  exists a lit s',
    LITComposer.compose Demo.host (Demo.config "a" "process" (JObject [])) Demo.two_lits
    = (Return a, s')
    /\ deref s' a = Some lit
    /\ LIT.id lit = js "a".
Proof.
  destruct (compose_same_id Demo.host Demo.two_lits
              (Demo.config "a" "process" (JObject [])) two_lits_Runs)
    as (a & lit & s' & E & D & Hid & _).
  exists a, lit, s'. split; [exact E|]. split; [exact D|].
  exact (Hid _ _ eq_refl).
Defined.

(* ------------------------------------------------------------------------- *)
(** ** What [fuse] counts *)

(** X11.  [fuse] throws 'Fusion requires at least 2 LITs' exactly when fewer than
    two of the given positions resolve, whatever the pattern name; an id
    that is given twice counts twice, so one registered LIT passes this
    check against itself. *)
Theorem fuse_counts_positions (h : Host) (s : Sys) (patternName : option jsstring) :
  (forall litIDs,
      fst (XenialFusionEngine.fuse h litIDs patternName s) = Throw FusionRequiresAtLeast2
      <-> (length (filter (resolves s) litIDs) < 2)%nat)
  /\ (forall id,
         resolves s id = true ->
         fst (XenialFusionEngine.fuse h [id; id] patternName s)
         <> Throw FusionRequiresAtLeast2).
Proof.
  assert (forall litIDs,
             fst (XenialFusionEngine.fuse h litIDs patternName s)
             = Throw FusionRequiresAtLeast2
             <-> (length (filter (resolves s) litIDs) < 2)%nat) as Iff.
  { intros litIDs. rewrite <- resolve_length.
    destruct (fuse_cases h litIDs patternName s)
      as [[L ->] | [(L & _ & ->) | [(p & L & _ & _ & ->) | (p & L & _ & _ & ->)]]];
      simpl; try (split; [discriminate | lia]).
    - now split.
    - split; [|lia]. intros H.
      set (s1 := with_world s _) in *.
      destruct (fuse_checked_run h litIDs (XenialFusionEngine.resolve s litIDs) p s1)
        as [(w & _ & E)
           | [(config & w & lit & w' & metrics & fused & s3 & now & s2 & _ & _ & E & _)
             | (config & w & lit & w' & s2 & _ & _ & E & _)]];
        rewrite E in H; discriminate. }
  split; [exact Iff|].
  intros id Hr H. apply Iff in H. simpl in H. rewrite Hr in H. simpl in H. lia.
Qed.

(** The LIT 'a' of the demonstration, against itself. *)
Lemma fuse_counts_positions_witness :
  resolves Demo.two_lits (js "a") = true
  /\ fst (XenialFusionEngine.fuse Demo.host [js "a"; js "a"] None Demo.two_lits)
     <> Throw FusionRequiresAtLeast2.
Proof.
  assert (resolves Demo.two_lits (js "a") = true) as Hr by (vm_compute; reflexivity).
  split; [exact Hr|].
  exact (proj2 (fuse_counts_positions Demo.host Demo.two_lits None) (js "a") Hr).
Defined.

(* ------------------------------------------------------------------------- *)
(** ** What a fusion leaves behind *)


Lemma on_lit_deref_same {A} (a : addr) (method : LIT.t -> W (LIT.t * A)) (s : Sys)
  (l : LIT.t) :
  deref s a = Some l ->
  deref (snd (on_lit a method s)) a = Some (fst (fst (method l (world s)))).
Proof.
  intros D. unfold on_lit. rewrite D.
  destruct (method l (world s)) as [r w]. unfold deref in *. simpl.
  clear - D. revert a D. induction (heap s) as [|x hp IH]; intros [|a]; simpl;
    try discriminate; auto.
Qed.

Lemma relate_fields (h : Host) (l : LIT.t) (otherId ty : jsstring) (w : World) :
  let l' := fst (LIT.relate h l otherId ty w) in
  (exists r, LIT.relations l' = LIT.relations l ++ [r] /\ is_relation otherId ty r)
  /\ LIT.id l' = LIT.id l /\ LIT.content l' = LIT.content l
  /\ LIT.state l' = LIT.state l.
Proof.
  unfold LIT.relate, bindW. destruct (Date_now w) as [now w0].
  destruct (TemporalSignature.record h _ _ _ w0) as [ts w1]. simpl.
  split; [|now repeat split].
  eexists. split; [reflexivity|]. repeat split. discriminate.
Qed.

Lemma relate_method_fst (h : Host) (otherId ty : jsstring) (l : LIT.t) (w : World) :
  fst (fst ((l' <- LIT.relate h l otherId ty ;; retW (l', tt))%world w))
  = fst (LIT.relate h l otherId ty w).
Proof. unfold bindW. now destruct (LIT.relate h l otherId ty w). Qed.






(* ------------------------------------------------------------------------- *)
(** ** [network] *)

Lemma relate_at_deref_other (h : Host) (a b : addr) (ty : jsstring) (s : Sys) (x : addr) :
  a <> x -> deref (LITComposer.relate_at h a b ty s) x = deref s x.
Proof.
  intros N. unfold LITComposer.relate_at. destruct (deref s b); [|reflexivity].
  now apply on_lit_deref_other.
Qed.

Lemma In_removelast {A} (x : A) (l : list A) : In x (removelast l) -> In x l.
Proof.
  induction l as [|y [|z l] IH]; simpl; [tauto | tauto |].
  intros [H | H]; [now left | right; now apply IH].
Qed.

Lemma network_deref_other (h : Host) (lits : list addr) (ty : jsstring) (s : Sys)
  (x : addr) :
  ~ In x (removelast lits) -> deref (LITComposer.network h lits ty s) x = deref s x.
Proof.
  revert s. induction lits as [|a [|b rest] IH]; intros s N; try reflexivity.
  change (deref (LITComposer.network h (b :: rest) ty (LITComposer.relate_at h a b ty s)) x
          = deref s x).
  change (~ In x (a :: removelast (b :: rest))) in N.
  rewrite IH by (intros H; apply N; now right).
  apply relate_at_deref_other. intros ->. apply N. now left.
Qed.

Lemma relate_at_adds (h : Host) (a b : addr) (ty : jsstring) (s : Sys)
  (la lb : LIT.t) :
  deref s a = Some la -> deref s b = Some lb ->
  exists la' r,
    deref (LITComposer.relate_at h a b ty s) a = Some la'
    /\ LIT.relations la' = LIT.relations la ++ [r]
    /\ is_relation (LIT.id lb) ty r
    /\ LIT.id la' = LIT.id la /\ LIT.content la' = LIT.content la
    /\ LIT.state la' = LIT.state la.
Proof.
  intros Da Db. unfold LITComposer.relate_at. rewrite Db.
  set (m := fun l => (l' <- LIT.relate h l (LIT.id lb) ty ;; retW (l', tt))%world).
  pose proof (on_lit_deref_same a m s la Da) as D1.
  unfold m in D1 at 2. rewrite relate_method_fst in D1.
  destruct (relate_fields h la (LIT.id lb) ty (world s)) as ((r & Hr & Hi) & Hid & Hc & Hs).
  eexists _, r. split; [exact D1|]. split; [exact Hr|]. split; [exact Hi|].
  now repeat split.
Qed.

(** X14.  [network(lits, type)] on distinct LITs, no two LITs of the system
    sharing one [relations] array (as a LIT does that was composed from the
    [toJSON()] output of another, or from an array that the caller used
    again): with fewer than two, nothing changes; otherwise each LIT of the
    list but the last gets one relation of that type to the LIT that
    follows it, after the relations it had, and keeps its id, content and
    state; the last LIT of the list, and every LIT outside the list, is
    left as it was. *)
Theorem network_links (h : Host) (ty : jsstring) (lits : list addr) (s : Sys) :
  NoDup lits ->
  ((length lits < 2)%nat -> LITComposer.network h lits ty s = s)
  /\ (forall i a b la lb,
         nth_error lits i = Some a -> nth_error lits (S i) = Some b ->
         deref s a = Some la -> deref s b = Some lb ->
         exists la' r,
           deref (LITComposer.network h lits ty s) a = Some la'
           /\ LIT.relations la' = LIT.relations la ++ [r]
           /\ is_relation (LIT.id lb) ty r
           /\ LIT.id la' = LIT.id la /\ LIT.content la' = LIT.content la
           /\ LIT.state la' = LIT.state la)
  /\ (forall x, ~ In x (removelast lits) ->
                deref (LITComposer.network h lits ty s) x = deref s x).
Proof.
  intros ND. split; [|split].
  - destruct lits as [|a [|b rest]]; simpl; try reflexivity. lia.
  - revert s ND. induction lits as [|a0 lits IH]; intros s ND i a b la lb Ha Hb Da Db.
    { destruct i; discriminate. }
    destruct lits as [|b0 rest]; [destruct i as [|[|i]]; discriminate|].
    inversion ND as [|? ? NI ND']; subst.
    change (LITComposer.network h (a0 :: b0 :: rest) ty s)
      with (LITComposer.network h (b0 :: rest) ty (LITComposer.relate_at h a0 b0 ty s)).
    destruct i as [|i].
    + injection Ha as ->. injection Hb as ->.
      destruct (relate_at_adds h a b ty s la lb Da Db) as (la' & r & D' & Hrest).
      exists la', r. split; [|exact Hrest].
      rewrite network_deref_other; [exact D'|].
      intros H. apply In_removelast in H. contradiction.
    + change (nth_error (b0 :: rest) i = Some a) in Ha.
      change (nth_error (b0 :: rest) (S i) = Some b) in Hb.
      assert (a0 <> a) as Na.
      { intros ->. apply NI. exact (nth_error_In _ _ Ha). }
      assert (a0 <> b) as Nb.
      { intros ->. apply NI. exact (nth_error_In _ _ Hb). }
      apply (IH _ ND' i a b la lb Ha Hb).
      * now rewrite relate_at_deref_other.
      * now rewrite relate_at_deref_other.
  - intros x. apply network_deref_other.
Qed.

(** [network([a, b])] on the two LITs of the demonstration: 'a' gets its
    first relation, to 'b'. *)
Lemma network_links_witness :
  exists la' r,
    deref (LITComposer.network Demo.host [0; 1]%nat (js "connected") Demo.two_lits) 0%nat
    = Some la'
    /\ LIT.relations la' = [r]
    /\ LIT.targetId r = js "b".
Proof.
  assert (NoDup [0; 1]%nat) as ND.
  { constructor; [simpl; lia|]. constructor; [simpl; tauto | constructor]. }
  assert (exists la lb, deref Demo.two_lits 0%nat = Some la /\ deref Demo.two_lits 1%nat = Some lb
                        /\ LIT.relations la = [] /\ LIT.id lb = js "b")
    as (la & lb & Da & Db & Hr & Hi).
  { assert (length (heap Demo.two_lits) = 2%nat) as L by (vm_compute; reflexivity).
    assert (map LIT.relations (heap Demo.two_lits) = [[]; []]) as Hm
      by (vm_compute; reflexivity).
    assert (map LIT.id (heap Demo.two_lits) = [js "a"; js "b"]) as Hn
      by (vm_compute; reflexivity).
    unfold deref.
    destruct (heap Demo.two_lits) as [|la [|lb [|x hp]]]; try discriminate L.
    exists la, lb. simpl in *. repeat split; congruence. }
  destruct (proj1 (proj2 (network_links Demo.host (js "connected") [0; 1]%nat
                            Demo.two_lits ND))
              0%nat 0%nat 1%nat la lb eq_refl eq_refl Da Db)
    as (la' & r & D' & Hr' & (Ht & _) & _).
  exists la', r. split; [exact D'|]. split; [now rewrite Hr', Hr|]. congruence.
Defined.

(* ------------------------------------------------------------------------- *)
(** ** [suggestFusions] *)

Lemma insert_In (x y : FusionQueries.Suggestion) (l : list FusionQueries.Suggestion) :
  In y (FusionQueries.insert x l) -> y = x \/ In y l.
Proof.
  induction l as [|z l IH]; simpl.
  - intros [<- | []]. now left.
  - destruct (0 <? _).
    + intros [<- | H]; [now left | now right].
    + intros [<- | H]; [right; now left|].
      destruct (IH H) as [-> | H']; [now left | right; now right].
Qed.

Lemma sort_In (y : FusionQueries.Suggestion) (l : list FusionQueries.Suggestion) :
  In y (FusionQueries.sort l) -> In y l.
Proof.
  unfold FusionQueries.sort.
  assert (forall acc, In y (fold_left (fun sorted x => FusionQueries.insert x sorted) l acc)
                      -> In y acc \/ In y l) as G.
  { induction l as [|x l IH]; intros acc; simpl; [now left|].
    intros H. destruct (IH _ H) as [H' | H']; [|right; now right].
    destruct (insert_In _ _ _ H') as [-> | H'']; [right; now left | now left]. }
  intros H. destruct (G [] H) as [[] | H']. exact H'.
Qed.

Lemma In_firstn {A} (n : nat) (x : A) (l : list A) : In x (firstn n l) -> In x l.
Proof.
  revert l. induction n as [|n IH]; intros [|y l]; simpl; try tauto.
  intros [H | H]; [now left | right; now apply IH].
Qed.

Lemma suggest_with_spec (h : Host) (patterns : list (jsstring * FusionPattern.t))
  (lit1 : LIT.t) (later : list LIT.t) (acc : list FusionQueries.Suggestion) (w : World) :
  (forall n, In n default_names -> lookup n patterns <> None) ->
  exists out w',
    FusionQueries.suggest_with h patterns lit1 later acc w = (Return (acc ++ out), w')
    /\ Forall (suggestion_of patterns (lit1 :: later)) out.
Proof.
  intros D. revert acc w. induction later as [|lit2 rest IH]; intros acc w.
  - exists [], w. rewrite app_nil_r. now split.
  - assert (forall x, suggestion_of patterns (lit1 :: rest) x ->
                      suggestion_of patterns (lit1 :: lit2 :: rest) x) as Mono.
    { intros x (l1 & l2 & k & p & H1 & H2 & Hrest).
      exists l1, l2, k, p. split; [|split; [|exact Hrest]].
      - destruct H1 as [<- | H1]; [now left | right; now right].
      - destruct H2 as [<- | H2]; [now left | right; now right]. }
    cbn [FusionQueries.suggest_with].
    destruct (0.5 <? _) eqn:C.
    + unfold bindW. rewrite selectFusionPattern_spec.
      pose proof (selectPatternName_default h [lit1; lit2] w) as Hk.
      destruct (lookup (fst (XenialFusionEngine.selectPatternName h [lit1; lit2] w)) patterns)
        as [p|] eqn:L; [|exfalso; exact (D _ Hk L)].
      match goal with
      | |- context [FusionQueries.suggest_with h patterns lit1 rest (acc ++ [?x]) ?w1] =>
          destruct (IH (acc ++ [x]) w1) as (out & w' & E & F);
          exists (x :: out), w'
      end.
      rewrite E, <- app_assoc. split; [reflexivity|].
      constructor; [|exact (Forall_impl _ Mono F)].
      eexists lit1, lit2, _, p. split; [now left|]. split; [right; now left|].
      split; [exact Hk|]. split; [exact L|]. simpl. now repeat split.
    + destruct (IH acc w) as (out & w' & E & F). exists out, w'.
      split; [exact E | exact (Forall_impl _ Mono F)].
Qed.

Lemma suggest_all_spec (h : Host) (patterns : list (jsstring * FusionPattern.t))
  (all : list LIT.t) (acc : list FusionQueries.Suggestion) (w : World) :
  (forall n, In n default_names -> lookup n patterns <> None) ->
  exists out w',
    FusionQueries.suggest_all h patterns all acc w = (Return (acc ++ out), w')
    /\ Forall (suggestion_of patterns all) out.
Proof.
  intros D. revert acc w. induction all as [|lit1 later IH]; intros acc w.
  - exists [], w. rewrite app_nil_r. now split.
  - cbn [FusionQueries.suggest_all]. unfold bindW.
    destruct (suggest_with_spec h patterns lit1 later acc w D) as (out1 & w1 & -> & F1).
    destruct (IH (acc ++ out1) w1) as (out2 & w2 & -> & F2).
    exists (out1 ++ out2), w2. rewrite app_assoc. split; [reflexivity|].
    apply Forall_app. split; [exact F1|].
    refine (Forall_impl _ _ F2).
    intros x (l1 & l2 & k & p & H1 & H2 & Hrest).
    exists l1, l2, k, p. split; [now right|]. split; [now right | exact Hrest].
Qed.

Lemma derefs_length (s : Sys) (lits : list addr) :
  (length (derefs s lits) <= length lits)%nat.
Proof.
  unfold derefs. induction lits as [|a lits IH]; simpl; [lia|].
  destruct (deref s a); simpl; lia.
Qed.

(** X15.  [suggestFusions()] on an engine that holds a pattern under each default
    name: it returns, and only reads the clock; it gives at most five
    suggestions; each is made of two registered LITs whose average coherence
    is above [0.5], with the name of a registered pattern; and with fewer
    than two LITs it gives none. *)
Theorem suggestFusions_bounds (h : Host) (s : Sys) :
  defaults_registered s ->
  exists suggestions w',
    FusionQueries.suggestFusions h s = (Return suggestions, with_world s w')
    /\ (length suggestions <= 5)%nat
    /\ Forall (suggestion_of (fusionPatterns s) (derefs s (LITComposer.getAllLITs s)))
              suggestions
    /\ ((length (LITComposer.getAllLITs s) < 2)%nat -> suggestions = []).
Proof.
  intros D. unfold FusionQueries.suggestFusions.
  pose proof (derefs_length s (LITComposer.getAllLITs s)) as Len.
  destruct (suggest_all_spec h (fusionPatterns s) (derefs s (LITComposer.getAllLITs s))
              [] (world s) D) as (out & w' & E & F).
  assert ((length (derefs s (LITComposer.getAllLITs s)) < 2)%nat -> out = []) as Few.
  { intros L. destruct (derefs s (LITComposer.getAllLITs s)) as [|l1 [|l2 rest]];
      simpl in L; try lia; simpl in E; unfold retW, bindW in E; simpl in E;
      now injection E as <- _. }
  rewrite E. simpl. exists (firstn 5 (FusionQueries.sort out)), w'.
  split; [reflexivity|]. split; [apply firstn_le_length|]. split.
  - apply Forall_forall. intros x Hx. apply In_firstn, sort_In in Hx.
    rewrite Forall_forall in F. now apply F.
  - intros L. rewrite Few by lia. reflexivity.
Qed.

(** The engine of the demonstration. *)
Lemma suggestFusions_bounds_witness :
  exists suggestions,
    fst (FusionQueries.suggestFusions Demo.host Demo.two_lits) = Return suggestions
    /\ (length suggestions <= 5)%nat.
Proof.
  destruct (suggestFusions_bounds Demo.host Demo.two_lits
              (new_defaults_registered Demo.host _))
    as (suggestions & w' & E & L & _).
  exists suggestions. rewrite E. split; [reflexivity | exact L].
Defined.

(* ------------------------------------------------------------------------- *)
(** ** [registerPattern] and [getAvailablePatterns] *)

(** X16.  A new engine lists the four default patterns, in the order of their
    registration, unused and with the threshold [0.3].  [registerPattern]
    files the pattern under its name and leaves the other names as they
    are: under a free name the pattern is listed last; under a name in use
    it takes the place of the pattern that had the name, a default one
    included, and the list keeps its length. *)
Theorem registerPattern_replaces (h : Host) (p : FusionPattern.t) (s : Sys) :
  let s' := XenialFusionEngine.registerPattern p s in
  lookup (FusionPattern.name p) (fusionPatterns s') = Some p
  /\ (forall k, k <> FusionPattern.name p ->
                lookup k (fusionPatterns s') = lookup k (fusionPatterns s))
  /\ (lookup (FusionPattern.name p) (fusionPatterns s) = None ->
      FusionQueries.getAvailablePatterns s'
      = FusionQueries.getAvailablePatterns s ++ [info_of p])
  /\ (forall old,
         lookup (FusionPattern.name p) (fusionPatterns s) = Some old ->
         exists pre post,
           FusionQueries.getAvailablePatterns s = pre ++ info_of old :: post
           /\ FusionQueries.getAvailablePatterns s' = pre ++ info_of p :: post)
  /\ (forall s0,
         map FusionQueries.name (FusionQueries.getAvailablePatterns
                                   (XenialFusionEngine.new h s0)) = default_names
         /\ Forall (fun i => FusionQueries.usageCount i = 0%nat
                             /\ FusionQueries.threshold i = 0.3)
                   (FusionQueries.getAvailablePatterns (XenialFusionEngine.new h s0))).
Proof.
  intros s'. unfold s', XenialFusionEngine.registerPattern.
  cbn [fusionPatterns with_fusionPatterns].
  split; [apply lookup_Map_set_same|].
  split; [intros k N; now apply lookup_Map_set_other|].
  unfold FusionQueries.getAvailablePatterns. cbn [fusionPatterns with_fusionPatterns].
  fold info_of. split; [|split].
  - intros N. rewrite (Map_set_fresh _ _ _ N), !map_app. reflexivity.
  - intros old O.
    destruct (Map_set_replace (FusionPattern.name p) p old _ O) as (pre & post & E1 & E2).
    exists (map info_of pre), (map info_of post).
    rewrite E1, E2, !map_app. now split.
  - intros s0. rewrite new_fusionPatterns. split; [reflexivity|].
    repeat constructor.
Qed.

(* ------------------------------------------------------------------------- *)
(** ** [toJSON] and [fromJSON] *)

(** X17.  [LIT.fromJSON(lit.toJSON())] always returns.  The LIT that it gives has
    the relations of [lit]; its id, type and version when they are not
    empty, and the defaults 'generic' and '1.0.0' for an empty type or
    version; its content and metadata when they are truthy.  It has none of
    the capabilities of [lit], an agency score of 0, and none of its
    interactions: the agent system and the temporal signature are new. *)
Theorem fromJSON_toJSON (h : Host) (l : LIT.t) (w : World) :
  exists data w1 l' w2,
    LITJSON.toJSON h l w = (data, w1)
    /\ LITJSON.fromJSON h data w1 = (Return l', w2)
    /\ (LIT.id l <> [] -> LIT.id l' = LIT.id l)
    /\ (LIT.type l <> [] -> LIT.type l' = LIT.type l)
    /\ (LIT.type l = [] -> LIT.type l' = js "generic")
    /\ (LIT.version l <> [] -> LIT.version l' = LIT.version l)
    /\ (LIT.version l = [] -> LIT.version l' = js "1.0.0")
    /\ (truthy (LIT.content l) = true -> LIT.content l' = LIT.content l)
    /\ (truthy (LIT.metadata l) = true -> LIT.metadata l' = LIT.metadata l)
    /\ LIT.relations l' = LIT.relations l
    /\ CoherenceField.new h (LIT.content l') = Return (LIT.coherenceField l')
    /\ AgentSystem.capabilities (LIT.agentSystem l') = []
    /\ AgentSystem.agencyScore (LIT.agentSystem l') = 0
    /\ TemporalSignature.interactions (LIT.temporalSignature l') = [].
Proof.
  assert (let data := fst (LITJSON.toJSON h l w) in
          LITJSON.id data = LIT.id l /\ LITJSON.type data = LIT.type l
          /\ LITJSON.version data = LIT.version l
          /\ LITJSON.content data = LIT.content l
          /\ LITJSON.metadata data = LIT.metadata l
          /\ LITJSON.relations data = LIT.relations l) as Hd.
  { unfold LITJSON.toJSON, bindW.
    destruct (LIT.calculateValue h l w) as [v w0].
    destruct (TemporalSignature.temporalValue h _ w0) as [t w0'].
    destruct (Date_now w0') as [now w1]. simpl. now repeat split. }
  destruct (LITJSON.toJSON h l w) as [data w1]. simpl in Hd.
  destruct Hd as (Di & Dt & Dv & Dc & Dm & Dr).
  unfold LITJSON.fromJSON.
  destruct (LIT_new_returns h (LITJSON.config_of data) w1) as (_ & _ & l' & w2 & Hnew & _).
  exists data, w1, l', w2. split; [reflexivity|]. split; [exact Hnew|].
  destruct (LIT_new_identity h _ _ _ _ Hnew) as (Hid & Hty & Hv & Hm & Hr & Hi).
  destruct (LIT_new_fields h _ _ _ _ Hnew) as (Hc & Hf & Ha).
  cbn [LITJSON.config_of LIT.config_id LIT.config_type LIT.config_version
       LIT.config_metadata LIT.config_relations LIT.config_content
       LIT.config_capabilities] in *.
  rewrite Di in Hid. rewrite Dt in Hty. rewrite Dv in Hv. rewrite Dc in Hc.
  rewrite Dm in Hm. rewrite Dr in Hr.
  split; [intros N; rewrite Hid; now destruct (LIT.id l)|].
  split; [intros N; rewrite Hty; now destruct (LIT.type l)|].
  split; [intros N; now rewrite Hty, N|].
  split; [intros N; rewrite Hv; now destruct (LIT.version l)|].
  split; [intros N; now rewrite Hv, N|].
  split; [intros T; rewrite Hc; unfold or_value; now rewrite T|].
  split; [intros T; rewrite Hm; unfold or_value; now rewrite T|].
  split; [exact Hr|]. split; [exact Hf|].
  rewrite Ha. now repeat split.
Qed.

(* ------------------------------------------------------------------------- *)
(** ** EmergenceMetrics *)

Lemma ltb_leb (a b : float) : (a <? b) = true -> (a <=? b) = true.
Proof.
  rewrite leb_spec, ltb_spec. unfold SFleb, SFltb.
  destruct (SFcompare (Prim2SF a) (Prim2SF b)) as [[]|]; congruence.
Qed.

Lemma div_nan_r (x : float) : x / nan = nan.
Proof.
  apply Prim2SF_inj. rewrite div_spec. unfold SF64div.
  change (Prim2SF nan) with S754_nan. now destruct (Prim2SF x).
Qed.

Lemma Math_max_0_floor (x : float) :
  is_nan (Math_max 0 x) = true \/ (0 <=? Math_max 0 x) = true.
Proof.
  unfold Math_max. change (is_nan 0) with false. simpl.
  destruct (is_nan x) eqn:N; [now left|]. right.
  destruct (x <? 0) eqn:L; [reflexivity|].
  destruct (0 <? x) eqn:G; [now apply ltb_leb|].
  change (is_negative_zero 0) with false. reflexivity.
Qed.

(** X18.  [calculate(inputLITs, fusedLIT)] ends with a TypeError exactly when
    the content of an input LIT or of the fused LIT is [undefined].
    Otherwise it gives metrics of which the novelty is NaN or at most 1, the
    synergy is NaN or at least 0, and the stability is the coherence score
    of the fused LIT; without input LITs the novelty is NaN. *)
Theorem emergence_ranges (h : Host) (inputLITs : list LIT.t) (fusedLIT : LIT.t)
  (w : World) :
  match fst (EmergenceMetrics.calculate h inputLITs fusedLIT w) with
  | Some m =>
      (is_nan (EmergenceMetrics.novelty m) = true
       \/ (EmergenceMetrics.novelty m <=? 1) = true)
      /\ (is_nan (EmergenceMetrics.synergy m) = true
          \/ (0 <=? EmergenceMetrics.synergy m) = true)
      /\ EmergenceMetrics.stability m
         = CoherenceField.coherenceScore (LIT.coherenceField fusedLIT)
      /\ (inputLITs = [] -> is_nan (EmergenceMetrics.novelty m) = true)
      /\ ~ Exists (fun l => LIT.content l = JUndefined) inputLITs
      /\ LIT.content fusedLIT <> JUndefined
  | None =>
      Exists (fun l => LIT.content l = JUndefined) inputLITs
      \/ LIT.content fusedLIT = JUndefined
  end.
Proof.
  destruct (calculate_none h inputLITs fusedLIT w) as [Hn _].
  unfold EmergenceMetrics.calculate in *.
  destruct (EmergenceMetrics.sum_lengths h inputLITs 0) as [lengths|] eqn:SL;
    [|now apply Hn].
  destruct (EmergenceMetrics.stringify_length h (LIT.content fusedLIT)) as [out|] eqn:SO;
    [|now apply Hn].
  unfold bindW in *.
  destruct (EmergenceMetrics.sum_values h inputLITs 0 w) as [total w1].
  destruct (LIT.calculateValue h fusedLIT w1) as [outputValue w2].
  cbn [fst retW EmergenceMetrics.novelty EmergenceMetrics.synergy
       EmergenceMetrics.stability] in *.
  split; [apply Math_min_1_capped|]. split; [apply Math_max_0_floor|].
  split; [reflexivity|]. split; [|split].
  - intros ->. simpl in SL. injection SL as <-. cbn [length].
    assert (0 / float_of_nat 0 = nan) as -> by (apply is_nan_eq; reflexivity).
    rewrite div_nan_r. reflexivity.
  - intros H. assert (Some {| EmergenceMetrics.novelty := 0; EmergenceMetrics.synergy := 0;
                              EmergenceMetrics.stability := 0;
                              EmergenceMetrics.resonance := 0 |} = None) as A; [|discriminate A].
    exfalso. destruct Hn as [_ Hn]. specialize (Hn (or_introl H)). discriminate Hn.
  - intros H. destruct Hn as [_ Hn]. specialize (Hn (or_intror H)). discriminate Hn.
Qed.

(* ------------------------------------------------------------------------- *)
(** ** The default patterns *)

Lemma first_truthy_none (c : JSValue) (k1 k2 fallback : jsstring) :
  XenialFusionEngine.first_truthy c k1 k2 fallback = None <-> is_nullish c = true.
Proof.
  rewrite first_truthy_first_of. destruct (is_nullish c); split; congruence.
Qed.

Lemma traverse_none {A B} (f : A -> option B) (l : list A) :
  traverse f l = None <-> Exists (fun x => f x = None) l.
Proof.
  induction l as [|x l IH]; simpl.
  - split; [discriminate | intros H; inversion H].
  - destruct (f x) eqn:E.
    + destruct (traverse f l).
      * split; [discriminate|]. intros H. inversion H; subst; [congruence|].
        apply IH in H1. discriminate.
      * split; [|reflexivity]. intros _. right. now apply IH.
    + split; [|reflexivity]. intros _. now left.
Qed.

Lemma traverse_first_truthy_none (lits : list LIT.t) (k1 k2 fallback : jsstring) :
  traverse (fun lit => XenialFusionEngine.first_truthy (LIT.content lit) k1 k2 fallback) lits
  = None
  <-> Exists (fun l => is_nullish (LIT.content l) = true) lits.
Proof.
  rewrite traverse_none. split; apply Exists_impl; intros l; apply first_truthy_none.
Qed.

(** Induction on a value, with the property known of the elements of an
    array. *)
Lemma JSValue_elements_ind (P : JSValue -> Prop) :
  P JUndefined -> P JNull -> (forall b, P (JBool b)) -> (forall x, P (JNumber x)) ->
  (forall s, P (JString s)) ->
  (forall items, Forall P items -> P (JArray items)) ->
  (forall props, P (JObject props)) ->
  forall v, P v.
Proof.
  intros Hu Hn Hb Hx Hs Ha Ho. fix IH 1.
  intros [| |b|x|s|items|props];
    [exact Hu | exact Hn | exact (Hb b) | exact (Hx x) | exact (Hs s) | | exact (Ho props)].
  apply Ha. induction items as [|item rest IHr]; constructor; [apply IH | exact IHr].
Qed.

Lemma has_key_lookup {A} (k : jsstring) (m : list (jsstring * A)) :
  existsb (fun kv => jsstring_eqb (fst kv) k) m = true <-> lookup k m <> None.
Proof.
  induction m as [|[k' v] m IH]; simpl.
  - split; [discriminate | congruence].
  - destruct (jsstring_eqb k k') eqn:E.
    + apply jsstring_eqb_eq in E. subst k'. rewrite jsstring_eqb_refl. simpl.
      split; [discriminate | reflexivity].
    + destruct (jsstring_eqb k' k) eqn:E'.
      * apply jsstring_eqb_eq in E'. subst k'. rewrite jsstring_eqb_refl in E.
        discriminate E.
      * exact IH.
Qed.

Lemma element_texts_none (h : Host) (items : list JSValue) :
  Forall (fun v => ToString h v = None <-> unprintable v = true) items ->
  (element_texts h items = None <-> existsb unprintable items = true).
Proof.
  induction 1 as [|item rest Hi _ IH]; simpl.
  - split; discriminate.
  - destruct (is_nullish item) eqn:N.
    + assert (unprintable item = false) as -> by (now destruct item).
      simpl. destruct (element_texts h rest).
      * split; [discriminate|]. intros E. apply IH in E. discriminate E.
      * split; [intros _; now apply IH | reflexivity].
    + destruct (ToString h item) as [text|].
      * destruct (unprintable item); [now (destruct Hi as [_ Hi]; specialize (Hi eq_refl))|].
        simpl. destruct (element_texts h rest).
        -- split; [discriminate|]. intros E. apply IH in E. discriminate E.
        -- split; [intros _; now apply IH | reflexivity].
      * destruct Hi as [Hi _]. rewrite (Hi eq_refl). split; reflexivity.
Qed.

(** The values that ToString cannot print. *)
Lemma ToString_none (h : Host) (v : JSValue) :
  ToString h v = None <-> unprintable v = true.
Proof.
  induction v as [| |b|x|s|items IH|props] using JSValue_elements_ind;
    try (split; discriminate).
  - destruct b; split; discriminate.
  - change (ToString h (JArray items))
      with (match element_texts h items with
            | None => None
            | Some texts => Some (join (js ",") texts)
            end).
    change (unprintable (JArray items)) with (existsb unprintable items).
    rewrite <- (element_texts_none h items IH).
    destruct (element_texts h items); split; intros E; try discriminate E; reflexivity.
  - simpl. rewrite has_key_lookup.
    destruct (lookup (js "toString") props); split; intros E; try discriminate E;
      try reflexivity; now destruct E.
Qed.

Lemma Array_join_none (h : Host) (sep : jsstring) (items : list JSValue) :
  Array_join h sep items = None <-> existsb unprintable items = true.
Proof.
  unfold Array_join. rewrite <- (element_texts_none h).
  - destruct (element_texts h items); split; intros E; try discriminate E; reflexivity.
  - apply Forall_forall. intros v _. apply ToString_none.
Qed.

Lemma existsb_map_Exists {A B} (p : B -> bool) (f : A -> B) (l : list A) :
  existsb p (map f l) = true <-> Exists (fun x => p (f x) = true) l.
Proof.
  rewrite existsb_exists, Exists_exists. split.
  - intros (y & Hy & Hp). apply in_map_iff in Hy. destruct Hy as (x & <- & Hx).
    now exists x.
  - intros (x & Hx & Hp). exists (f x). split; [now apply in_map | exact Hp].
Qed.

Lemma Exists_either {A} (P Q : A -> Prop) (l : list A) :
  Exists (fun x => P x \/ Q x) l <-> Exists P l \/ Exists Q l.
Proof.
  rewrite !Exists_exists. split.
  - intros (x & Hx & [H|H]); [left | right]; now exists x.
  - intros [H|H]; destruct H as (x & Hx & H); exists x; auto.
Qed.

(** The values that a pattern picks, [c.k1 || c.k2 || fallback] of each
    content, and their [join]: the two fail together exactly when a content
    is [null] or [undefined], or a picked value cannot be printed. *)
Lemma picked_and_joined (h : Host) (sep k1 k2 fallback : jsstring) (lits : list LIT.t) :
  match traverse (fun lit => XenialFusionEngine.first_truthy (LIT.content lit) k1 k2 fallback)
                 lits with
  | None => Exists (fun l => is_nullish (LIT.content l) = true) lits
  | Some picks =>
      ~ Exists (fun l => is_nullish (LIT.content l) = true) lits
      /\ (Array_join h sep picks = None
          <-> Exists (fun l => unprintable (first_of k1 k2 fallback (LIT.content l)) = true)
                     lits)
  end.
Proof.
  pose proof (traverse_first_truthy_none lits k1 k2 fallback) as H1.
  destruct (traverse _ lits) as [picks|] eqn:Hp; [|now apply H1].
  split; [intros E; apply H1 in E; discriminate E|].
  apply traverse_first_of in Hp. destruct Hp as [-> _].
  rewrite Array_join_none. apply existsb_map_Exists.
Qed.

(** X19.  The fusion logic of 'Harmonic Synthesis' fails with a TypeError
    exactly when the content of one of the LITs is [null] or [undefined],
    or what it takes of a LIT ([knowledge], or else [description], or else
    ['']) cannot be made a string: it is an object with a property
    [toString] of its own, or an array that holds such a value.  The same
    holds of 'Creative Amplification' and what it takes ([medium], or else
    [name], or else ['pattern']).  The logic of 'Xenial Transcendence' never
    fails.  The constructor gives no LIT a content that is [null] or
    [undefined]; a [transform] whose function gives one leaves it in the
    LIT. *)
Theorem pattern_logic_failures (h : Host) (lits : list LIT.t) (w : World) :
  (fst (XenialFusionEngine.harmonicSynthesis h lits w) = None
   <-> Exists (fun l => is_nullish (LIT.content l) = true
                        \/ unprintable (first_of (js "knowledge") (js "description") []
                                                 (LIT.content l)) = true) lits)
  /\ (fst (XenialFusionEngine.creativeAmplification h lits w) = None
      <-> Exists (fun l => is_nullish (LIT.content l) = true
                           \/ unprintable (first_of (js "medium") (js "name") (js "pattern")
                                                    (LIT.content l)) = true) lits)
  /\ fst (XenialFusionEngine.xenialTranscendence h lits w) <> None
  /\ (forall config w0 l w',
         LIT.new h config w0 = (Return l, w') -> is_nullish (LIT.content l) = false)
  /\ (forall l fn w0,
         is_nullish (fn (LIT.content l)) = true ->
         is_nullish (LIT.content (fst (fst (LIT.transform h l fn w0)))) = true).
Proof.
  split; [|split; [|split; [|split]]].
  - rewrite Exists_either. unfold XenialFusionEngine.harmonicSynthesis.
    pose proof (picked_and_joined h XenialFusionEngine.oplus_separator
                  (js "knowledge") (js "description") [] lits) as H1.
    pose proof (traverse_first_truthy_none lits (js "topic") (js "name") (js "concept"))
      as H2.
    destruct (traverse _ lits) as [knowledge|]; [|split; [intros _; now left | reflexivity]].
    destruct H1 as [N J].
    destruct (Array_join h _ knowledge) as [combinedKnowledge|].
    + destruct (traverse _ lits) as [topics|].
      * unfold bindW.
        destruct (XenialFusionEngine.stamped h "synthesis-" w) as [id w1].
        destruct (XenialFusionEngine.now_ISO h w1) as [fusedAt w2].
        destruct (XenialFusionEngine.now_ISO h w2) as [created w3].
        split; [discriminate|]. intros [E|E]; [now destruct N|].
        apply J in E. discriminate E.
      * destruct N. now apply H2.
    + split; [intros _; right; now apply J | reflexivity].
  - rewrite Exists_either. unfold XenialFusionEngine.creativeAmplification.
    pose proof (picked_and_joined h XenialFusionEngine.times_separator
                  (js "medium") (js "name") (js "pattern") lits) as H1.
    pose proof (picked_and_joined h (js ", ")
                  (js "medium") (js "name") (js "pattern") lits) as H2.
    destruct (traverse _ lits) as [mediums|]; [|split; [intros _; now left | reflexivity]].
    destruct H1 as [N J]. destruct H2 as [_ J'].
    destruct (Array_join h XenialFusionEngine.times_separator mediums) as [fusedMedium|].
    + destruct (Array_join h (js ", ") mediums) as [listed|].
      * unfold bindW.
        destruct (XenialFusionEngine.stamped h "emergent-creative-" w) as [id w1].
        destruct (XenialFusionEngine.now_ISO h w1) as [created w2].
        split; [discriminate|]. intros [E|E]; [now destruct N|].
        apply J in E. discriminate E.
      * split; [intros _; right; now apply J' | reflexivity].
    + split; [intros _; right; now apply J | reflexivity].
  - unfold XenialFusionEngine.xenialTranscendence, bindW.
    destruct (EmergenceMetrics.sum_values h lits 0 w) as [total w1].
    destruct (XenialFusionEngine.constituents h lits w1) as [parts w2].
    destruct (XenialFusionEngine.stamped h "transcendent-" w2) as [id w3].
    destruct (XenialFusionEngine.now_ISO h w3) as [created w4].
    discriminate.
  - intros config w0 l w' Hnew.
    destruct (LIT_new_fields h _ _ _ _ Hnew) as (-> & _).
    pose proof (or_value_not_nullish (LIT.config_content config)) as N.
    now destruct (is_nullish _).
  - intros l fn w0 N. unfold LIT.transform, bindW.
    destruct (fn (LIT.content l)); try discriminate N; reflexivity.
Qed.

(** A capability that has no counter, alone in an agent system: once its
    handler has returned, the agency score is NaN. *)
Lemma uncounted_execute (h : Host) (nm : jsstring) (hd : AgentSystem.Handler)
  (context : JSValue) (w : World) (r : JSValue) (w' : World) :
  hd context w = (AgentSystem.HReturn r, w') ->
  exists a',
    AgentSystem.executeCapability
      h (AgentSystem.new [{| AgentSystem.name := nm; AgentSystem.handler := hd;
                             AgentSystem.uses := None |}]) nm context w
    = ((a', Return r), w')
    /\ AgentSystem.agencyScore a' = nan.
Proof.
  intros Hh. unfold AgentSystem.executeCapability, AgentSystem.find_capability. simpl.
  rewrite jsstring_eqb_refl. simpl. unfold bindW. rewrite Hh.
  eexists. split; reflexivity.
Qed.

(** X20.  The LIT that 'Xenial Transcendence' configures brings its capability
    'resonate' without a counter: on the LIT that the constructor builds
    from the configuration, the first [executeCapability('resonate')]
    returns and leaves an agency score and a value that are NaN. *)
Theorem transcendent_resonate_NaN (h : Host) (lits : list LIT.t) (w : World) :
  exists config w1,
    XenialFusionEngine.xenialTranscendence h lits w = (Some config, w1)
    /\ forall w2,
         exists l w3,
           LIT.new h config w2 = (Return l, w3)
           /\ forall context w4,
                exists r l' w5,
                  LIT.executeCapability h l (js "resonate") context w4
                  = ((l', Return r), w5)
                  /\ AgentSystem.agencyScore (LIT.agentSystem l') = nan
                  /\ forall w6, fst (LIT.calculateValue h l' w6) = nan.
Proof.
  unfold XenialFusionEngine.xenialTranscendence, bindW.
  destruct (EmergenceMetrics.sum_values h lits 0 w) as [total w1].
  destruct (XenialFusionEngine.constituents h lits w1) as [parts w2].
  destruct (XenialFusionEngine.stamped h "transcendent-" w2) as [id w3].
  destruct (XenialFusionEngine.now_ISO h w3) as [created w4].
  eexists _, _. split; [reflexivity|]. intros w5.
  match goal with
  | |- context [LIT.new h ?c w5] =>
      destruct (LIT_new_returns h c w5) as (_ & _ & l & w6 & Hnew & _);
      pose proof (LIT_new_agentSystem h c w5 l w6 Hnew) as Ha
  end.
  cbn [LIT.config_capabilities] in Ha.
  exists l, w6. split; [exact Hnew|]. intros context w7.
  assert (exists r w8, XenialFusionEngine.resonate context w7 = (AgentSystem.HReturn r, w8))
    as (r & w8 & Hh) by (eexists _, _; reflexivity).
  destruct (uncounted_execute h (js "resonate") XenialFusionEngine.resonate context w7 r w8 Hh)
    as (a' & E & Hs).
  exists r, (LIT.with_agentSystem l a'), w8.
  unfold LIT.executeCapability, bindW. rewrite Ha, E.
  split; [reflexivity|]. split; [exact Hs|].
  intros w9. now apply calculateValue_nan_agency.
Qed.

Lemma get_prop_content_property (l : LIT.t) (k : jsstring) (v : JSValue) :
  get_prop (LIT.content l) k = Some v -> v = content_property l k.
Proof.
  unfold get_prop, content_property, property.
  destruct (LIT.content l); try discriminate; now intros [= <-].
Qed.

Lemma has_type_or_spec (ty k : jsstring) (l : LIT.t) (b : bool) :
  XenialFusionEngine.has_type_or ty k l = Some b ->
  b = (jsstring_eqb (LIT.type l) ty || truthy (content_property l k))%bool.
Proof.
  unfold XenialFusionEngine.has_type_or.
  destruct (jsstring_eqb (LIT.type l) ty); [now intros [= <-]|].
  destruct (get_prop (LIT.content l) k) as [v|] eqn:G; [|discriminate].
  apply get_prop_content_property in G. subst v. now intros [= <-].
Qed.

(** [lits.filter(lit => lit.type === ty || lit.content.k)], when no
    content is read that is [null] or [undefined]. *)
Lemma filter_throwing_filter (ty k : jsstring) (lits kept : list LIT.t) :
  XenialFusionEngine.filter_throwing (XenialFusionEngine.has_type_or ty k) lits
  = Some kept ->
  kept = filter (fun l => (jsstring_eqb (LIT.type l) ty
                           || truthy (content_property l k))%bool) lits.
Proof.
  revert kept. induction lits as [|l lits IH]; intros kept; simpl.
  - now intros [= <-].
  - destruct (XenialFusionEngine.has_type_or ty k l) as [keep|] eqn:K; [|discriminate].
    apply has_type_or_spec in K. rewrite <- K.
    destruct (XenialFusionEngine.filter_throwing _ lits) as [rest|]; [|discriminate].
    intros [= <-]. now rewrite (IH rest eq_refl).
Qed.

Lemma find_filter {A} (p : A -> bool) (l : list A) :
  hd_error (filter p l) = List.find p l.
Proof.
  induction l as [|x l IH]; simpl; [reflexivity|]. now destruct (p x).
Qed.

(** The steps that the logic starts from, when it finds them. *)
Lemma initial_steps_spec (processes : list LIT.t) (steps : list JSValue) :
  XenialFusionEngine.initial_steps processes = Some steps ->
  steps = claimed_steps (hd_error processes)
  /\ forall first,
       hd_error processes = Some first ->
       truthy (content_property first (js "steps")) = true ->
       (exists items, content_property first (js "steps") = JArray items)
       \/ (exists text, content_property first (js "steps") = JString text).
Proof.
  unfold XenialFusionEngine.initial_steps, claimed_steps.
  destruct processes as [|first rest]; simpl.
  - intros [= <-]. split; [reflexivity | discriminate].
  - destruct (get_prop (LIT.content first) (js "steps")) as [v|] eqn:G; [|discriminate].
    apply get_prop_content_property in G. subst v. intros H. split.
    + destruct (content_property first (js "steps")) as [| |[|]|x|[|c text]|items|props];
        simpl in H; try destruct (truthy_number x); try discriminate H;
        now injection H as <-.
    + intros ? [= <-] T.
      destruct (content_property first (js "steps")) as [| |[|]|x|text|items|props];
        simpl in H, T; try rewrite T in H; try discriminate H; try discriminate T.
      * right. now eexists.
      * left. now eexists.
Qed.

(** One step, enriched: the step, then the topic of the knowledge LIT at
    its place, or ['context']. *)
Lemma enrich_spec (h : Host) (knowledge : list LIT.t) (i : nat) (step e : JSValue) :
  XenialFusionEngine.enrich h knowledge i step = Some e ->
  exists stepText contextText,
    ToString h step = Some stepText
    /\ ToString h (topic_or_context (nth_error knowledge (i mod length knowledge)%nat))
       = Some contextText
    /\ e = JString (stepText ++ js " [informed by: " ++ contextText ++ js "]").
Proof.
  unfold XenialFusionEngine.enrich.
  assert (match knowledge with
          | [] => None
          | _ => nth_error knowledge (i mod length knowledge)%nat
          end = nth_error knowledge (i mod length knowledge)%nat) as ->.
  { destruct knowledge; [|reflexivity]. now destruct (i mod length (@nil LIT.t))%nat. }
  destruct (ToString h step) as [stepText|]; [|now destruct (nth_error _ _)].
  destruct (nth_error knowledge _) as [lit|].
  - destruct (get_prop (LIT.content lit) (js "topic")) as [t|] eqn:G; [|discriminate].
    apply get_prop_content_property in G. subst t.
    change (or_value (content_property lit (js "topic")) (JString (js "context")))
      with (topic_or_context (Some lit)).
    destruct (ToString h (topic_or_context (Some lit))) as [contextText|]; [|discriminate].
    intros [= <-]. now exists stepText, contextText.
  - change (or_value JUndefined (JString (js "context"))) with (topic_or_context None).
    destruct (ToString h (topic_or_context None)) as [contextText|]; [|discriminate].
    intros [= <-]. now exists stepText, contextText.
Qed.

Lemma enrich_from_spec (h : Host) (knowledge : list LIT.t) (steps : list JSValue) :
  forall (i : nat) (enriched : list JSValue),
    XenialFusionEngine.enrich_from h knowledge i steps = Some enriched ->
    length enriched = length steps
    /\ forall j step,
         nth_error steps j = Some step ->
         exists stepText contextText,
           ToString h step = Some stepText
           /\ ToString h (topic_or_context
                            (nth_error knowledge ((i + j) mod length knowledge)%nat))
              = Some contextText
           /\ nth_error enriched j
              = Some (JString (stepText ++ js " [informed by: " ++ contextText ++ js "]")).
Proof.
  induction steps as [|step rest IH]; intros i enriched; simpl.
  - intros [= <-]. split; [reflexivity|]. intros [|j] ? N; discriminate N.
  - destruct (XenialFusionEngine.enrich h knowledge i step) as [e|] eqn:E; [|discriminate].
    destruct (XenialFusionEngine.enrich_from h knowledge (S i) rest) as [es|] eqn:Es;
      [|discriminate].
    intros [= <-]. destruct (IH _ _ Es) as [L N]. split; [simpl; now rewrite L|].
    intros [|j] step0 Hj.
    + injection Hj as <-. rewrite Nat.add_0_r.
      destruct (enrich_spec h _ _ _ _ E) as (stepText & contextText & T & C & ->).
      now exists stepText, contextText.
    + rewrite Nat.add_succ_r. exact (N j step0 Hj).
Qed.

(** X21.  The configuration of 'Processual Integration', when its logic
    returns.  A LIT counts as a process by its type 'process' or by steps
    that are not falsy, and as knowledge by its type 'knowledge' or by
    knowledge that is not falsy.  The fused process starts from the steps of
    the first LIT that counts as a process: the items of an array, or the
    code points of a string; it starts from 'Integrate', 'Process',
    'Transform' when no LIT counts as a process, and also when the first one
    has no steps (it counts by its type).  It has as many steps, and the
    step at place i is the text of the step it starts from, followed by
    ' [informed by: ', the topic of the knowledge LIT at place i modulo
    their number (or 'context' when there is no knowledge LIT or its topic
    is falsy) and ']'.  The contents of the knowledge LITs are kept as
    [knowledgeContext]; the type is 'informed-process'; the configuration
    brings no capability and no relation to the sources. *)
Theorem processual_steps (h : Host) (lits : list LIT.t) (w : World)
  (config : LIT.Config) (w' : World) :
  XenialFusionEngine.processualIntegration h lits w = (Some config, w') ->
  let knowledge := filter counts_as_knowledge lits in
  let steps := claimed_steps (List.find counts_as_process lits) in
  exists enriched,
    get_prop (LIT.config_content config) (js "steps") = Some (JArray enriched)
    /\ length enriched = length steps
    /\ (forall i step,
          nth_error steps i = Some step ->
          exists stepText contextText,
            ToString h step = Some stepText
            /\ ToString h (topic_or_context
                             (nth_error knowledge (i mod length knowledge)%nat))
               = Some contextText
            /\ nth_error enriched i
               = Some (JString (stepText ++ js " [informed by: " ++ contextText
                                ++ js "]")))
    /\ (forall first,
          List.find counts_as_process lits = Some first ->
          truthy (content_property first (js "steps")) = true ->
          (exists items, content_property first (js "steps") = JArray items)
          \/ (exists text, content_property first (js "steps") = JString text))
    /\ get_prop (LIT.config_content config) (js "knowledgeContext")
       = Some (JArray (map LIT.content knowledge))
    /\ LIT.config_type config = Some (js "informed-process")
    /\ LIT.config_capabilities config = None
    /\ LIT.config_relations config = None.
Proof.
  unfold XenialFusionEngine.processualIntegration.
  destruct (XenialFusionEngine.filter_throwing
              (XenialFusionEngine.has_type_or (js "process") (js "steps")) lits)
    as [processes|] eqn:Hp; [|discriminate].
  destruct (XenialFusionEngine.filter_throwing
              (XenialFusionEngine.has_type_or (js "knowledge") (js "knowledge")) lits)
    as [knowledge|] eqn:Hk; [|discriminate].
  apply filter_throwing_filter in Hp, Hk.
  change (processes = filter counts_as_process lits) in Hp.
  change (knowledge = filter counts_as_knowledge lits) in Hk.
  destruct (XenialFusionEngine.initial_steps processes) as [steps|] eqn:Hs; [|discriminate].
  apply initial_steps_spec in Hs. destruct Hs as [Hs Hi].
  rewrite Hp, find_filter in Hs, Hi.
  destruct (XenialFusionEngine.enrich_from h knowledge 0 steps) as [enriched|] eqn:He;
    [|discriminate].
  apply enrich_from_spec in He. destruct He as [Hl Hn].
  unfold bindW.
  destruct (XenialFusionEngine.stamped h "informed-process-" w) as [id w1].
  destruct (XenialFusionEngine.now_ISO h w1) as [created w2].
  intros [= <- _]. cbv zeta. rewrite <- Hs, <- Hk. exists enriched.
  split; [reflexivity|]. split; [exact Hl|]. split; [exact Hn|].
  split; [exact Hi|]. now repeat split.
Qed.

(** A workflow of three steps and two knowledge LITs: the steps are
    informed by the two topics in turn. *)
Lemma processual_steps_witness :
  exists config w',
    XenialFusionEngine.processualIntegration Demo.host workflow_and_knowledge
      (Demo.world Demo.ticking) = (Some config, w')
    /\ get_prop (LIT.config_content config) (js "steps")
       = Some (JArray [JString (js "Gather [informed by: xqe]");
                       JString (js "Publish [informed by: time]");
                       JString (js "Review [informed by: xqe]")]).
Proof.
  assert (exists config, fst (XenialFusionEngine.processualIntegration Demo.host
                                workflow_and_knowledge (Demo.world Demo.ticking))
                         = Some config)
    as (config & Hc) by (vm_compute; eexists; reflexivity).
  destruct (XenialFusionEngine.processualIntegration Demo.host workflow_and_knowledge
              (Demo.world Demo.ticking)) as [out w'] eqn:E.
  simpl in Hc. subst out. exists config, w'. split; [reflexivity|].
  destruct (processual_steps Demo.host workflow_and_knowledge (Demo.world Demo.ticking)
              config w' E) as (enriched & -> & Hl & Hn & _).
  assert (claimed_steps (List.find counts_as_process workflow_and_knowledge)
          = [JString (js "Gather"); JString (js "Publish"); JString (js "Review")])
    as Hs by (vm_compute; reflexivity).
  rewrite Hs in Hl, Hn.
  destruct enriched as [|e0 [|e1 [|e2 [|e3 rest]]]]; try discriminate Hl.
  destruct (Hn 0%nat _ eq_refl) as (s0 & c0 & S0 & C0 & N0).
  destruct (Hn 1%nat _ eq_refl) as (s1 & c1 & S1 & C1 & N1).
  destruct (Hn 2%nat _ eq_refl) as (s2 & c2 & S2 & C2 & N2).
  injection S0 as <-. injection S1 as <-. injection S2 as <-.
  assert (Some c0 = Some (js "xqe")) as K0 by (rewrite <- C0; vm_compute; reflexivity).
  assert (Some c1 = Some (js "time")) as K1 by (rewrite <- C1; vm_compute; reflexivity).
  assert (Some c2 = Some (js "xqe")) as K2 by (rewrite <- C2; vm_compute; reflexivity).
  injection K0 as ->. injection K1 as ->. injection K2 as ->.
  injection N0 as ->. injection N1 as ->. injection N2 as ->. reflexivity.
Defined.
